(** * Pareto fronts and non-domination ranks of [optuna/study/_multi_objective.py]

    A shallow embedding of the module: Python floats are IEEE-754 values
    ([spec_float] of the Standard Library, with its comparison that is false
    on NaN), exceptions are an explicit result type, numpy arrays are lists
    and the [defaultdict] of the ranking is a [gmap]. *)

From Stdlib Require Import ZArith Lia SpecFloat.
From stdpp Require Import base option list gmap.

Local Open Scope Z_scope.

(** ** Python floats *)

Module PyFloat.

Abbreviation float := spec_float.

Definition inf : float := S754_infinity false.
Definition nan : float := S754_nan.

(** [a <= b], [a < b], [a >= b], [a > b], [a == b], [-a] and [math.isnan]. *)
Definition le (a b : float) : bool := SFleb a b.
Definition lt (a b : float) : bool := SFltb a b.
Definition ge (a b : float) : bool := SFleb b a.
Definition gt (a b : float) : bool := SFltb b a.
Definition eq (a b : float) : bool := SFeqb a b.
Definition neg (a : float) : float := SFopp a.

Definition isnan (a : float) : bool :=
  match a with S754_nan => true | _ => false end.

(** Some binary64 values used in examples: 0.0, 1.0, 2.0, 3.0, 5.0. *)
Definition f0 : float := S754_zero false.
Definition f1 : float := S754_finite false 4503599627370496 (-52).
Definition f2 : float := S754_finite false 4503599627370496 (-51).
Definition f3 : float := S754_finite false 6755399441055744 (-51).
Definition f5 : float := S754_finite false 5629499534213120 (-50).

Definition is_binary64 (a : float) : bool := valid_binary 53 1024 a.

End PyFloat.

(** ** Exceptions *)

Inductive exn : Set := ValueError | IndexError.

(** The outcome of a call: a value, a raised exception, or a loop that is
    still running when the fuel given to it is used up. *)
Inductive result (A : Type) : Type :=
  | Return (a : A)
  | Raise (e : exn)
  | OutOfFuel.
Arguments Return {A} a.
Arguments Raise {A} e.
Arguments OutOfFuel {A}.

#[global] Instance result_ret : MRet result := fun A a => Return a.

#[global] Instance result_bind : MBind result := fun A B k r =>
  match r with
  | Return a => k a
  | Raise e => Raise e
  | OutOfFuel => OutOfFuel
  end.

(** ** Trials *)

(** Modelled from the spec: [StudyDirection] is imported from
    [optuna.study._study_direction]; the spec gives the enum
    {MINIMIZE, MAXIMIZE}. *)
Inductive StudyDirection : Set := MINIMIZE | MAXIMIZE.

(** Modelled from the spec: [TrialState] is imported from [optuna.trial];
    the spec gives an enum of which only COMPLETE is told apart. *)
Inductive TrialState : Set := COMPLETE | NOT_COMPLETE (tag : nat).

Definition is_complete (s : TrialState) : bool :=
  match s with COMPLETE => true | NOT_COMPLETE _ => false end.

(** Modelled from the spec: [FrozenTrial] is imported from [optuna.trial];
    the spec gives an integer identifier, a completion state and a sequence
    of nullable reals. *)
Record FrozenTrial : Type := mkTrial {
  number : Z;
  state : TrialState;
  values : list (option PyFloat.float)
}.

(** ** [_normalize_value] *)

Definition _normalize_value (value : option PyFloat.float)
    (direction : StudyDirection) : PyFloat.float :=
  let value := match value with None => PyFloat.inf | Some v => v end in
  let value := match direction with
               | MAXIMIZE => PyFloat.neg value
               | MINIMIZE => value
               end in
  value.

(** ** [_dominates] *)

(** [l0 == l1] on lists of floats. CPython compares the items with
    [x is y or x == y]; [same i] tells whether the items at index [i] are one
    object. *)
Fixpoint floats_eq_from (same : nat -> bool) (i : nat)
    (l0 l1 : list PyFloat.float) : bool :=
  match l0, l1 with
  | [], [] => true
  | x :: l0', y :: l1' =>
      (same i || PyFloat.eq x y) && floats_eq_from same (S i) l0' l1'
  | _, _ => false
  end.

Definition floats_eq (same : nat -> bool) (l0 l1 : list PyFloat.float) : bool :=
  floats_eq_from same 0 l0 l1.

Definition normalized (vs : list (option PyFloat.float))
    (directions : list StudyDirection) : list PyFloat.float :=
  zip_with _normalize_value vs directions.

(** [all(v0 <= v1 for v0, v1 in zip(l0, l1))] *)
Definition all_le (l0 l1 : list PyFloat.float) : bool :=
  forallb (fun p => PyFloat.le p.1 p.2) (zip l0 l1).

(** [_dominates], with the object identities of the normalized items as a
    parameter. *)
Definition _dominates_aliased (same : nat -> bool)
    (trial0 trial1 : FrozenTrial) (directions : list StudyDirection)
    : result bool :=
  let values0 := values trial0 in
  let values1 := values trial1 in
  if negb (is_complete (state trial0)) then Return false
  else if negb (is_complete (state trial1)) then Return true
  else if negb (length values0 =? length values1)%nat then Raise ValueError
  else if negb (length values0 =? length directions)%nat then Raise ValueError
  else
    let normalized_values0 := normalized values0 directions in
    let normalized_values1 := normalized values1 directions in
    if floats_eq same normalized_values0 normalized_values1 then Return false
    else Return (all_le normalized_values0 normalized_values1).

(** [_dominates] on trials whose normalized values are all distinct objects;
    [dominates_aliased_irrelevant] below shows that sharing objects never
    changes the answer. *)
Definition _dominates := _dominates_aliased (fun _ => false).

(** ** Pareto fronts *)

(** [list.sort(key=...)]: the keys are computed first, then the items are
    sorted stably with [<] on the keys alone. The model inserts the items one
    by one, each after the items whose key is not above its own. On keys that
    [<] orders totally this is the one stable sorted arrangement, the result
    of every stable sort, and so that of [list.sort]. Where a key holds NaN,
    [<] is no order and the arrangement depends on which comparisons the
    sorting algorithm makes: there the model is one insertion order and need
    not be the arrangement CPython produces (on the keys (2,2), (NaN,0),
    (1,1) CPython sees one ascending run and leaves the items in place, the
    model moves (1,1) to the front). The general statements below that
    depend on the arrangement therefore assume keys without NaN, and the one
    example with a NaN key is on an input where no key is below any key
    before it, which both leave in place. *)
Section Sort.
Context {K A : Type} (ltb : K -> K -> bool).

Fixpoint sort_insert (x : K * A) (l : list (K * A)) : list (K * A) :=
  match l with
  | [] => [x]
  | y :: l' => if ltb x.1 y.1 then x :: y :: l' else y :: sort_insert x l'
  end.

Definition sort_keyed (l : list (K * A)) : list (K * A) :=
  foldl (fun acc x => sort_insert x acc) [] l.
End Sort.

(** [a < b] on tuples of two floats: the first items that are not [==]
    decide. *)
Definition tuple_lt (a b : PyFloat.float * PyFloat.float) : bool :=
  if negb (PyFloat.eq a.1 b.1) then PyFloat.lt a.1 b.1
  else if negb (PyFloat.eq a.2 b.2) then PyFloat.lt a.2 b.2
  else false.

(** [l[i]] for a non-negative literal index. *)
Definition getitem {A} (l : list A) (i : nat) : result A :=
  match l !! i with
  | Some x => Return x
  | None => Raise IndexError
  end.

Definition complete_trials (trials : list FrozenTrial) : list FrozenTrial :=
  filter (fun t => is_complete (state t) = true) trials.

(** The key of the first sort of [_get_pareto_front_trials_2d]. *)
Definition key_2d (directions : list StudyDirection) (trial : FrozenTrial)
    : result (PyFloat.float * PyFloat.float) :=
  v0 ← getitem (values trial) 0;
  d0 ← getitem directions 0;
  v1 ← getitem (values trial) 1;
  d1 ← getitem directions 1;
  Return (_normalize_value v0 d0, _normalize_value v1 d1).

(** The loop [for i in range(1, n_trials)] of the 2D front. *)
Fixpoint sweep_2d (directions : list StudyDirection)
    (last_nondominated_trial : FrozenTrial) (pareto_front : list FrozenTrial)
    (rest : list FrozenTrial) : result (list FrozenTrial) :=
  match rest with
  | [] => Return pareto_front
  | trial :: rest' =>
      d ← _dominates last_nondominated_trial trial directions;
      if (d : bool) then
        sweep_2d directions last_nondominated_trial pareto_front rest'
      else sweep_2d directions trial (pareto_front ++ [trial]) rest'
  end.

Definition _get_pareto_front_trials_2d (trials : list FrozenTrial)
    (directions : list StudyDirection) : result (list FrozenTrial) :=
  let trials := complete_trials trials in
  let n_trials := length trials in
  if (n_trials =? 0)%nat then Return []
  else
    keyed ← mapM (fun t => k ← key_2d directions t; Return (k, t)) trials;
    let trials := (sort_keyed tuple_lt keyed).*2 in
    match trials with
    | [] => Return []
    | first :: rest =>
        pareto_front ← sweep_2d directions first [first] rest;
        Return (sort_keyed Z.ltb
                  (map (fun t => (number t, t)) pareto_front)).*2
    end.

(** The inner loop [for other in trials] with its [break]. *)
Fixpoint is_dominated (directions : list StudyDirection)
    (others : list FrozenTrial) (trial : FrozenTrial) : result bool :=
  match others with
  | [] => Return false
  | other :: others' =>
      d ← _dominates other trial directions;
      if (d : bool) then Return true
      else is_dominated directions others' trial
  end.

Fixpoint nd_loop (directions : list StudyDirection)
    (all_trials todo : list FrozenTrial) (pareto_front : list FrozenTrial)
    : result (list FrozenTrial) :=
  match todo with
  | [] => Return pareto_front
  | trial :: todo' =>
      dominated ← is_dominated directions all_trials trial;
      nd_loop directions all_trials todo'
        (if (dominated : bool) then pareto_front else pareto_front ++ [trial])
  end.

Definition _get_pareto_front_trials_nd (trials : list FrozenTrial)
    (directions : list StudyDirection) : result (list FrozenTrial) :=
  let pareto_front := [] in
  let trials := complete_trials trials in
  nd_loop directions trials trials pareto_front.

Definition _get_pareto_front_trials_by_trials (trials : list FrozenTrial)
    (directions : list StudyDirection) : result (list FrozenTrial) :=
  if (length directions =? 2)%nat
  then _get_pareto_front_trials_2d trials directions
  else _get_pareto_front_trials_nd trials directions.

(** ** Non-domination ranks *)

(** A two-dimensional [ndarray] of floats is the list of its rows; all rows
    of an [ndarray] have one length. *)
Abbreviation matrix := (list (list PyFloat.float)).

Definition rectangular (k : nat) (objective_values : matrix) : Prop :=
  Forall (fun row => length row = k) objective_values.

(** [domination_mat[i, j]] for the rows [oi], [oj]:
    [np.all(oi >= oj) & np.any(oi > oj)]. *)
Definition dominated_by (oi oj : list PyFloat.float) : bool :=
  forallb (fun p => PyFloat.ge p.1 p.2) (zip oi oj)
  && existsb (fun p => PyFloat.gt p.1 p.2) (zip oi oj).

Definition domination_matrix (objective_values : matrix) : list (list bool) :=
  map (fun oi => map (fun oj => dominated_by oi oj) objective_values)
      objective_values.

(** [np.nonzero] of a vector of booleans: the indices of its true items, in
    increasing order. *)
Fixpoint nonzero_from (i : nat) (v : list bool) : list nat :=
  match v with
  | [] => []
  | b :: v' => if b then i :: nonzero_from (S i) v' else nonzero_from (S i) v'
  end.

Definition nonzero (v : list bool) : list nat := nonzero_from 0 v.

(** The pairs that [zip] makes of the two arrays of [np.nonzero(mat)]: the
    (row, column) of each true entry, row by row. *)
Definition nonzero_pairs (mat : list (list bool)) : list (nat * nat) :=
  concat (imap (fun i row => map (fun j => (i, j)) (nonzero row)) mat).

(** The [defaultdict(list)] filled by
    [domination_map[dominating_idx].append(dominated_idx)]. *)
Definition build_domination_map (pairs : list (nat * nat))
    : gmap nat (list nat) :=
  foldl (fun m p => <[p.2 := default [] (m !! p.2) ++ [p.1]]> m) ∅ pairs.

(** [domination_map[j]]: a missing key reads as the empty list (the entry
    that the [defaultdict] then stores is empty too, so later reads are the
    same). *)
Definition map_get (m : gmap nat (list nat)) (j : nat) : list nat :=
  default [] (m !! j).

(** [np.sum(mat, axis=1)] *)
Definition row_sums (mat : list (list bool)) : list Z :=
  map (fun row => Z.of_nat (length (nonzero row))) mat.

(** [a[idxs] = x] *)
Definition assign_at (idxs : list nat) (x : Z) (a : list Z) : list Z :=
  foldl (fun a i => <[i := x]> a) a idxs.

(** [a[idxs] -= 1]: numpy reads [a[idxs]], subtracts, then writes the
    results back, so an index listed twice is still lowered by one only. *)
Definition decrement_at (idxs : list nat) (a : list Z) : list Z :=
  foldl (fun acc i => <[i := default 0 (a !! i) - 1]> acc) a idxs.

Record loop_state : Type := mkState {
  ranks : list Z;
  dominated_count : list Z;
  rank : Z;
  ranked_idx_num : Z
}.

(** One pass through the body of the [while] loop. *)
Definition loop_body (domination_map : gmap nat (list nat)) (st : loop_state)
    : loop_state :=
  let non_dominated_idxs := nonzero (map (Z.eqb 0) (dominated_count st)) in
  let ranked_idx_num := ranked_idx_num st + Z.of_nat (length non_dominated_idxs) in
  let rank := rank st + 1 in
  let ranks := assign_at non_dominated_idxs rank (ranks st) in
  let dominated_count := assign_at non_dominated_idxs (-1) (dominated_count st) in
  let dominated_count :=
    foldl (fun dc non_dominated_idx =>
             decrement_at (map_get domination_map non_dominated_idx) dc)
          dominated_count non_dominated_idxs in
  mkState ranks dominated_count rank ranked_idx_num.

(** [while ranked_idx_num < n_below: ...]; [fuel] bounds the number of
    passes. *)
Fixpoint while_loop (fuel : nat) (domination_map : gmap nat (list nat))
    (n_below : Z) (st : loop_state) : result loop_state :=
  if ranked_idx_num st <? n_below then
    match fuel with
    | O => OutOfFuel
    | S fuel' =>
        while_loop fuel' domination_map n_below (loop_body domination_map st)
    end
  else Return st.

(** [n_below or n]: [None] and [0] are falsy. *)
Definition n_below_or (n_below : option Z) (n : nat) : Z :=
  match n_below with
  | None => Z.of_nat n
  | Some z => if z =? 0 then Z.of_nat n else z
  end.

Definition initial_state (objective_values : matrix) : loop_state :=
  let domination_mat := domination_matrix objective_values in
  mkState (replicate (length objective_values) (-1))
          (row_sums domination_mat) (-1) 0.

Definition _calculate_nondomination_rank (fuel : nat)
    (objective_values : matrix) (n_below : option Z)
    : result (list Z * Z) :=
  let domination_mat := domination_matrix objective_values in
  let domination_list := nonzero_pairs domination_mat in
  let domination_map := build_domination_map domination_list in
  let n_below := n_below_or n_below (length objective_values) in
  st ← while_loop fuel domination_map n_below (initial_state objective_values);
  Return (ranks st, rank st).

(** ** Ranks under constraints *)

(** [a[mask]] *)
Fixpoint mask_select {A} (mask : list bool) (a : list A) : list A :=
  match mask, a with
  | b :: mask', x :: a' =>
      if b then x :: mask_select mask' a' else mask_select mask' a'
  | _, _ => []
  end.

(** [a[mask] += vals], for [vals] with one item per true item of [mask]. *)
Fixpoint mask_add (mask : list bool) (a vals : list Z) : list Z :=
  match mask, a with
  | b :: mask', x :: a' =>
      if b then
        match vals with
        | v :: vals' => (x + v) :: mask_add mask' a' vals'
        | [] => x :: a'
        end
      else x :: mask_add mask' a' vals
  | _, _ => a
  end.

Definition _fast_non_dominated_sort (fuel : nat) (objective_values : matrix)
    (penalty : option (list PyFloat.float)) (n_below : option Z)
    : result (list Z) :=
  match penalty with
  | None =>
      r ← _calculate_nondomination_rank fuel objective_values n_below;
      Return r.1
  | Some penalty =>
      if negb (length penalty =? length objective_values)%nat
      then Raise ValueError
      else
        let nondomination_rank := replicate (length objective_values) 0 in
        let is_nan := map PyFloat.isnan penalty in
        (* feasible trials *)
        let is_feasible :=
          zip_with andb (map negb is_nan)
                   (map (fun p => PyFloat.le p PyFloat.f0) penalty) in
        r1 ← _calculate_nondomination_rank fuel
               (mask_select is_feasible objective_values) n_below;
        let feasible_bottom_rank := r1.2 in
        let nondomination_rank := mask_add is_feasible nondomination_rank r1.1 in
        (* infeasible trials *)
        let is_infeasible :=
          zip_with andb (map negb is_nan)
                   (map (fun p => PyFloat.gt p PyFloat.f0) penalty) in
        r2 ← _calculate_nondomination_rank fuel
               (map (fun p => [p]) (mask_select is_infeasible penalty)) n_below;
        let infeasible_bottom_rank := r2.2 in
        let nondomination_rank :=
          mask_add is_infeasible nondomination_rank
            (map (fun r => r + (feasible_bottom_rank + 1)) r2.1) in
        (* trials with no penalty information *)
        r3 ← _calculate_nondomination_rank fuel
               (mask_select is_nan objective_values) n_below;
        let nondomination_rank :=
          mask_add is_nan nondomination_rank
            (map (fun r => r + (feasible_bottom_rank + 1)
                             + (infeasible_bottom_rank + 1)) r3.1) in
        Return nondomination_rank
  end.

(** * Properties *)

(** ** The order of floats *)

Module PyFloatFacts.
Import PyFloat.

Ltac break_floats :=
  repeat match goal with
         | x : spec_float |- _ => destruct x as [[]|[]| |[] ? ?]
         end.

Ltac order_cases :=
  repeat match goal with
         | |- context [Z.compare ?a ?b] =>
             destruct (Z.compare_spec a b); simpl in *
         | |- context [Pos.compare ?a ?b] =>
             destruct (Pos.compare_spec a b); simpl in *
         | H : context [Z.compare ?a ?b] |- _ =>
             destruct (Z.compare_spec a b); simpl in *
         | H : context [Pos.compare ?a ?b] |- _ =>
             destruct (Pos.compare_spec a b); simpl in *
         end.

Ltac float_order :=
  unfold le, lt, ge, gt, eq, isnan, SFleb, SFltb, SFeqb, SFcompare in *;
  intros; break_floats; simpl in *;
  rewrite ?Pos.compare_cont_spec in *; simpl in *;
  try congruence; try tauto;
  order_cases; subst; try congruence; try lia; try tauto.

Lemma le_trans x y z : le x y = true -> le y z = true -> le x z = true.
Proof. float_order. Qed.

Lemma le_antisym x y : le x y = true -> le y x = true -> eq x y = true.
Proof. float_order. Qed.

Lemma eq_le x y : eq x y = true -> le x y = true /\ le y x = true.
Proof. float_order. Qed.

Lemma eq_sym x y : eq x y = eq y x.
Proof. float_order. Qed.

Lemma lt_le x y : lt x y = true -> le x y = true.
Proof. float_order. Qed.

Lemma lt_not_le x y : lt x y = true -> le y x = false.
Proof. float_order. Qed.

Lemma lt_irrefl x : lt x x = false.
Proof. float_order. Qed.

Lemma lt_le_trans x y z : lt x y = true -> le y z = true -> lt x z = true.
Proof. float_order. Qed.

Lemma le_lt_trans x y z : le x y = true -> lt y z = true -> lt x z = true.
Proof. float_order. Qed.

Lemma le_not_eq_lt x y : le x y = true -> eq x y = false -> lt x y = true.
Proof. float_order. Qed.

Lemma le_is_lt_or_eq x y : le x y = lt x y || eq x y.
Proof. float_order. Qed.

Lemma lt_not_eq x y : lt x y = true -> eq x y = false.
Proof. float_order. Qed.

Lemma le_total x y :
  isnan x = false -> isnan y = false -> le x y = true \/ lt y x = true.
Proof. float_order. Qed.

Lemma le_not_nan x y : le x y = true -> isnan x = false /\ isnan y = false.
Proof. float_order. Qed.

Lemma lt_not_nan x y : lt x y = true -> isnan x = false /\ isnan y = false.
Proof. float_order. Qed.

Lemma eq_refl_iff x : eq x x = negb (isnan x).
Proof. float_order. Qed.

Lemma nan_le_l y : le nan y = false.
Proof. reflexivity. Qed.

Lemma nan_le_r x : le x nan = false.
Proof. float_order. Qed.

Lemma neg_not_nan x : isnan (neg x) = isnan x.
Proof. destruct x; reflexivity. Qed.

End PyFloatFacts.

(** ** Normalization *)

(** What the code computes for a null value: the null is replaced by positive
    infinity before the direction is applied, so the result is positive
    infinity under MINIMIZE and its negation, negative infinity, under
    MAXIMIZE; in both directions it is the result for the raw value positive
    infinity. *)
Lemma normalize_none (d : StudyDirection) :
  _normalize_value None d
  = match d with
    | MINIMIZE => S754_infinity false
    | MAXIMIZE => S754_infinity true
    end
  /\ _normalize_value None d = _normalize_value (Some PyFloat.inf) d.
Proof. destruct d; split; reflexivity. Qed.

(** C1 does not hold of the code under MAXIMIZE. The stand-in for a missing
    value, positive infinity, is the worst raw value only when minimizing; the
    negation of lines 194-195 turns it into negative infinity, which is not
    the worst but the best value in minimize-equivalent space: it is at or
    below the normalized form of every value that is not NaN, strictly below
    that of every finite value, and a complete trial whose only value is
    missing dominates a trial with a real value and is not dominated by
    it. *)
Theorem normalize_none_maximize_not_inf :
  _normalize_value None MAXIMIZE = S754_infinity true
  /\ _normalize_value None MAXIMIZE <> PyFloat.inf
  /\ (forall x : PyFloat.float,
        PyFloat.le (_normalize_value None MAXIMIZE)
                   (_normalize_value (Some x) MAXIMIZE)
        = negb (PyFloat.isnan x))
  /\ PyFloat.lt (_normalize_value None MAXIMIZE)
                (_normalize_value (Some PyFloat.f0) MAXIMIZE) = true
  /\ _dominates (mkTrial 0 COMPLETE [None])
                (mkTrial 1 COMPLETE [Some PyFloat.f1]) [MAXIMIZE]
     = Return true
  /\ _dominates (mkTrial 1 COMPLETE [Some PyFloat.f1])
                (mkTrial 0 COMPLETE [None]) [MAXIMIZE]
     = Return false.
Proof.
  split; [reflexivity|]. split; [discriminate|].
  split; [|repeat split].
  intros x. destruct x as [s|s| |s m e]; try destruct s; reflexivity.
Qed.

(** ** The dominance relation *)

Section Dominance.
Import PyFloat PyFloatFacts.

Lemma all_le_cons x y l0 l1 :
  all_le (x :: l0) (y :: l1) = le x y && all_le l0 l1.
Proof. reflexivity. Qed.

Lemma floats_eq_from_refl_false same i l :
  floats_eq_from same i l l = false -> all_le l l = false.
Proof.
  revert i. induction l as [|x l IH]; intros i; simpl; [discriminate|].
  rewrite all_le_cons. intros H.
  apply andb_false_iff in H as [H|H].
  - apply orb_false_iff in H as [_ H].
    rewrite eq_refl_iff in H. apply negb_false_iff in H.
    destruct x; try discriminate. reflexivity.
  - rewrite (IH _ H). apply andb_false_r.
Qed.

Lemma all_le_antisym same i l0 l1 :
  length l0 = length l1 ->
  all_le l0 l1 = true -> all_le l1 l0 = true ->
  floats_eq_from same i l0 l1 = true.
Proof.
  revert i l1. induction l0 as [|x l0 IH]; intros i [|y l1] Hlen; simpl in *;
    try discriminate; [reflexivity|].
  rewrite !all_le_cons. intros [Hxy H01]%andb_true_iff [Hyx H10]%andb_true_iff.
  rewrite (le_antisym _ _ Hxy Hyx), orb_true_r. simpl.
  apply IH; [lia|done..].
Qed.

Lemma floats_eq_from_sym same i l0 l1 :
  floats_eq_from same i l0 l1 = floats_eq_from same i l1 l0.
Proof.
  revert i l1. induction l0 as [|x l0 IH]; intros i [|y l1]; simpl; try done.
  by rewrite (eq_sym x y), IH.
Qed.

Lemma normalized_length vs directions :
  length vs = length directions ->
  length (normalized vs directions) = length directions.
Proof. intros H. unfold normalized. rewrite length_zip_with. lia. Qed.

(** What [_dominates] returns on two complete trials of the right shape. *)
Lemma dominates_aliased_complete same t0 t1 directions :
  is_complete (state t0) = true -> is_complete (state t1) = true ->
  length (values t0) = length directions ->
  length (values t1) = length directions ->
  _dominates_aliased same t0 t1 directions
  = Return (negb (floats_eq same (normalized (values t0) directions)
                               (normalized (values t1) directions))
            && all_le (normalized (values t0) directions)
                      (normalized (values t1) directions)).
Proof.
  intros H0 H1 L0 L1. unfold _dominates_aliased.
  rewrite H0, H1. simpl.
  rewrite (proj2 (Nat.eqb_eq _ _)) by congruence.
  rewrite (proj2 (Nat.eqb_eq _ _) L0). simpl.
  by destruct (floats_eq _ _ _).
Qed.

(** Items that are one object are equal, so the identity test of the list
    comparison decides nothing: where it says "equal" against [==], the
    item is a NaN and the comparison by [<=] fails as well. *)
Lemma floats_eq_aliased same i l0 l1 :
  (forall j x y, same (i + j)%nat = true ->
                 l0 !! j = Some x -> l1 !! j = Some y -> x = y) ->
  negb (floats_eq_from same i l0 l1) && all_le l0 l1
  = negb (floats_eq_from (fun _ => false) i l0 l1) && all_le l0 l1.
Proof.
  revert i l1. induction l0 as [|x l0 IH]; intros i [|y l1] Hs; simpl;
    try done.
  rewrite all_le_cons.
  assert (IH' := IH (S i) l1).
  lapply IH'; clear IH IH'.
  2:{ intros j a b Hj. apply (Hs (S j)). by rewrite Nat.add_succ_r. }
  intros IH.
  assert (same i = true -> eq x y = false -> le x y = false) as Hnan.
  { intros Hi Hx.
    assert (x = y) as <-.
    { apply (Hs 0%nat); [by rewrite Nat.add_0_r|done..]. }
    rewrite eq_refl_iff in Hx. apply negb_false_iff in Hx.
    by destruct x. }
  destruct (same i), (eq x y), (le x y); simpl in *;
    try (specialize (Hnan eq_refl eq_refl); discriminate);
    rewrite ?andb_false_r; done.
Qed.

Lemma dominates_aliased_irrelevant same t0 t1 directions :
  (forall j x y, same j = true ->
     normalized (values t0) directions !! j = Some x ->
     normalized (values t1) directions !! j = Some y -> x = y) ->
  _dominates_aliased same t0 t1 directions = _dominates t0 t1 directions.
Proof.
  intros Hs. unfold _dominates, _dominates_aliased.
  repeat (case_match; try done).
  all: pose proof (floats_eq_aliased same 0 _ _ Hs) as E;
    unfold floats_eq in *;
    repeat match goal with H : floats_eq_from _ _ _ _ = _ |- _ =>
      rewrite H in E end; simpl in E; congruence.
Qed.
End Dominance.

(** C6, as stated, fails for a complete trial whose number of values is not
    the number of directions: the call of the trial against itself does not
    return false, it raises ValueError at lines 176-179. Here the trial has
    one value and there are two directions. *)
Lemma dominates_self_mismatch_counterexample :
  let a := mkTrial 0 COMPLETE [Some PyFloat.f1] in
  _dominates a a [MINIMIZE; MINIMIZE] = Raise ValueError
  /\ _dominates a a [MINIMIZE; MINIMIZE] <> Return false.
Proof. split; [reflexivity|discriminate]. Qed.

(** C6, as amended: whatever objects its values share, the call of a trial
    against itself is settled by the trial's shape alone: it raises
    ValueError when the trial is complete and its number of values is not
    the number of directions, and returns false in every other case; so it
    never returns true, and returns false whenever the trial is not complete
    or has one value per direction. And if the call for [a] against [b]
    returns true then the call for [b] against [a] returns false; the
    hypothesis of distinct normalized vectors is not needed for this. *)
Theorem dominates_irreflexive_asymmetric
    (same same' : nat -> bool) (a b : FrozenTrial)
    (directions : list StudyDirection) :
  _dominates_aliased same a a directions
  = (if is_complete (state a)
        && negb (length (values a) =? length directions)%nat
     then Raise ValueError else Return false)
  /\ _dominates_aliased same a a directions <> Return true
  /\ ((is_complete (state a) = true ->
       length (values a) = length directions) ->
      _dominates_aliased same a a directions = Return false)
  /\ (_dominates_aliased same a b directions = Return true ->
      _dominates_aliased same' b a directions = Return false).
Proof.
  assert (Hrefl : (is_complete (state a) = true ->
                   length (values a) = length directions) ->
                  _dominates_aliased same a a directions = Return false).
  { intros Hshape. destruct (is_complete (state a)) eqn:Hc.
    - rewrite dominates_aliased_complete by auto. f_equal.
      destruct (floats_eq _ _ _) eqn:E; [done|]. simpl.
      by apply floats_eq_from_refl_false in E.
    - unfold _dominates_aliased. by rewrite Hc. }
  assert (Hexact : _dominates_aliased same a a directions
                   = (if is_complete (state a)
                         && negb (length (values a) =? length directions)%nat
                      then Raise ValueError else Return false)).
  { destruct (is_complete (state a)) eqn:Hc; simpl.
    - destruct (length (values a) =? length directions)%nat eqn:L; simpl.
      + apply Nat.eqb_eq in L. by apply Hrefl.
      + unfold _dominates_aliased. rewrite Hc, Nat.eqb_refl. simpl.
        by rewrite L.
    - apply Hrefl. congruence. }
  split; [exact Hexact|]. split; [|split; [exact Hrefl|]].
  - rewrite Hexact. by destruct (_ && _).
  - unfold _dominates_aliased.
    destruct (is_complete (state a)) eqn:Ha; simpl; [|discriminate].
    destruct (is_complete (state b)) eqn:Hb; simpl; [|done].
    destruct (length (values a) =? length (values b))%nat eqn:Lab; simpl;
      [|discriminate].
    destruct (length (values a) =? length directions)%nat eqn:La; simpl;
      [|discriminate].
    apply Nat.eqb_eq in Lab, La.
    rewrite (proj2 (Nat.eqb_eq _ _)) by congruence.
    rewrite (proj2 (Nat.eqb_eq _ _)) by congruence. simpl.
    destruct (floats_eq same _ _) eqn:E; [discriminate|].
    intros [= Hle].
    destruct (floats_eq same' _ _) eqn:E'; [done|]. f_equal.
    destruct (all_le (normalized (values b) directions) _) eqn:Hle'; [|done].
    unfold floats_eq in E.
    rewrite all_le_antisym in E; [discriminate| |done..].
    rewrite !normalized_length; congruence.
Qed.

(** C6 at a concrete pair: (1, 1) dominates (1, 2) under two MINIMIZE
    directions. *)
Lemma dominates_irreflexive_asymmetric_witness :
  let a := mkTrial 0 COMPLETE [Some PyFloat.f1; Some PyFloat.f1] in
  let b := mkTrial 1 COMPLETE [Some PyFloat.f1; Some PyFloat.f2] in
  _dominates a a [MINIMIZE; MINIMIZE] = Return false
  /\ _dominates b a [MINIMIZE; MINIMIZE] = Return false.
Proof.
  intros a b.
  pose proof (dominates_irreflexive_asymmetric (fun _ => false) (fun _ => false)
                a b [MINIMIZE; MINIMIZE]) as (_ & _ & Hrefl & Hasym).
  split.
  - apply Hrefl. reflexivity.
  - apply Hasym. reflexivity.
Defined.

(** ** Arrays, masks and the domination map *)

Section Arrays.

(** The number of true items of a vector. *)
Fixpoint count_true (v : list bool) : nat :=
  match v with
  | [] => 0
  | b :: v' => (if b then 1 else 0) + count_true v'
  end.

(** The number of indices below [n] that satisfy [f]. *)
Definition count_if (f : nat -> bool) (n : nat) : nat :=
  count_true (map f (seq 0 n)).

Lemma count_true_app v w : count_true (v ++ w) = (count_true v + count_true w)%nat.
Proof. induction v as [|[] v IH]; simpl; lia. Qed.

Lemma count_true_le v : (count_true v <= length v)%nat.
Proof. induction v as [|[] v IH]; simpl; lia. Qed.

Lemma count_true_zero v : count_true v = 0%nat <-> forall b, b ∈ v -> b = false.
Proof.
  induction v as [|b v IH]; simpl.
  - split; [intros _ b Hb; inversion Hb|done].
  - split.
    + intros H x Hx. destruct b; [lia|]. apply elem_of_cons in Hx as [->|Hx]; [done|].
      apply IH; [lia|done].
    + intros H. rewrite (H b) by left. simpl. apply IH. intros x Hx. apply H. by right.
Qed.

Lemma count_true_pos v : (0 < count_true v)%nat <-> true ∈ v.
Proof.
  induction v as [|b v IH]; simpl.
  - split; [lia|intros H; inversion H].
  - rewrite elem_of_cons. destruct b; simpl; [split; [auto|lia]|].
    rewrite IH. split; [by right|]. by intros [|].
Qed.

Lemma count_true_map_split {A} (f g : A -> bool) l :
  count_true (map f l)
  = (count_true (map (fun x => f x && g x) l)
     + count_true (map (fun x => f x && negb (g x)) l))%nat.
Proof. induction l as [|x l IH]; simpl; [done|]. destruct (f x), (g x); simpl; lia. Qed.

Lemma count_true_map_ext {A} (f g : A -> bool) l :
  (forall x, x ∈ l -> f x = g x) -> count_true (map f l) = count_true (map g l).
Proof.
  induction l as [|x l IH]; simpl; [done|]. intros H.
  rewrite (H x) by left. rewrite IH; [done|]. intros y Hy. apply H. by right.
Qed.

Lemma count_true_map_le {A} (f g : A -> bool) l :
  (forall x, x ∈ l -> f x = true -> g x = true) ->
  (count_true (map f l) <= count_true (map g l))%nat.
Proof.
  induction l as [|x l IH]; simpl; [done|]. intros H.
  assert (count_true (map f l) <= count_true (map g l))%nat.
  { apply IH. intros y Hy. apply H. by right. }
  specialize (H x (list_elem_of_here _ _)).
  destruct (f x), (g x); simpl; try lia; by specialize (H eq_refl).
Qed.

Lemma count_true_map_lt {A} (f g : A -> bool) l x :
  (forall y, y ∈ l -> f y = true -> g y = true) ->
  x ∈ l -> f x = false -> g x = true ->
  (count_true (map f l) < count_true (map g l))%nat.
Proof.
  induction l as [|y l IH]; simpl; intros H Hx Hf Hg; [inversion Hx|].
  assert (Hl : (count_true (map f l) <= count_true (map g l))%nat).
  { apply count_true_map_le. intros z Hz. apply H. by right. }
  apply elem_of_cons in Hx as [<-|Hx].
  - rewrite Hf, Hg. simpl. lia.
  - assert (count_true (map f l) < count_true (map g l))%nat.
    { apply IH; [|done..]. intros z Hz. apply H. by right. }
    pose proof (H y (list_elem_of_here _ _)) as Hy.
    destruct (f y), (g y); simpl; try lia; by specialize (Hy eq_refl).
Qed.

Lemma count_if_zero f n :
  count_if f n = 0%nat <-> forall i, (i < n)%nat -> f i = false.
Proof.
  unfold count_if. rewrite count_true_zero. split.
  - intros H i Hi. apply H. apply list_elem_of_fmap. exists i. split; [done|].
    apply elem_of_seq. lia.
  - intros H b [i [-> Hi]]%list_elem_of_fmap. apply H. apply elem_of_seq in Hi. lia.
Qed.

Lemma count_if_pos f n :
  (0 < count_if f n)%nat <-> exists i, (i < n)%nat /\ f i = true.
Proof.
  unfold count_if. rewrite count_true_pos, list_elem_of_fmap. split.
  - intros [i [E Hi]]. exists i. apply elem_of_seq in Hi. split; [lia|done].
  - intros [i [Hi E]]. exists i. split; [done|]. apply elem_of_seq. lia.
Qed.

Lemma count_if_ext f g n :
  (forall i, (i < n)%nat -> f i = g i) -> count_if f n = count_if g n.
Proof.
  intros H. apply count_true_map_ext. intros i Hi. apply H.
  apply elem_of_seq in Hi. lia.
Qed.

Lemma count_if_le_n f n : (count_if f n <= n)%nat.
Proof.
  unfold count_if. etrans; [apply count_true_le|].
  by rewrite length_map, length_seq.
Qed.

(** [np.nonzero] *)

Lemma elem_of_nonzero_from s v i :
  i ∈ nonzero_from s v <-> (s <= i)%nat /\ v !! (i - s)%nat = Some true.
Proof.
  revert s. induction v as [|b v IH]; intros s; simpl.
  - split; [intros H; inversion H|intros [_ H]; done].
  - assert (i ∈ nonzero_from (S s) v <->
            (s < i)%nat /\ (b :: v) !! (i - s)%nat = Some true) as IH'.
    { rewrite IH. split.
      - intros [Hs Hv]. split; [lia|].
        replace (i - s)%nat with (S (i - S s)) by lia. done.
      - intros [Hs Hv]. split; [lia|].
        replace (i - s)%nat with (S (i - S s)) in Hv by lia. done. }
    destruct b.
    + rewrite elem_of_cons, IH'. split.
      * intros [->|[Hs Hv]]; [|split; [lia|done]].
        split; [lia|]. by rewrite Nat.sub_diag.
      * intros [Hs Hv]. destruct (decide (i = s)) as [->|]; [by left|].
        right. split; [lia|done].
    + rewrite IH'. split.
      * intros [Hs Hv]. split; [lia|done].
      * intros [Hs Hv]. destruct (decide (i = s)) as [->|].
        -- by rewrite Nat.sub_diag in Hv.
        -- split; [lia|done].
Qed.

Lemma elem_of_nonzero v i : i ∈ nonzero v <-> v !! i = Some true.
Proof.
  unfold nonzero. rewrite elem_of_nonzero_from, Nat.sub_0_r.
  split; [by intros [_ H]|intros H; split; [lia|done]].
Qed.

Lemma NoDup_nonzero_from s v : NoDup (nonzero_from s v).
Proof.
  revert s. induction v as [|b v IH]; intros s; simpl; [constructor|].
  destruct b; [|apply IH]. constructor; [|apply IH].
  rewrite elem_of_nonzero_from. lia.
Qed.

Lemma NoDup_nonzero v : NoDup (nonzero v).
Proof. apply NoDup_nonzero_from. Qed.

Lemma length_nonzero_from s v : length (nonzero_from s v) = count_true v.
Proof. revert s. induction v as [|[] v IH]; intros s; simpl; by rewrite ?IH. Qed.

Lemma length_nonzero v : length (nonzero v) = count_true v.
Proof. apply length_nonzero_from. Qed.

Lemma count_true_map_nonzero_from (h : nat -> bool) s v :
  count_true (map h (nonzero_from s v))
  = count_true (imap (fun i b => b && h (s + i)%nat) v).
Proof.
  revert s. induction v as [|b v IH]; intros s; simpl; [done|].
  rewrite Nat.add_0_r.
  assert (count_true (map h (nonzero_from (S s) v))
          = count_true (imap ((fun i b => b && h (s + i)%nat) ∘ S) v)) as E.
  { rewrite IH. f_equal. apply imap_ext. intros i x _. simpl.
    by rewrite Nat.add_succ_r. }
  destruct b; simpl; by rewrite E.
Qed.
End Arrays.

Section ArrayUpdates.

Lemma length_assign_at idxs x a : length (assign_at idxs x a) = length a.
Proof.
  unfold assign_at. revert a. induction idxs as [|j idxs IH]; intros a; simpl; [done|].
  by rewrite IH, length_insert.
Qed.

Lemma lookup_assign_at idxs x a i :
  assign_at idxs x a !! i
  = (fun y => if bool_decide (i ∈ idxs) then x else y) <$> a !! i.
Proof.
  unfold assign_at. revert a. induction idxs as [|j idxs IH]; intros a; simpl.
  - by destruct (a !! i).
  - rewrite IH. destruct (decide (i = j)) as [->|Hne].
    + rewrite (bool_decide_eq_true_2 (j ∈ j :: idxs)) by left.
      destruct (a !! j) eqn:E.
      * rewrite list_lookup_insert_eq by (by eapply lookup_lt_Some).
        simpl. by case_bool_decide.
      * rewrite list_insert_ge by (by apply lookup_ge_None). by rewrite E.
    + rewrite list_lookup_insert_ne by done.
      destruct (a !! i); simpl; [|done]. f_equal.
      rewrite (bool_decide_ext (i ∈ j :: idxs) (i ∈ idxs)); [done|].
      rewrite elem_of_cons. split; [by intros [|]|by right].
Qed.

Lemma length_decrement_at idxs a : length (decrement_at idxs a) = length a.
Proof.
  unfold decrement_at. generalize a at 2 3 as b.
  induction idxs as [|j idxs IH]; intros b; simpl; [done|].
  by rewrite IH, length_insert.
Qed.

Lemma lookup_decrement_at idxs a i :
  decrement_at idxs a !! i
  = (fun y => if bool_decide (i ∈ idxs) then y - 1 else y) <$> a !! i.
Proof.
  unfold decrement_at.
  assert (forall b, length b = length a ->
     foldl (fun acc j => <[j := default 0 (a !! j) - 1]> acc) b idxs !! i
     = if bool_decide (i ∈ idxs) then (fun y => y - 1) <$> a !! i
       else b !! i) as H.
  { induction idxs as [|j idxs IH]; intros b Hb; simpl; [done|].
    rewrite IH by (by rewrite length_insert).
    destruct (decide (i ∈ idxs)) as [Hin|Hin].
    - rewrite !bool_decide_eq_true_2; [done|by right|done].
    - rewrite (bool_decide_eq_false_2 (i ∈ idxs)) by done.
      destruct (decide (i = j)) as [->|Hne].
      + rewrite (bool_decide_eq_true_2 (j ∈ j :: idxs)) by left.
        destruct (a !! j) eqn:E; simpl.
        * rewrite list_lookup_insert_eq; [done|].
          rewrite Hb. by eapply lookup_lt_Some.
        * apply lookup_ge_None in E. rewrite list_insert_ge by lia.
          apply lookup_ge_None. lia.
      + rewrite list_lookup_insert_ne by done.
        rewrite bool_decide_eq_false_2; [done|].
        rewrite elem_of_cons. intros [?|?]; congruence. }
  rewrite H by done. case_bool_decide; by destruct (a !! i).
Qed.

Lemma length_decrement_all (g : nat -> list nat) js a :
  length (foldl (fun dc j => decrement_at (g j) dc) a js) = length a.
Proof.
  revert a. induction js as [|j js IH]; intros a; simpl; [done|].
  by rewrite IH, length_decrement_at.
Qed.

Lemma lookup_decrement_all (g : nat -> list nat) js a i :
  foldl (fun dc j => decrement_at (g j) dc) a js !! i
  = (fun y => y - Z.of_nat (count_true (map (fun j => bool_decide (i ∈ g j)) js)))
      <$> a !! i.
Proof.
  revert a. induction js as [|j js IH]; intros a; simpl.
  - destruct (a !! i); simpl; [|done]. f_equal. lia.
  - rewrite IH, lookup_decrement_at.
    destruct (a !! i); simpl; [|done]. f_equal.
    case_bool_decide; lia.
Qed.

(** The domination map *)

Lemma map_get_build_from m pairs j :
  map_get (foldl (fun m p => <[p.2 := default [] (m !! p.2) ++ [p.1]]> m) m pairs) j
  = map_get m j ++ (filter (fun p => p.2 = j) pairs).*1.
Proof.
  revert m. induction pairs as [|p pairs IH]; intros m; simpl.
  - by rewrite app_nil_r.
  - rewrite IH. unfold map_get at 1. rewrite filter_cons.
    destruct (decide (p.2 = j)) as [<-|Hne].
    + rewrite lookup_insert_eq. simpl. by rewrite <- app_assoc.
    + rewrite lookup_insert_ne by done. done.
Qed.

Lemma map_get_build pairs j :
  map_get (build_domination_map pairs) j = (filter (fun p => p.2 = j) pairs).*1.
Proof.
  unfold build_domination_map. rewrite map_get_build_from.
  unfold map_get. by rewrite lookup_empty.
Qed.

Lemma elem_of_concat {A} (x : A) (ls : list (list A)) :
  x ∈ concat ls <-> exists l, l ∈ ls /\ x ∈ l.
Proof.
  induction ls as [|l ls IH]; simpl.
  - split; [intros H; inversion H|intros (l & H & _); inversion H].
  - rewrite elem_of_app, IH. split.
    + intros [H|(l' & H1 & H2)]; [exists l; split; [left|done]|].
      exists l'. split; [by right|done].
    + intros (l' & [->|H1]%elem_of_cons & H2); [by left|]. right. by exists l'.
Qed.

Lemma elem_of_nonzero_pairs mat i j :
  (i, j) ∈ nonzero_pairs mat <-> exists row, mat !! i = Some row /\ row !! j = Some true.
Proof.
  unfold nonzero_pairs. rewrite elem_of_concat. split.
  - intros (l & Hl & Hij). apply elem_of_lookup_imap in Hl as (i' & row & -> & Hrow).
    apply list_elem_of_fmap in Hij as (j' & [= -> ->] & Hj).
    exists row. split; [done|]. by apply elem_of_nonzero.
  - intros (row & Hrow & Hj). exists (map (fun j => (i, j)) (nonzero row)). split.
    + apply elem_of_lookup_imap. by exists i, row.
    + apply list_elem_of_fmap. exists j. split; [done|]. by apply elem_of_nonzero.
Qed.

Lemma elem_of_map_get_build mat i j :
  i ∈ map_get (build_domination_map (nonzero_pairs mat)) j
  <-> exists row, mat !! i = Some row /\ row !! j = Some true.
Proof.
  rewrite map_get_build, <- elem_of_nonzero_pairs, list_elem_of_fmap. split.
  - intros ([i' j'] & -> & [Hj Hp]%list_elem_of_filter). simpl in *. by subst.
  - intros H. exists (i, j). split; [done|]. by apply list_elem_of_filter.
Qed.
End ArrayUpdates.

Section CountIndices.

Lemma imap_as_map_seq {A B} (g : nat -> A -> B) (d : B) (v : list A) :
  imap g v
  = map (fun i => match v !! i with Some x => g i x | None => d end)
        (seq 0 (length v)).
Proof.
  apply list_eq. intros i.
  rewrite list_lookup_imap, list_lookup_fmap.
  destruct (v !! i) eqn:E; simpl.
  - rewrite lookup_seq_lt by (by eapply lookup_lt_Some). simpl. by rewrite E.
  - rewrite lookup_seq_ge; [done|]. by apply lookup_ge_None.
Qed.

Lemma count_true_imap {A} (g : nat -> A -> bool) (v : list A) :
  count_true (imap g v)
  = count_if (fun i => match v !! i with Some x => g i x | None => false end)
             (length v).
Proof. unfold count_if. by rewrite <- imap_as_map_seq. Qed.

Lemma count_true_as_count_if (v : list bool) :
  count_true v = count_if (fun i => default false (v !! i)) (length v).
Proof.
  trans (count_true (imap (fun _ b => b) v)).
  - f_equal. induction v as [|b v IH]; [done|].
    rewrite imap_cons. by f_equal.
  - rewrite count_true_imap. apply count_if_ext. intros i _.
    by destruct (v !! i).
Qed.

Lemma count_true_map_nonzero (h : nat -> bool) (v : list bool) :
  count_true (map h (nonzero v))
  = count_if (fun i => default false (v !! i) && h i) (length v).
Proof.
  unfold nonzero. rewrite count_true_map_nonzero_from, count_true_imap.
  apply count_if_ext. intros i _. by destruct (v !! i).
Qed.
End CountIndices.
(** ** One pass of the front-peeling loop *)

(** [dom ov i j]: row [j] dominates row [i], the entry [domination_mat[i, j]]. *)
Definition dom (ov : matrix) (i j : nat) : bool :=
  match ov !! i, ov !! j with
  | Some oi, Some oj => dominated_by oi oj
  | _, _ => false
  end.

Definition domination_map_of (ov : matrix) : gmap nat (list nat) :=
  build_domination_map (nonzero_pairs (domination_matrix ov)).

(** [dominated_count[i]] and [ranks[i]] of a loop state. *)
Definition cnt (st : loop_state) (i : nat) : Z := default 0 (dominated_count st !! i).
Definition rk (st : loop_state) (i : nat) : Z := default (-1) (ranks st !! i).

Definition sized (n : nat) (st : loop_state) : Prop :=
  length (ranks st) = n /\ length (dominated_count st) = n.

Section Step.
Variable ov : matrix.
Abbreviation n := (length ov).
Abbreviation step := (loop_body (domination_map_of ov)).

Lemma domination_matrix_entry i j :
  (exists row, domination_matrix ov !! i = Some row /\ row !! j = Some true)
  <-> dom ov i j = true.
Proof.
  unfold dom, domination_matrix. rewrite list_lookup_fmap. split.
  - intros (row & Hrow & Hj). destruct (ov !! i) as [oi|]; simplify_eq/=.
    rewrite list_lookup_fmap in Hj.
    by destruct (ov !! j) as [oj|]; simplify_eq/=.
  - destruct (ov !! i) as [oi|]; [|done].
    destruct (ov !! j) as [oj|] eqn:Ej; [|done]. intros H.
    eexists. split; [done|]. rewrite list_lookup_fmap, Ej. simpl. by f_equal.
Qed.

Lemma elem_of_domination_map i j :
  i ∈ map_get (domination_map_of ov) j <-> dom ov i j = true.
Proof.
  unfold domination_map_of.
  by rewrite elem_of_map_get_build, domination_matrix_entry.
Qed.

Lemma dom_lt i j : dom ov i j = true -> (i < n)%nat /\ (j < n)%nat.
Proof.
  unfold dom. destruct (ov !! i) eqn:Ei; [|done].
  destruct (ov !! j) eqn:Ej; [|done].
  intros _. split; by eapply lookup_lt_Some.
Qed.

Lemma row_sums_lookup i :
  (i < n)%nat ->
  row_sums (domination_matrix ov) !! i = Some (Z.of_nat (count_if (dom ov i) n)).
Proof.
  intros Hi. unfold row_sums, domination_matrix.
  rewrite !list_lookup_fmap.
  destruct (lookup_lt_is_Some_2 ov i Hi) as [oi Ei]. rewrite Ei. simpl.
  f_equal. f_equal.
  rewrite length_nonzero, count_true_as_count_if, length_map.
  apply count_if_ext. intros j Hj.
  unfold dom. rewrite Ei, list_lookup_fmap.
  by destruct (ov !! j).
Qed.

Lemma initial_sized : sized n (initial_state ov).
Proof.
  split; simpl; [by rewrite length_replicate|].
  unfold row_sums, domination_matrix. by rewrite !length_map.
Qed.

Lemma initial_cnt i :
  (i < n)%nat -> cnt (initial_state ov) i = Z.of_nat (count_if (dom ov i) n).
Proof. intros Hi. unfold cnt. simpl. by rewrite row_sums_lookup. Qed.

Lemma initial_rk i : rk (initial_state ov) i = -1.
Proof.
  unfold rk. simpl. destruct (replicate n (-1) !! i) eqn:E; [|done].
  by apply lookup_replicate in E as [-> _].
Qed.

Definition front (st : loop_state) : list nat :=
  nonzero (map (Z.eqb 0) (dominated_count st)).

Lemma elem_of_front st i :
  i ∈ front st <-> (i < length (dominated_count st))%nat /\ cnt st i = 0.
Proof.
  unfold front, cnt. rewrite elem_of_nonzero, list_lookup_fmap.
  destruct (dominated_count st !! i) as [c|] eqn:E; simpl.
  - apply lookup_lt_Some in E as Hlt. split.
    + intros [= H]. split; [done|]. symmetry. by apply Z.eqb_eq.
    + intros [_ ->]. done.
  - apply lookup_ge_None in E. split; [done|]. lia.
Qed.

Lemma front_decide st i :
  (i < length (dominated_count st))%nat ->
  bool_decide (i ∈ front st) = (cnt st i =? 0).
Proof.
  intros Hi. destruct (cnt st i =? 0) eqn:E.
  - apply bool_decide_eq_true_2, elem_of_front. split; [done|]. by apply Z.eqb_eq.
  - apply bool_decide_eq_false_2. rewrite elem_of_front.
    apply Z.eqb_neq in E. tauto.
Qed.

Lemma length_front st :
  length (front st)
  = count_if (fun i => cnt st i =? 0) (length (dominated_count st)).
Proof.
  unfold front. rewrite length_nonzero, count_true_as_count_if, length_map.
  apply count_if_ext. intros i Hi. unfold cnt.
  rewrite list_lookup_fmap.
  destruct (lookup_lt_is_Some_2 _ i Hi) as [c ->]. by destruct c.
Qed.

Lemma step_sized st : sized n st -> sized n (step st).
Proof.
  intros [Hr Hc]. split; simpl.
  - by rewrite length_assign_at.
  - by rewrite length_decrement_all, length_assign_at.
Qed.

Lemma step_rank st : rank (step st) = rank st + 1.
Proof. done. Qed.

Lemma step_ranked_idx_num st :
  sized n st ->
  ranked_idx_num (step st)
  = ranked_idx_num st + Z.of_nat (count_if (fun i => cnt st i =? 0) n).
Proof. intros [_ Hc]. simpl. fold (front st). by rewrite length_front, Hc. Qed.

Lemma step_rk st i :
  sized n st -> (i < n)%nat ->
  rk (step st) i = if cnt st i =? 0 then rank st + 1 else rk st i.
Proof.
  intros [Hr Hc] Hi. unfold rk at 1. simpl. fold (front st).
  rewrite lookup_assign_at, front_decide by lia.
  unfold rk. destruct (ranks st !! i) eqn:E; [done|].
  apply lookup_ge_None in E. lia.
Qed.

Lemma step_cnt st i :
  sized n st -> (i < n)%nat ->
  cnt (step st) i
  = (if cnt st i =? 0 then -1 else cnt st i)
    - Z.of_nat (count_if (fun j => (cnt st j =? 0) && dom ov i j) n).
Proof.
  intros [Hr Hc] Hi. unfold cnt at 1. simpl. fold (front st).
  rewrite lookup_decrement_all, lookup_assign_at, front_decide by lia.
  destruct (dominated_count st !! i) as [c|] eqn:E.
  2:{ apply lookup_ge_None in E. lia. }
  simpl. f_equal.
  { unfold cnt. by rewrite E. }
  f_equal. unfold front. rewrite count_true_map_nonzero, length_map, Hc.
  apply count_if_ext. intros j Hj. rewrite list_lookup_fmap. unfold cnt.
  destruct (lookup_lt_is_Some_2 (dominated_count st) j) as [c' ->]; [lia|].
  cbn [fmap option_fmap option_map default]. rewrite (Z.eqb_sym 0 c'). f_equal.
  destruct (dom ov i j) eqn:D.
  - by apply bool_decide_eq_true_2, elem_of_domination_map.
  - apply bool_decide_eq_false_2. rewrite elem_of_domination_map. congruence.
Qed.
End Step.

(** ** The invariant of the loop *)

(** Row [i] has no rank yet. *)
Definition unranked (st : loop_state) (i : nat) : bool := rk st i =? -1.

Record loop_inv (ov : matrix) (st : loop_state) : Prop := {
  inv_sized : sized (length ov) st;
  inv_rank : -1 <= rank st;
  (* an unranked row counts the unranked rows that dominate it *)
  inv_unranked : forall i, (i < length ov)%nat -> rk st i = -1 ->
    cnt st i = Z.of_nat (count_if (fun j => unranked st j && dom ov i j) (length ov));
  (* a ranked row is consumed and its rank is one of those given so far *)
  inv_ranked : forall i, (i < length ov)%nat -> rk st i <> -1 ->
    cnt st i = -1 /\ 0 <= rk st i <= rank st;
  (* the rows that dominate a ranked row are ranked *)
  inv_closed : forall i j, (i < length ov)%nat -> (j < length ov)%nat ->
    rk st i <> -1 -> rk st j = -1 -> dom ov i j = false;
  inv_num : ranked_idx_num st
    = Z.of_nat (count_if (fun i => negb (unranked st i)) (length ov))
}.

Section Invariant.
Variable ov : matrix.
Abbreviation n := (length ov).
Abbreviation step := (loop_body (domination_map_of ov)).

Lemma loop_inv_initial : loop_inv ov (initial_state ov).
Proof.
  split.
  - apply initial_sized.
  - simpl. lia.
  - intros i Hi _. rewrite initial_cnt by done. f_equal.
    apply count_if_ext. intros j _. unfold unranked. by rewrite initial_rk.
  - intros i Hi H. by rewrite initial_rk in H.
  - intros i j _ _ H. by rewrite initial_rk in H.
  - simpl. rewrite (proj2 (count_if_zero _ _)); [done|].
    intros i _. unfold unranked. by rewrite initial_rk.
Qed.

Lemma front_unranked st i :
  loop_inv ov st -> (i < n)%nat -> cnt st i = 0 -> rk st i = -1.
Proof.
  intros Hinv Hi Hc. destruct (decide (rk st i = -1)) as [|Hne]; [done|].
  destruct (inv_ranked _ _ Hinv i Hi Hne). lia.
Qed.

Lemma front_not_dominated st i j :
  loop_inv ov st -> (i < n)%nat -> (j < n)%nat ->
  cnt st i = 0 -> rk st j = -1 -> dom ov i j = false.
Proof.
  intros Hinv Hi Hj Hc Hu.
  pose proof (front_unranked _ _ Hinv Hi Hc) as Hui.
  pose proof (inv_unranked _ _ Hinv i Hi Hui) as E. rewrite Hc in E.
  assert (count_if (fun j => unranked st j && dom ov i j) n = 0%nat) as Z0 by lia.
  pose proof (proj1 (count_if_zero _ _) Z0 j Hj) as Hj0. simpl in Hj0.
  unfold unranked in Hj0. rewrite Hu in Hj0. done.
Qed.

(** No row of the current front is dominated by a row of the front, and no
    ranked row by one: the decrements touch unranked rows only. *)
Lemma front_decrement_zero st i :
  loop_inv ov st -> (i < n)%nat -> (cnt st i = 0 \/ rk st i <> -1) ->
  count_if (fun j => (cnt st j =? 0) && dom ov i j) n = 0%nat.
Proof.
  intros Hinv Hi Hcase. apply count_if_zero. intros j Hj.
  destruct (cnt st j =? 0) eqn:Fj; [|done]. simpl.
  apply Z.eqb_eq in Fj. pose proof (front_unranked _ _ Hinv Hj Fj) as Uj.
  destruct Hcase as [Hc|Hr].
  - by eapply front_not_dominated.
  - by eapply inv_closed.
Qed.

Lemma step_unranked st i :
  loop_inv ov st -> (i < n)%nat ->
  unranked (step st) i = unranked st i && negb (cnt st i =? 0).
Proof.
  intros Hinv Hi. unfold unranked.
  rewrite step_rk by (done || apply Hinv).
  destruct (cnt st i =? 0) eqn:F.
  - rewrite andb_false_r. apply Z.eqb_neq. pose proof (inv_rank _ _ Hinv). lia.
  - by rewrite andb_true_r.
Qed.

Lemma loop_inv_step st : loop_inv ov st -> loop_inv ov (step st).
Proof.
  intros Hinv. pose proof (inv_sized _ _ Hinv) as Hs.
  pose proof (inv_rank _ _ Hinv) as Hr.
  split.
  - by apply step_sized.
  - rewrite step_rank. lia.
  - intros i Hi Hu.
    assert (unranked (step st) i = true) as Hu' by by apply Z.eqb_eq.
    rewrite step_unranked in Hu' by done.
    apply andb_true_iff in Hu' as [Ui Fi].
    apply Z.eqb_eq in Ui. apply negb_true_iff in Fi.
    rewrite step_cnt, Fi by done.
    rewrite (inv_unranked _ _ Hinv i Hi Ui).
    unfold count_if.
    rewrite (count_true_map_split (fun j => unranked st j && dom ov i j)
               (fun j => cnt st j =? 0)).
    rewrite (count_true_map_ext (fun j => (cnt st j =? 0) && dom ov i j)
               (fun j => unranked st j && dom ov i j && (cnt st j =? 0))).
    2:{ intros j Hj%elem_of_seq. destruct (cnt st j =? 0) eqn:Fj.
        - apply Z.eqb_eq in Fj. unfold unranked.
          rewrite (front_unranked st j) by (done || lia).
          simpl. by rewrite andb_true_r.
        - by rewrite andb_false_r. }
    rewrite (count_true_map_ext (fun j => unranked (step st) j && dom ov i j)
               (fun j => unranked st j && dom ov i j && negb (cnt st j =? 0))).
    2:{ intros j Hj%elem_of_seq. rewrite step_unranked by (done || lia).
        by destruct (unranked st j), (cnt st j =? 0), (dom ov i j). }
    lia.
  - intros i Hi Hne. rewrite step_rk in Hne |- * by done.
    rewrite step_cnt, step_rank by done.
    destruct (cnt st i =? 0) eqn:Fi.
    + apply Z.eqb_eq in Fi. rewrite front_decrement_zero by auto. lia.
    + rewrite front_decrement_zero by auto.
      destruct (inv_ranked _ _ Hinv i Hi Hne). lia.
  - intros i j Hi Hj Hne Hu.
    assert (unranked (step st) j = true) as Hu' by by apply Z.eqb_eq.
    rewrite step_unranked in Hu' by done.
    apply andb_true_iff in Hu' as [Uj _]. apply Z.eqb_eq in Uj.
    rewrite step_rk in Hne by done.
    destruct (cnt st i =? 0) eqn:Fi.
    + apply Z.eqb_eq in Fi. by eapply front_not_dominated.
    + by eapply inv_closed.
  - rewrite step_ranked_idx_num, (inv_num _ _ Hinv) by done.
    unfold count_if.
    rewrite (count_true_map_split (fun i => negb (unranked (step st) i))
               (fun j => cnt st j =? 0)).
    rewrite (count_true_map_ext
               (fun i => negb (unranked (step st) i) && (cnt st i =? 0))
               (fun i => cnt st i =? 0)).
    2:{ intros i Hi%elem_of_seq. rewrite step_unranked by (done || lia).
        by destruct (unranked st i), (cnt st i =? 0). }
    rewrite (count_true_map_ext
               (fun i => negb (unranked (step st) i) && negb (cnt st i =? 0))
               (fun i => negb (unranked st i))).
    2:{ intros i Hi%elem_of_seq. rewrite step_unranked by (done || lia).
        destruct (cnt st i =? 0) eqn:Fi.
        - apply Z.eqb_eq in Fi. unfold unranked.
          rewrite (front_unranked st i) by (done || lia). done.
        - by destruct (unranked st i). }
    lia.
Qed.
End Invariant.

(** ** Runs of the loop *)

Section Runs.
Variable ov : matrix.
Abbreviation n := (length ov).
Abbreviation step := (loop_body (domination_map_of ov)).

(** The state after [k] passes. *)
Definition passes (k : nat) (st : loop_state) : loop_state :=
  Nat.iter k step st.

Lemma passes_S k st : passes (S k) st = passes k (step st).
Proof. unfold passes. by rewrite Nat.iter_succ_r. Qed.

Lemma passes_add j k st : passes (j + k) st = passes j (passes k st).
Proof. unfold passes. apply Nat.iter_add. Qed.

Lemma passes_rank k st : rank (passes k st) = rank st + Z.of_nat k.
Proof.
  induction k as [|k IH]; simpl; [lia|].
  change (Nat.iter k step st) with (passes k st). rewrite IH. lia.
Qed.

Lemma loop_inv_passes k st : loop_inv ov st -> loop_inv ov (passes k st).
Proof. intros H. induction k as [|k IH]; simpl; [done|]. by apply loop_inv_step. Qed.

(** A run that returns made some number [k] of passes: the loop condition
    held before each of them and fails after the last. *)
Lemma while_loop_Return fuel n_below st st' :
  while_loop fuel (domination_map_of ov) n_below st = Return st' ->
  exists k, (k <= fuel)%nat /\ st' = passes k st
    /\ n_below <= ranked_idx_num st'
    /\ forall k', (k' < k)%nat -> ranked_idx_num (passes k' st) < n_below.
Proof.
  revert st. induction fuel as [|fuel IH]; intros st; simpl.
  - destruct (ranked_idx_num st <? n_below) eqn:E; [done|].
    intros [= <-]. exists 0%nat. apply Z.ltb_ge in E.
    repeat split; [lia|done|lia].
  - destruct (ranked_idx_num st <? n_below) eqn:E.
    + intros (k & Hk & -> & Hstop & Hgo)%IH. exists (S k).
      repeat split; [lia|by rewrite passes_S|done|].
      intros [|k'] Hk'; [by apply Z.ltb_lt|].
      rewrite passes_S. apply Hgo. lia.
    + intros [= <-]. exists 0%nat. apply Z.ltb_ge in E.
      repeat split; [lia|done|lia].
Qed.

Lemma while_loop_passes fuel n_below st k :
  (k <= fuel)%nat ->
  (forall k', (k' < k)%nat -> ranked_idx_num (passes k' st) < n_below) ->
  n_below <= ranked_idx_num (passes k st) ->
  while_loop fuel (domination_map_of ov) n_below st = Return (passes k st).
Proof.
  revert st k. induction fuel as [|fuel IH]; intros st k Hk Hgo Hstop.
  - assert (k = 0%nat) as -> by lia. simpl in *.
    by rewrite (proj2 (Z.ltb_ge _ _) Hstop).
  - destruct k as [|k].
    + simpl in *. by rewrite (proj2 (Z.ltb_ge _ _) Hstop).
    + pose proof (Hgo 0%nat ltac:(lia)) as H0. simpl in H0.
      cbn [while_loop]. rewrite (proj2 (Z.ltb_lt _ _) H0).
      rewrite passes_S in Hstop |- *. apply IH; [lia| |done].
      intros k' Hk'. rewrite <- passes_S. apply Hgo. lia.
Qed.

Lemma while_loop_not_Raise fuel n_below st e :
  while_loop fuel (domination_map_of ov) n_below st <> Raise e.
Proof.
  revert st. induction fuel as [|fuel IH]; intros st; simpl;
    destruct (_ <? _); try done.
Qed.

(** Ranks once given stay, and later ranks are larger. *)
Lemma passes_rk_ranked k st i :
  loop_inv ov st -> (i < n)%nat -> rk st i <> -1 ->
  rk (passes k st) i = rk st i.
Proof.
  intros Hinv Hi Hne. induction k as [|k IH]; simpl; [done|].
  change (Nat.iter k step st) with (passes k st).
  pose proof (loop_inv_passes k st Hinv) as Hk.
  rewrite step_rk by (done || apply Hk).
  destruct (inv_ranked _ _ Hk i Hi) as [-> _]; [congruence|]. simpl. done.
Qed.

Lemma passes_rk_unranked k st i :
  loop_inv ov st -> (i < n)%nat -> rk st i = -1 ->
  rk (passes k st) i = -1 \/ rank st < rk (passes k st) i.
Proof.
  intros Hinv Hi Hu. induction k as [|k IH]; simpl; [by left|].
  change (Nat.iter k step st) with (passes k st).
  pose proof (loop_inv_passes k st Hinv) as Hk.
  rewrite step_rk by (done || apply Hk).
  destruct (cnt (passes k st) i =? 0); [|done].
  right. rewrite passes_rank. lia.
Qed.
End Runs.

(** ** Domination between rows is a strict partial order *)

Section RowOrder.
Import PyFloat PyFloatFacts.

Lemma dominated_by_cons x a y b :
  dominated_by (x :: a) (y :: b)
  = ge x y && forallb (fun p => ge p.1 p.2) (zip a b)
    && (gt x y || existsb (fun p => gt p.1 p.2) (zip a b)).
Proof. reflexivity. Qed.

Lemma all_ge_trans a b c :
  length a = length b -> length b = length c ->
  forallb (fun p => ge p.1 p.2) (zip a b) = true ->
  forallb (fun p => ge p.1 p.2) (zip b c) = true ->
  forallb (fun p => ge p.1 p.2) (zip a c) = true.
Proof.
  revert b c. induction a as [|x a IH]; intros [|y b] [|z c]; simpl; try done.
  intros [= Hab] [= Hbc] [Hxy H1]%andb_true_iff [Hyz H2]%andb_true_iff.
  apply andb_true_iff. split; [|by eapply IH].
  unfold ge in *. by eapply le_trans.
Qed.

Lemma any_gt_all_ge a b c :
  length a = length b -> length b = length c ->
  existsb (fun p => gt p.1 p.2) (zip a b) = true ->
  forallb (fun p => ge p.1 p.2) (zip b c) = true ->
  existsb (fun p => gt p.1 p.2) (zip a c) = true.
Proof.
  revert b c. induction a as [|x a IH]; intros [|y b] [|z c]; simpl; try done.
  intros [= Hab] [= Hbc] [Hxy|H1]%orb_true_iff [Hyz H2]%andb_true_iff;
    apply orb_true_iff.
  - left. unfold gt, ge in *. by eapply le_lt_trans.
  - right. by eapply IH.
Qed.

Lemma dominated_by_trans a b c :
  length a = length b -> length b = length c ->
  dominated_by a b = true -> dominated_by b c = true ->
  dominated_by a c = true.
Proof.
  unfold dominated_by.
  intros Hab Hbc [A1 A2]%andb_true_iff [B1 B2]%andb_true_iff.
  apply andb_true_iff. split.
  - by eapply all_ge_trans.
  - by eapply any_gt_all_ge.
Qed.

Lemma dominated_by_irrefl a : dominated_by a a = false.
Proof.
  unfold dominated_by. apply andb_false_iff. right.
  induction a as [|x a IH]; simpl; [done|].
  unfold gt at 1. by rewrite lt_irrefl.
Qed.

(** A row with a NaN is in no domination, on either side. *)
Lemma all_ge_nan a b c :
  a !! c = Some nan \/ b !! c = Some nan -> (c < length a)%nat ->
  (c < length b)%nat ->
  forallb (fun p => ge p.1 p.2) (zip a b) = false.
Proof.
  revert b c. induction a as [|x a IH]; intros [|y b] c H La Lb; simpl in *;
    try lia.
  destruct c as [|c]; simpl in *.
  - destruct H as [[= ->]|[= ->]]; unfold ge.
    + by rewrite nan_le_r.
    + by rewrite nan_le_l.
  - rewrite (IH b c); [apply andb_false_r|done|lia..].
Qed.

Lemma dominated_by_nan a b c :
  a !! c = Some nan \/ b !! c = Some nan -> length a = length b ->
  dominated_by a b = false.
Proof.
  intros H L. unfold dominated_by.
  assert (c < length a)%nat.
  { destruct H as [H|H]; apply lookup_lt_Some in H; lia. }
  rewrite (all_ge_nan a b c); [done|done|lia..].
Qed.
End RowOrder.

Section Progress.
Variable ov : matrix.
Variable width : nat.
Hypothesis Hrect : rectangular width ov.
Abbreviation n := (length ov).
Abbreviation step := (loop_body (domination_map_of ov)).

Lemma row_length i row : ov !! i = Some row -> length row = width.
Proof. intros H. by eapply (Forall_lookup_1 _ _ _ _ Hrect). Qed.

Lemma dom_irrefl i : dom ov i i = false.
Proof. unfold dom. destruct (ov !! i); [apply dominated_by_irrefl|done]. Qed.

Lemma dom_trans i j l :
  dom ov i j = true -> dom ov j l = true -> dom ov i l = true.
Proof.
  unfold dom.
  destruct (ov !! i) eqn:Ei; [|done]. destruct (ov !! j) eqn:Ej; [|done].
  destruct (ov !! l) eqn:El; [|done].
  apply dominated_by_trans; erewrite !row_length; done.
Qed.

(** The number of rows that dominate row [i]. *)
Definition dominators (i : nat) : nat := count_if (dom ov i) n.

Lemma dominators_lt i j : dom ov i j = true -> (dominators j < dominators i)%nat.
Proof.
  intros D. unfold dominators, count_if.
  apply count_true_map_lt with (x := j).
  - intros l _ Hl. by eapply dom_trans.
  - apply elem_of_seq. apply dom_lt in D. lia.
  - apply dom_irrefl.
  - done.
Qed.

(** While a row is unranked, some row has dominated count zero. *)
Lemma front_nonempty st i :
  loop_inv ov st -> (i < n)%nat -> rk st i = -1 ->
  exists j, (j < n)%nat /\ cnt st j = 0.
Proof.
  intros Hinv. remember (dominators i) as m eqn:Hm.
  revert i Hm. induction (lt_wf m) as [m _ IH]. intros i -> Hi Hu.
  destruct (decide (cnt st i = 0)) as [|Hne]; [by exists i|].
  pose proof (inv_unranked _ _ Hinv i Hi Hu) as E.
  assert (0 < count_if (fun j => unranked st j && dom ov i j) n)%nat as Hpos by lia.
  apply count_if_pos in Hpos as (j & Hj & [Uj D]%andb_true_iff).
  apply (IH (dominators j)) with (i := j); [by apply dominators_lt|done..|].
  by apply Z.eqb_eq.
Qed.

Lemma count_if_all f m : count_if f m = m -> forall i, (i < m)%nat -> f i = true.
Proof.
  intros H i Hi. destruct (f i) eqn:E; [done|].
  assert (count_if f m < count_if (fun _ => true) m)%nat as Hlt.
  { apply count_true_map_lt with (x := i); [done|apply elem_of_seq; lia|done..]. }
  assert (count_if (fun _ => true) m <= m)%nat by apply count_if_le_n. lia.
Qed.

Lemma unranked_exists st :
  loop_inv ov st -> ranked_idx_num st < Z.of_nat n ->
  exists i, (i < n)%nat /\ rk st i = -1.
Proof.
  intros Hinv Hlt. rewrite (inv_num _ _ Hinv) in Hlt.
  destruct (decide (count_if (fun i => unranked st i) n = 0%nat)) as [Z0|NZ].
  - exfalso.
    assert (count_if (fun i => negb (unranked st i)) n = n); [|lia].
    pose proof (count_if_le_n (fun _ => true) n).
    assert (count_if (fun _ => true) n = n) as Hall.
    { unfold count_if. clear. generalize 0%nat.
      induction (length ov) as [|m IH]; intros s; simpl; [done|]. by rewrite IH. }
    rewrite <- Hall at 2. apply count_if_ext. intros i Hi.
    by rewrite (proj1 (count_if_zero _ _) Z0 i Hi).
  - assert (0 < count_if (fun i => unranked st i) n)%nat as Hpos by lia.
    apply count_if_pos in Hpos as (i & Hi & Ui). exists i. split; [done|].
    by apply Z.eqb_eq.
Qed.

(** Each pass taken while ranks are missing ranks at least one more row. *)
Lemma step_progress st :
  loop_inv ov st -> ranked_idx_num st < Z.of_nat n ->
  ranked_idx_num st < ranked_idx_num (step st).
Proof.
  intros Hinv Hlt. destruct (unranked_exists st Hinv Hlt) as (i & Hi & Hu).
  destruct (front_nonempty st i Hinv Hi Hu) as (j & Hj & Fj).
  rewrite step_ranked_idx_num by apply Hinv.
  assert (0 < count_if (fun i => (cnt st i =? 0)%Z) n)%nat; [|lia].
  apply count_if_pos. exists j. split; [done|]. by apply Z.eqb_eq.
Qed.

Lemma ranked_idx_num_le st : loop_inv ov st -> ranked_idx_num st <= Z.of_nat n.
Proof.
  intros Hinv. rewrite (inv_num _ _ Hinv).
  pose proof (count_if_le_n (fun i => negb (unranked st i)) n). lia.
Qed.

(** The loop leaves within as many passes as rows are still unranked. *)
Lemma while_loop_terminates fuel n_below st :
  loop_inv ov st -> n_below <= Z.of_nat n ->
  Z.of_nat n - ranked_idx_num st <= Z.of_nat fuel ->
  exists st', while_loop fuel (domination_map_of ov) n_below st = Return st'.
Proof.
  revert st. induction fuel as [|fuel IH]; intros st Hinv Hnb Hfuel; simpl.
  - rewrite (proj2 (Z.ltb_ge _ _)) by lia. by eexists.
  - destruct (ranked_idx_num st <? n_below) eqn:E; [|by eexists].
    apply Z.ltb_lt in E. apply IH; [by apply loop_inv_step|done|].
    pose proof (step_progress st Hinv). lia.
Qed.
End Progress.

(** ** [_calculate_nondomination_rank] *)

Section Calculate.
Variable ov : matrix.
Abbreviation n := (length ov).
Abbreviation init := (initial_state ov).

Lemma calculate_unfold fuel n_below :
  _calculate_nondomination_rank fuel ov n_below
  = st ← while_loop fuel (domination_map_of ov) (n_below_or n_below n) init;
    Return (ranks st, rank st).
Proof. reflexivity. Qed.

Lemma calculate_Return fuel n_below rs r :
  _calculate_nondomination_rank fuel ov n_below = Return (rs, r) ->
  exists k, (k <= fuel)%nat /\ rs = ranks (passes ov k init)
    /\ r = rank (passes ov k init)
    /\ n_below_or n_below n <= ranked_idx_num (passes ov k init)
    /\ forall k', (k' < k)%nat ->
         ranked_idx_num (passes ov k' init) < n_below_or n_below n.
Proof.
  rewrite calculate_unfold.
  destruct (while_loop _ _ _ _) as [st'| |] eqn:E; try done.
  intros [= <- <-].
  apply while_loop_Return in E as (k & Hk & -> & Hstop & Hgo). by exists k.
Qed.

Lemma calculate_not_Raise fuel n_below e :
  _calculate_nondomination_rank fuel ov n_below <> Raise e.
Proof.
  rewrite calculate_unfold.
  destruct (while_loop _ _ _ _) as [st'| |] eqn:E; try done.
  by apply while_loop_not_Raise in E.
Qed.

Lemma lookup_ranks st i :
  sized n st -> (i < n)%nat -> ranks st !! i = Some (rk st i).
Proof.
  intros [Hr _] Hi. unfold rk.
  destruct (lookup_lt_is_Some_2 (ranks st) i) as [x ->]; [lia|done].
Qed.

Variable width : nat.
Hypothesis Hrect : rectangular width ov.

(** The passes made before the loop leaves: each ranks a row, so there are
    at most [n] of them. *)
Lemma passes_bound k n_below :
  n_below <= Z.of_nat n ->
  (forall k', (k' < k)%nat -> ranked_idx_num (passes ov k' init) < n_below) ->
  (k <= n)%nat
  /\ forall k', (k' <= k)%nat -> Z.of_nat k' <= ranked_idx_num (passes ov k' init).
Proof.
  intros Hnb Hgo.
  assert (forall k', (k' <= k)%nat ->
            Z.of_nat k' <= ranked_idx_num (passes ov k' init)) as Hge.
  { induction k' as [|k' IH]; intros Hk'; [simpl; lia|].
    pose proof (step_progress ov width Hrect (passes ov k' init)
                  (loop_inv_passes ov k' _ (loop_inv_initial ov))) as Hp.
    specialize (Hgo k' ltac:(lia)). specialize (IH ltac:(lia)).
    change (passes ov (S k') init) with (loop_body (domination_map_of ov) (passes ov k' init)).
    lia. }
  split; [|done].
  destruct k as [|k]; [lia|].
  specialize (Hge k ltac:(lia)). specialize (Hgo k ltac:(lia)). lia.
Qed.

(** With [n_below] at most [n] the call returns, after [k <= n] passes. *)
Lemma calculate_returns fuel n_below :
  n_below_or n_below n <= Z.of_nat n -> (n <= fuel)%nat ->
  exists k, (k <= n)%nat
    /\ _calculate_nondomination_rank fuel ov n_below
       = Return (ranks (passes ov k init), rank (passes ov k init))
    /\ n_below_or n_below n <= ranked_idx_num (passes ov k init)
    /\ (forall k', (k' < k)%nat ->
          ranked_idx_num (passes ov k' init) < n_below_or n_below n).
Proof.
  intros Hnb Hfuel.
  destruct (while_loop_terminates ov width Hrect n (n_below_or n_below n) init)
    as [st' Hst']; [apply loop_inv_initial|done|simpl; lia|].
  apply while_loop_Return in Hst' as (k & Hk & -> & Hstop & Hgo).
  exists k. split; [done|]. split; [|done].
  rewrite calculate_unfold.
  by rewrite (while_loop_passes ov fuel _ init k) by (done || lia).
Qed.
End Calculate.

(** C9: for a matrix of [n] rows and [n_below] that is None, 0 or at most
    [n], the loop leaves after [k <= n] passes and the call returns the ranks
    and the rank index [k - 1] reached; every pass made ranks at least one
    more row, because domination between rows is irreflexive and transitive. *)
Theorem front_peeling_terminates (ov : matrix) (width : nat)
    (n_below : option Z) :
  rectangular width ov ->
  n_below_or n_below (length ov) <= Z.of_nat (length ov) ->
  (forall i, dom ov i i = false)
  /\ (forall i j l, dom ov i j = true -> dom ov j l = true -> dom ov i l = true)
  /\ exists k, (k <= length ov)%nat
      /\ _calculate_nondomination_rank (length ov) ov n_below
         = Return (ranks (passes ov k (initial_state ov)), Z.of_nat k - 1)
      /\ (forall k', (k' < k)%nat ->
            ranked_idx_num (passes ov k' (initial_state ov))
            < ranked_idx_num (passes ov (S k') (initial_state ov))).
Proof.
  intros Hrect Hnb. split; [|split].
  - apply dom_irrefl.
  - by apply (dom_trans ov width).
  - destruct (calculate_returns ov width Hrect (length ov) n_below Hnb)
      as (k & Hk & Hret & _ & Hgo); [done|].
    exists k. split; [done|]. split.
    + rewrite Hret, passes_rank. simpl. do 2 f_equal. lia.
    + intros k' Hk'. apply (step_progress ov width Hrect).
      * apply loop_inv_passes, loop_inv_initial.
      * specialize (Hgo k' Hk'). lia.
Qed.

(** C9 on the four rows (1,2), (2,1), (1,1), (3,3): three passes. *)
Lemma front_peeling_terminates_witness :
  let ov := [[PyFloat.f1; PyFloat.f2]; [PyFloat.f2; PyFloat.f1];
             [PyFloat.f1; PyFloat.f1]; [PyFloat.f3; PyFloat.f3]] in
  exists k, (k <= 4)%nat
    /\ _calculate_nondomination_rank 4 ov None
       = Return (ranks (passes ov k (initial_state ov)), Z.of_nat k - 1).
Proof.
  intros ov.
  destruct (front_peeling_terminates ov 2 None) as (_ & _ & k & Hk & Hret & _).
  - repeat constructor.
  - simpl. lia.
  - exists k. split; [exact Hk|exact Hret].
Defined.

(** ** The full ranking *)

Section Full.
Variable ov : matrix.
Variable width : nat.
Hypothesis Hrect : rectangular width ov.
Abbreviation n := (length ov).
Abbreviation init := (initial_state ov).

(** Once the ranked count has reached [n], every row has a rank. *)
Lemma all_ranked st i :
  loop_inv ov st -> Z.of_nat n <= ranked_idx_num st -> (i < n)%nat ->
  0 <= rk st i <= rank st.
Proof.
  intros Hinv Hfull Hi. rewrite (inv_num _ _ Hinv) in Hfull.
  pose proof (count_if_le_n (fun i => negb (unranked st i)) n).
  assert (negb (unranked st i) = true) as Hr.
  { apply (count_if_all (fun i => negb (unranked st i)) n); [lia|done]. }
  apply negb_true_iff, Z.eqb_neq in Hr.
  by destruct (inv_ranked _ _ Hinv i Hi Hr).
Qed.

(** The full ranking: [n_below] is None or 0. *)
Lemma calculate_full fuel n_below :
  n_below_or n_below n = Z.of_nat n -> (n <= fuel)%nat ->
  exists k, (k <= n)%nat
    /\ _calculate_nondomination_rank fuel ov n_below
       = Return (ranks (passes ov k init), Z.of_nat k - 1)
    /\ sized n (passes ov k init)
    /\ (forall i, (i < n)%nat -> 0 <= rk (passes ov k init) i <= Z.of_nat k - 1)
    /\ ((0 < n)%nat -> (0 < k)%nat).
Proof.
  intros Hnb Hfuel.
  destruct (calculate_returns ov width Hrect fuel n_below)
    as (k & Hk & Hret & Hstop & Hgo); [lia|done|].
  pose proof (loop_inv_passes ov k _ (loop_inv_initial ov)) as Hinv.
  exists k. split; [done|]. split; [|split; [|split]].
  - rewrite Hret, passes_rank. simpl. do 2 f_equal. lia.
  - apply Hinv.
  - intros i Hi. pose proof (all_ranked _ i Hinv ltac:(lia) Hi) as H.
    rewrite passes_rank in H. simpl in H. lia.
  - intros Hn. destruct k; [|lia]. simpl in Hstop. lia.
Qed.
End Full.

(** ** The loop under a threshold above the number of rows *)

Section RunsOn.
Variable ov : matrix.

Lemma ranked_le_rows st : loop_inv ov st -> ranked_idx_num st <= Z.of_nat (length ov).
Proof.
  intros Hinv. rewrite (inv_num _ _ Hinv).
  pose proof (count_if_le_n (fun i => negb (unranked st i)) (length ov)). lia.
Qed.

Lemma while_loop_runs_on fuel n_below st :
  loop_inv ov st -> Z.of_nat (length ov) < n_below ->
  while_loop fuel (domination_map_of ov) n_below st = OutOfFuel.
Proof.
  revert st. induction fuel as [|fuel IH]; intros st Hinv Hnb; simpl;
    pose proof (ranked_le_rows st Hinv);
    rewrite (proj2 (Z.ltb_lt _ _)) by lia; [done|].
  apply IH; [by apply loop_inv_step|done].
Qed.

Lemma calculate_runs_on fuel n_below :
  Z.of_nat (length ov) < n_below_or n_below (length ov) ->
  _calculate_nondomination_rank fuel ov n_below = OutOfFuel.
Proof.
  intros H. rewrite calculate_unfold.
  by rewrite while_loop_runs_on by (apply loop_inv_initial || done).
Qed.

Lemma calculate_Return_or_runs_on fuel n_below :
  (exists rs r, _calculate_nondomination_rank fuel ov n_below = Return (rs, r))
  \/ _calculate_nondomination_rank fuel ov n_below = OutOfFuel.
Proof.
  destruct (_calculate_nondomination_rank fuel ov n_below) as [[rs r]|e|] eqn:E.
  - left. by exists rs, r.
  - by apply calculate_not_Raise in E.
  - by right.
Qed.
End RunsOn.

(** ** Rows with equal vectors, rows with a NaN *)

Section SameRows.
Variable ov : matrix.
Abbreviation n := (length ov).
Abbreviation init := (initial_state ov).
Variables (i j : nat) (row : list PyFloat.float).
Hypothesis Hi : ov !! i = Some row.
Hypothesis Hj : ov !! j = Some row.

Lemma same_row_dom l : dom ov i l = dom ov j l.
Proof. unfold dom. by rewrite Hi, Hj. Qed.

Lemma same_row_not_dom : dom ov i j = false /\ dom ov j i = false.
Proof. unfold dom. rewrite Hi, Hj. split; apply dominated_by_irrefl. Qed.

Lemma same_row_passes k :
  rk (passes ov k init) i = rk (passes ov k init) j
  /\ cnt (passes ov k init) i = cnt (passes ov k init) j.
Proof.
  pose proof (lookup_lt_Some _ _ _ Hi) as Li.
  pose proof (lookup_lt_Some _ _ _ Hj) as Lj.
  induction k as [|k [IHr IHc]].
  - simpl. rewrite !initial_rk, !initial_cnt by done. split; [done|].
    f_equal. apply count_if_ext. intros l _. apply same_row_dom.
  - change (passes ov (S k) init)
      with (loop_body (domination_map_of ov) (passes ov k init)).
    pose proof (inv_sized _ _ (loop_inv_passes ov k _ (loop_inv_initial ov))) as Hs.
    rewrite !step_rk, !step_cnt, IHr, IHc by done. split; [done|].
    do 2 f_equal. apply count_if_ext. intros l _. by rewrite same_row_dom.
Qed.
End SameRows.

Section SameRowsRanked.
Variable ov : matrix.
Abbreviation n := (length ov).
Abbreviation init := (initial_state ov).

(** Rows with the same vector dominate the same rows. *)
Lemma same_row_dom_l i j row l :
  ov !! i = Some row -> ov !! j = Some row -> dom ov l i = dom ov l j.
Proof. intros Hi Hj. unfold dom. by rewrite Hi, Hj. Qed.

(** An entry of the rank array is -1 or one of the ranks given so far. *)
Lemma rk_unset_or_rank st i :
  loop_inv ov st -> (i < n)%nat -> rk st i = -1 \/ 0 <= rk st i <= rank st.
Proof.
  intros Hinv Hi. destruct (decide (rk st i = -1)) as [Hu|Hne]; [by left|].
  right. by destruct (inv_ranked _ _ Hinv i Hi Hne).
Qed.

Variable width : nat.
Hypothesis Hrect : rectangular width ov.

(** A ranking that stops early against the full one: the former makes [km]
    passes, the latter [kf >= km]; a row has its full rank after the [km]
    passes if that rank is at most the rank index reached, and -1 if not. *)
Lemma calculate_partial_full n_below :
  n_below_or n_below n <= Z.of_nat n ->
  exists km kf, (km <= kf)%nat
    /\ _calculate_nondomination_rank n ov n_below
       = Return (ranks (passes ov km init), rank (passes ov km init))
    /\ _calculate_nondomination_rank n ov None
       = Return (ranks (passes ov kf init), rank (passes ov kf init))
    /\ forall i, (i < n)%nat ->
         0 <= rk (passes ov kf init) i <= rank (passes ov kf init)
         /\ rk (passes ov km init) i
            = (if rk (passes ov kf init) i <=? rank (passes ov km init)
               then rk (passes ov kf init) i else -1).
Proof.
  intros Hnb.
  destruct (calculate_returns ov width Hrect n n_below)
    as (km & Hkm & Hret_m & Hstop_m & Hgo_m); [lia|done|].
  destruct (calculate_returns ov width Hrect n None)
    as (kf & Hkf & Hret_f & Hstop_f & Hgo_f); [simpl; lia|done|].
  simpl in Hstop_f, Hgo_f.
  pose proof (loop_inv_passes ov km _ (loop_inv_initial ov)) as Hinv_m.
  pose proof (loop_inv_passes ov kf _ (loop_inv_initial ov)) as Hinv_f.
  assert (km <= kf)%nat as Hle.
  { destruct (decide (km <= kf)%nat); [done|].
    specialize (Hgo_m kf ltac:(lia)). lia. }
  assert (passes ov kf init = passes ov (kf - km) (passes ov km init)) as Esplit.
  { rewrite <- passes_add. f_equal. lia. }
  exists km, kf. split; [done|]. split; [done|]. split; [done|].
  intros i Hi.
  pose proof (all_ranked ov _ i Hinv_f Hstop_f Hi) as Hr.
  split; [done|].
  destruct (decide (rk (passes ov km init) i = -1)) as [Hu|Hne].
  - destruct (passes_rk_unranked ov (kf - km) _ i Hinv_m Hi Hu) as [H|H];
      rewrite <- Esplit in H; [lia|].
    by rewrite (proj2 (Z.leb_gt _ _) H).
  - pose proof (passes_rk_ranked ov (kf - km) _ i Hinv_m Hi Hne) as H.
    rewrite <- Esplit in H. rewrite H.
    destruct (inv_ranked _ _ Hinv_m i Hi Hne) as [_ Hb].
    by rewrite (proj2 (Z.leb_le _ _)) by lia.
Qed.
End SameRowsRanked.

(** C7, as stated, fails for [n_below] other than the default. On the rows
    (1,2), (1,2), (1,1) with [n_below = 1] the loop leaves after the pass
    that ranks (1,1): the two rows with the same vector are given no rank
    and are in no front, both keep -1. With [n_below = 4], above the three
    rows, the loop never leaves: whatever the fuel the call has not
    returned, and no row is given a rank. *)
Lemma identical_rows_unranked_counterexample :
  let ov := [[PyFloat.f1; PyFloat.f2]; [PyFloat.f1; PyFloat.f2];
             [PyFloat.f1; PyFloat.f1]] in
  _calculate_nondomination_rank 3 ov (Some 1) = Return ([-1; -1; 0], 0)
  /\ (forall fuel,
        _calculate_nondomination_rank (S fuel) ov (Some 1)
        = Return ([-1; -1; 0], 0))
  /\ (forall fuel, _calculate_nondomination_rank fuel ov (Some 4) = OutOfFuel).
Proof.
  intros ov. split; [reflexivity|]. split.
  - intros [|fuel]; reflexivity.
  - intros fuel. apply calculate_runs_on. simpl. lia.
Qed.

(** C7, as amended. Two rows with the same vector never dominate each other,
    are dominated by the same rows and dominate the same rows; after every
    pass of the loop they have the same entry in the rank array. So in every
    result the call returns, for any [n_below], their entries are one value,
    which is a rank between 0 and the rank index returned, or -1 for both.
    For a matrix of rows of one width: when [n_below] is None, 0 or [n] the
    call returns and both rows have one rank between 0 and the rank index
    returned; when [n_below] is at most [n] the call returns, and both rows
    have the rank [y] that the full ranking gives them if [y] is at most the
    rank index returned, and both have -1 if not. When [n_below] is above
    [n] the call never returns. *)
Theorem identical_rows_same_rank (ov : matrix) (i j : nat)
    (row : list PyFloat.float) (n_below : option Z) :
  ov !! i = Some row -> ov !! j = Some row ->
  (dom ov i j = false /\ dom ov j i = false
   /\ (forall l, dom ov i l = dom ov j l)
   /\ (forall l, dom ov l i = dom ov l j))
  /\ (forall k, rk (passes ov k (initial_state ov)) i
               = rk (passes ov k (initial_state ov)) j)
  /\ (forall fuel rs r,
        _calculate_nondomination_rank fuel ov n_below = Return (rs, r) ->
        exists x, rs !! i = Some x /\ rs !! j = Some x
          /\ (x = -1 \/ 0 <= x <= r))
  /\ (forall width, rectangular width ov ->
        n_below_or n_below (length ov) = Z.of_nat (length ov) ->
        exists rs r x,
          _calculate_nondomination_rank (length ov) ov n_below = Return (rs, r)
          /\ rs !! i = Some x /\ rs !! j = Some x /\ 0 <= x <= r)
  /\ (forall width, rectangular width ov ->
        n_below_or n_below (length ov) <= Z.of_nat (length ov) ->
        exists rs r rs_f r_f y,
          _calculate_nondomination_rank (length ov) ov n_below = Return (rs, r)
          /\ _calculate_nondomination_rank (length ov) ov None
             = Return (rs_f, r_f)
          /\ rs_f !! i = Some y /\ rs_f !! j = Some y /\ 0 <= y <= r_f
          /\ rs !! i = Some (if y <=? r then y else -1)
          /\ rs !! j = Some (if y <=? r then y else -1))
  /\ (Z.of_nat (length ov) < n_below_or n_below (length ov) ->
      forall fuel, _calculate_nondomination_rank fuel ov n_below = OutOfFuel).
Proof.
  intros Hi Hj.
  pose proof (lookup_lt_Some _ _ _ Hi) as Li.
  pose proof (lookup_lt_Some _ _ _ Hj) as Lj.
  assert (forall k, rk (passes ov k (initial_state ov)) i
                    = rk (passes ov k (initial_state ov)) j) as Hsame.
  { intros k. by apply (same_row_passes ov i j row). }
  assert (forall k l, (l < length ov)%nat ->
            ranks (passes ov k (initial_state ov)) !! l
            = Some (rk (passes ov k (initial_state ov)) l)) as Hlook.
  { intros k l Hl. apply (lookup_ranks ov); [|done].
    apply (inv_sized _ _ (loop_inv_passes ov k _ (loop_inv_initial ov))). }
  split; [|split; [|split; [|split; [|split]]]].
  - destruct (same_row_not_dom ov i j row Hi Hj) as [? ?].
    repeat split; [done..| |].
    + by apply (same_row_dom ov i j row).
    + intros l. by apply (same_row_dom_l ov i j row).
  - exact Hsame.
  - intros fuel rs r (k & _ & -> & -> & _)%calculate_Return.
    exists (rk (passes ov k (initial_state ov)) i).
    rewrite !Hlook, <- Hsame by done. split; [done|]. split; [done|].
    apply (rk_unset_or_rank ov); [|done].
    apply loop_inv_passes, loop_inv_initial.
  - intros width Hrect Hnb.
    destruct (calculate_full ov width Hrect (length ov) n_below Hnb)
      as (k & _ & Hret & _ & Hr & _); [done|].
    exists (ranks (passes ov k (initial_state ov))), (Z.of_nat k - 1),
           (rk (passes ov k (initial_state ov)) i).
    split; [exact Hret|]. rewrite !Hlook, <- Hsame by done.
    split; [done|]. split; [done|]. by apply Hr.
  - intros width Hrect Hnb.
    destruct (calculate_partial_full ov width Hrect n_below Hnb)
      as (km & kf & _ & Hret_m & Hret_f & Hrows).
    destruct (Hrows i Li) as [Hy Hx].
    exists (ranks (passes ov km (initial_state ov))),
           (rank (passes ov km (initial_state ov))),
           (ranks (passes ov kf (initial_state ov))),
           (rank (passes ov kf (initial_state ov))),
           (rk (passes ov kf (initial_state ov)) i).
    split; [exact Hret_m|]. split; [exact Hret_f|].
    rewrite !Hlook by done. rewrite <- (Hsame kf), <- (Hsame km), Hx.
    repeat split; (done || lia).
  - intros Hnb fuel. by apply calculate_runs_on.
Qed.

(** C7 on the rows (1,2), (1,2), (1,1): in the full ranking the two rows
    with the same vector have rank 1, below (1,1) of rank 0. *)
Lemma identical_rows_same_rank_witness :
  let ov := [[PyFloat.f1; PyFloat.f2]; [PyFloat.f1; PyFloat.f2];
             [PyFloat.f1; PyFloat.f1]] in
  _calculate_nondomination_rank 3 ov None = Return ([1; 1; 0], 1)
  /\ exists rs r x,
       _calculate_nondomination_rank 3 ov None = Return (rs, r)
       /\ rs !! 0%nat = Some x /\ rs !! 1%nat = Some x /\ 0 <= x <= r.
Proof.
  intros ov. split; [reflexivity|].
  destruct (identical_rows_same_rank ov 0 1 [PyFloat.f1; PyFloat.f2] None
              eq_refl eq_refl) as (_ & _ & _ & H & _).
  apply (H 2%nat).
  - repeat constructor.
  - reflexivity.
Defined.

Section NanRows.
Variable ov : matrix.
Variable width : nat.
Hypothesis Hrect : rectangular width ov.
Abbreviation n := (length ov).
Abbreviation init := (initial_state ov).
Variables (i c : nat) (row : list PyFloat.float).
Hypothesis Hi : ov !! i = Some row.
Hypothesis Hc : row !! c = Some PyFloat.nan.

Lemma nan_row_dom l : dom ov i l = false /\ dom ov l i = false.
Proof.
  unfold dom. rewrite Hi. destruct (ov !! l) as [other|] eqn:El; [|done].
  pose proof (row_length ov width Hrect _ _ Hi).
  pose proof (row_length ov width Hrect _ _ El).
  split; apply (dominated_by_nan _ _ c); auto; congruence.
Qed.

Lemma nan_row_first_pass : rk (passes ov 1 init) i = 0
                           /\ cnt (passes ov 1 init) i = -1.
Proof.
  pose proof (lookup_lt_Some _ _ _ Hi) as Li.
  assert (cnt init i = 0) as E.
  { rewrite initial_cnt by done.
    rewrite (proj2 (count_if_zero _ _)); [done|]. intros l _. apply nan_row_dom. }
  change (passes ov 1 init) with (loop_body (domination_map_of ov) init).
  rewrite step_rk, step_cnt, E by (done || apply initial_sized). simpl.
  split; [done|].
  rewrite (proj2 (count_if_zero _ _)); [done|]. intros l _.
  rewrite (proj1 (nan_row_dom l)). apply andb_false_r.
Qed.

Lemma nan_row_passes k : (1 <= k)%nat -> rk (passes ov k init) i = 0.
Proof.
  intros Hk. pose proof (lookup_lt_Some _ _ _ Hi) as Li.
  replace k with ((k - 1) + 1)%nat by lia. rewrite passes_add.
  destruct nan_row_first_pass as [E _].
  rewrite passes_rk_ranked; [done| |done|lia].
  apply loop_inv_passes, loop_inv_initial.
Qed.
End NanRows.

(** C10, as amended: in a matrix of rows of one width, a row with a NaN
    neither dominates nor is dominated by any row; the first pass of the loop
    gives it rank 0 and every later pass keeps it. So for [n_below] None, 0
    or positive every result of the call ranks it 0, and the call returns
    when [n_below] is at most [n]. *)
Theorem nan_row_rank_zero (ov : matrix) (width i c : nat)
    (row : list PyFloat.float) (n_below : option Z) :
  rectangular width ov ->
  ov !! i = Some row -> row !! c = Some PyFloat.nan ->
  match n_below with Some z => 0 <= z | None => True end ->
  (forall l, dom ov i l = false /\ dom ov l i = false)
  /\ (forall k, (1 <= k)%nat -> rk (passes ov k (initial_state ov)) i = 0)
  /\ (forall fuel rs r,
        _calculate_nondomination_rank fuel ov n_below = Return (rs, r) ->
        rs !! i = Some 0)
  /\ (n_below_or n_below (length ov) <= Z.of_nat (length ov) ->
      exists rs r,
        _calculate_nondomination_rank (length ov) ov n_below = Return (rs, r)
        /\ rs !! i = Some 0).
Proof.
  intros Hrect Hi Hc Hnb.
  pose proof (lookup_lt_Some _ _ _ Hi) as Li.
  assert (0 < n_below_or n_below (length ov)) as Hpos.
  { unfold n_below_or. destruct n_below as [z|]; [|lia].
    destruct (z =? 0) eqn:E; [lia|]. apply Z.eqb_neq in E. lia. }
  assert (forall fuel rs r,
            _calculate_nondomination_rank fuel ov n_below = Return (rs, r) ->
            rs !! i = Some 0) as Hres.
  { intros fuel rs r (k & _ & -> & _ & Hstop & _)%calculate_Return.
    assert (1 <= k)%nat.
    { destruct k; [|lia]. simpl in Hstop. lia. }
    rewrite (lookup_ranks ov) by
      (done || apply (inv_sized _ _ (loop_inv_passes ov k _ (loop_inv_initial ov)))).
    f_equal. by apply (nan_row_passes ov width Hrect i c row). }
  split; [|split; [|split]].
  - by apply (nan_row_dom ov width Hrect i c row).
  - by apply (nan_row_passes ov width Hrect i c row).
  - exact Hres.
  - intros Hle.
    destruct (calculate_returns ov width Hrect (length ov) n_below Hle)
      as (k & _ & Hret & _); [done|].
    eexists _, _. split; [exact Hret|]. by eapply Hres.
Qed.

(** C10 on the rows (1,1), (NaN,2), (2,2) with [n_below = 1]. *)
Lemma nan_row_rank_zero_witness :
  let ov := [[PyFloat.f1; PyFloat.f1]; [PyFloat.nan; PyFloat.f2];
             [PyFloat.f2; PyFloat.f2]] in
  exists rs r,
    _calculate_nondomination_rank 3 ov (Some 1) = Return (rs, r)
    /\ rs !! 1%nat = Some 0.
Proof.
  intros ov.
  destruct (nan_row_rank_zero ov 2 1 0 [PyFloat.nan; PyFloat.f2] (Some 1))
    as (_ & _ & _ & H).
  - repeat constructor.
  - reflexivity.
  - reflexivity.
  - simpl. lia.
  - apply H. simpl. lia.
Defined.

(** C10, as stated, fails for a negative [n_below]: the loop is not entered
    and the row with the NaN keeps the value -1. *)
Lemma nan_row_negative_n_below_unranked :
  _calculate_nondomination_rank 1 [[PyFloat.nan]] (Some (-1))
  = Return ([-1], -1)
  /\ forall fuel,
       _calculate_nondomination_rank fuel [[PyFloat.nan]] (Some (-1))
       = Return ([-1], -1).
Proof. split; [reflexivity|]. intros [|fuel]; reflexivity. Qed.

(** ** Stopping early *)

(** C5: for [1 <= m <= n] the ranking with [n_below = m] and the full
    ranking both return; the rank index [R_m] that the former returns is the
    one reached when the ranked count first reaches [m]; every row that the
    full ranking ranks at most [R_m] has that same rank in the partial one,
    and every other row has -1 there. *)
Theorem partial_ranking_consistent (ov : matrix) (width : nat) (m : Z) :
  rectangular width ov ->
  1 <= m <= Z.of_nat (length ov) ->
  exists rs_m R_m rs_f R_f,
    _calculate_nondomination_rank (length ov) ov (Some m) = Return (rs_m, R_m)
    /\ _calculate_nondomination_rank (length ov) ov None = Return (rs_f, R_f)
    /\ (exists k, R_m = Z.of_nat k - 1
          /\ m <= ranked_idx_num (passes ov k (initial_state ov))
          /\ forall k', (k' < k)%nat ->
               ranked_idx_num (passes ov k' (initial_state ov)) < m)
    /\ forall i, (i < length ov)%nat ->
         exists r, rs_f !! i = Some r /\ 0 <= r
           /\ rs_m !! i = Some (if r <=? R_m then r else -1).
Proof.
  intros Hrect Hm.
  assert (n_below_or (Some m) (length ov) = m) as Em.
  { unfold n_below_or. destruct (m =? 0) eqn:E; [|done]. apply Z.eqb_eq in E. lia. }
  destruct (calculate_returns ov width Hrect (length ov) (Some m))
    as (km & Hkm & Hret_m & Hstop_m & Hgo_m); [lia|done|].
  destruct (calculate_returns ov width Hrect (length ov) None)
    as (kf & Hkf & Hret_f & Hstop_f & Hgo_f); [simpl; lia|done|].
  rewrite Em in *. simpl in Hstop_f, Hgo_f.
  set (init := initial_state ov) in *.
  pose proof (loop_inv_passes ov km _ (loop_inv_initial ov)) as Hinv_m.
  pose proof (loop_inv_passes ov kf _ (loop_inv_initial ov)) as Hinv_f.
  fold init in Hinv_m, Hinv_f.
  assert (km <= kf)%nat as Hle.
  { destruct (decide (km <= kf)%nat); [done|].
    specialize (Hgo_m kf ltac:(lia)). lia. }
  assert (passes ov kf init = passes ov (kf - km) (passes ov km init)) as Esplit.
  { rewrite <- passes_add. f_equal. lia. }
  exists (ranks (passes ov km init)), (rank (passes ov km init)),
         (ranks (passes ov kf init)), (rank (passes ov kf init)).
  split; [done|]. split; [done|]. split.
  - exists km. split; [|done]. rewrite passes_rank. simpl. lia.
  - intros i Hi. exists (rk (passes ov kf init) i).
    pose proof (all_ranked ov _ i Hinv_f Hstop_f Hi) as Hr.
    rewrite !(lookup_ranks ov) by (done || apply Hinv_m || apply Hinv_f).
    split; [done|]. split; [lia|]. f_equal.
    destruct (decide (rk (passes ov km init) i = -1)) as [Hu|Hne].
    + destruct (passes_rk_unranked ov (kf - km) _ i Hinv_m Hi Hu) as [H|H];
        rewrite <- Esplit in H; [lia|].
      by rewrite (proj2 (Z.leb_gt _ _) H).
    + pose proof (passes_rk_ranked ov (kf - km) _ i Hinv_m Hi Hne) as H.
      rewrite <- Esplit in H. rewrite H.
      destruct (inv_ranked _ _ Hinv_m i Hi Hne) as [_ Hb].
      by rewrite (proj2 (Z.leb_le _ _)) by lia.
Qed.

(** C5 on the four rows (1,2), (2,1), (1,1), (3,3) with [n_below = 1]. *)
Lemma partial_ranking_consistent_witness :
  let ov := [[PyFloat.f1; PyFloat.f2]; [PyFloat.f2; PyFloat.f1];
             [PyFloat.f1; PyFloat.f1]; [PyFloat.f3; PyFloat.f3]] in
  exists rs_m R_m rs_f R_f,
    _calculate_nondomination_rank 4 ov (Some 1) = Return (rs_m, R_m)
    /\ _calculate_nondomination_rank 4 ov None = Return (rs_f, R_f)
    /\ forall i, (i < 4)%nat ->
         exists r, rs_f !! i = Some r /\ 0 <= r
           /\ rs_m !! i = Some (if r <=? R_m then r else -1).
Proof.
  intros ov.
  destruct (partial_ranking_consistent ov 2 1)
    as (rs_m & R_m & rs_f & R_f & H1 & H2 & _ & H3).
  - repeat constructor.
  - simpl. lia.
  - exists rs_m, R_m, rs_f, R_f. split; [exact H1|]. split; [exact H2|exact H3].
Defined.

(** ** Ranks under constraints *)

Section Masks.
Lemma length_mask_select {A} (mask : list bool) (a : list A) :
  length mask = length a -> length (mask_select mask a) = count_true mask.
Proof.
  revert a. induction mask as [|b mask IH]; intros [|x a]; simpl; try done.
  intros [= H]. destruct b; simpl; by rewrite IH.
Qed.

Lemma Forall_mask_select {A} (P : A -> Prop) (mask : list bool) (a : list A) :
  Forall P a -> Forall P (mask_select mask a).
Proof.
  intros H. revert mask. induction H as [|x a Hx Ha IH]; intros [|b mask];
    simpl; try done.
  destruct b; [constructor|]; auto.
Qed.

Lemma length_mask_add mask a vals : length (mask_add mask a vals) = length a.
Proof.
  revert a vals. induction mask as [|b mask IH]; intros [|x a] vals; simpl;
    try done.
  destruct b; [destruct vals|]; simpl; by rewrite ?IH.
Qed.

Lemma lookup_mask_add (mask : list bool) (a vals : list Z) (i : nat)
    (b : bool) (y : Z) :
  length mask = length a -> length vals = count_true mask ->
  mask !! i = Some b -> a !! i = Some y ->
  if b then exists x, x ∈ vals /\ mask_add mask a vals !! i = Some (y + x)
  else mask_add mask a vals !! i = Some y.
Proof.
  revert a vals i. induction mask as [|b' mask IH]; intros [|x a] vals i;
    simpl; try done.
  intros [= Hl] Hv Hm Ha. destruct b'.
  - destruct vals as [|v vals]; [done|]. simpl in Hv.
    destruct i as [|i]; simpl in *.
    + injection Hm as <-. injection Ha as <-. exists v. split; [left|done].
    + specialize (IH a vals i Hl ltac:(lia) Hm Ha). destruct b; [|done].
      destruct IH as (x' & Hx' & E). exists x'. split; [by right|done].
  - destruct i as [|i]; simpl in *.
    + injection Hm as <-. done.
    + by apply IH.
Qed.

Lemma zip_with_map_same {A B C D} (f : B -> C -> D) (g : A -> B) (h : A -> C) l :
  zip_with f (map g l) (map h l) = map (fun x => f (g x) (h x)) l.
Proof. induction l as [|x l IH]; simpl; by rewrite ?IH. Qed.
End Masks.

(** The three groups of the penalty vector. *)
Definition feasible (p : PyFloat.float) : bool :=
  negb (PyFloat.isnan p) && PyFloat.le p PyFloat.f0.
Definition infeasible (p : PyFloat.float) : bool :=
  negb (PyFloat.isnan p) && PyFloat.gt p PyFloat.f0.

Lemma penalty_groups p :
  match feasible p, infeasible p, PyFloat.isnan p with
  | true, false, false | false, true, false | false, false, true => True
  | _, _, _ => False
  end.
Proof.
  unfold feasible, infeasible, PyFloat.f0. PyFloatFacts.float_order.
Qed.

Lemma fast_sort_unfold fuel ov penalty n_below :
  length penalty = length ov ->
  _fast_non_dominated_sort fuel ov (Some penalty) n_below
  = r1 ← _calculate_nondomination_rank fuel
           (mask_select (map feasible penalty) ov) n_below;
    r2 ← _calculate_nondomination_rank fuel
           (map (fun p => [p]) (mask_select (map infeasible penalty) penalty))
           n_below;
    r3 ← _calculate_nondomination_rank fuel
           (mask_select (map PyFloat.isnan penalty) ov) n_below;
    Return
      (mask_add (map PyFloat.isnan penalty)
         (mask_add (map infeasible penalty)
            (mask_add (map feasible penalty) (replicate (length ov) 0) r1.1)
            (map (fun r => r + (r1.2 + 1)) r2.1))
         (map (fun r => r + (r1.2 + 1) + (r2.2 + 1)) r3.1)).
Proof.
  intros Hlen. unfold _fast_non_dominated_sort.
  rewrite (proj2 (Nat.eqb_eq _ _) Hlen). cbn [negb]. cbv zeta.
  rewrite !map_map, !zip_with_map_same. reflexivity.
Qed.

(** C8: the call raises if and only if a penalty vector is given whose length
    differs from the number of rows; the exception is then a ValueError, and
    it is raised whatever the fuel, that is before any pass of a ranking
    loop, in place of any result. *)
Theorem penalty_length_mismatch_raises (fuel : nat) (ov : matrix)
    (penalty : option (list PyFloat.float)) (n_below : option Z) :
  ((exists e, _fast_non_dominated_sort fuel ov penalty n_below = Raise e)
   <-> exists p, penalty = Some p /\ length p <> length ov)
  /\ (forall p, penalty = Some p -> length p <> length ov ->
        _fast_non_dominated_sort fuel ov penalty n_below = Raise ValueError
        /\ _fast_non_dominated_sort 0 ov penalty n_below = Raise ValueError).
Proof.
  assert (forall p f, length p <> length ov ->
            _fast_non_dominated_sort f ov (Some p) n_below = Raise ValueError)
    as Hraise.
  { intros p f Hne. unfold _fast_non_dominated_sort.
    by rewrite (proj2 (Nat.eqb_neq _ _) Hne). }
  split.
  - split.
    + intros [e He]. destruct penalty as [p|].
      * exists p. split; [done|]. intros Hlen.
        rewrite fast_sort_unfold in He by done.
        repeat match type of He with
               | context [_calculate_nondomination_rank ?f ?m ?b] =>
                   let E := fresh "E" in
                   destruct (_calculate_nondomination_rank f m b) eqn:E;
                   simpl in He; try done;
                   try (by apply calculate_not_Raise in E)
               end.
      * simpl in He.
        destruct (_calculate_nondomination_rank fuel ov n_below) eqn:E;
          simpl in He; try done.
        injection He as ->. by apply calculate_not_Raise in E.
    + intros (p & -> & Hne). exists ValueError. by apply Hraise.
  - intros p -> Hne. split; by apply Hraise.
Qed.

(** C8 with three rows and a penalty vector of length two. *)
Lemma penalty_length_mismatch_raises_witness :
  _fast_non_dominated_sort 3
    [[PyFloat.f1]; [PyFloat.f2]; [PyFloat.f3]]
    (Some [PyFloat.f0; PyFloat.f1]) None = Raise ValueError.
Proof.
  destruct (penalty_length_mismatch_raises 3
              [[PyFloat.f1]; [PyFloat.f2]; [PyFloat.f3]]
              (Some [PyFloat.f0; PyFloat.f1]) None) as [_ H].
  apply (H [PyFloat.f0; PyFloat.f1]).
  - reflexivity.
  - simpl. lia.
Defined.

Section Composition.
Variable fuel : nat.

(** A full ranking of a group: every rank lies between 0 and the bottom
    rank returned. *)
Lemma calculate_full_ranks (ov : matrix) (width : nat) (n_below : option Z) :
  rectangular width ov ->
  n_below = None \/ n_below = Some 0 ->
  (length ov <= fuel)%nat ->
  exists rs r,
    _calculate_nondomination_rank fuel ov n_below = Return (rs, r)
    /\ length rs = length ov /\ -1 <= r
    /\ forall x, x ∈ rs -> 0 <= x <= r.
Proof.
  intros Hrect Hnb Hfuel.
  destruct (calculate_full ov width Hrect fuel n_below)
    as (k & Hk & Hret & Hs & Hr & _); [by destruct Hnb as [-> | ->]|done|].
  eexists _, _. split; [exact Hret|]. split; [apply Hs|]. split; [lia|].
  intros x [i Hx]%list_elem_of_lookup.
  pose proof (lookup_lt_Some _ _ _ Hx) as Hi. destruct Hs as [Hs _].
  rewrite Hs in Hi. specialize (Hr i Hi).
  unfold rk in Hr. rewrite Hx in Hr. done.
Qed.
End Composition.

(** C2, as amended: with [n_below] defaulted (None or 0) the call with a
    penalty vector of the length of the matrix returns, and in its result
    every feasible row (penalty <= 0) has a rank below that of every
    infeasible row (penalty > 0), and every infeasible row and every feasible
    row a rank below that of every row whose penalty is NaN, whatever the
    objective values. *)
Theorem constrained_ranks_by_group (ov : matrix) (width : nat)
    (penalty : list PyFloat.float) (n_below : option Z) :
  rectangular width ov ->
  length penalty = length ov ->
  n_below = None \/ n_below = Some 0 ->
  exists rs,
    _fast_non_dominated_sort (length ov) ov (Some penalty) n_below = Return rs
    /\ length rs = length ov
    /\ forall i j pi pj,
         penalty !! i = Some pi -> penalty !! j = Some pj ->
         exists ri rj, rs !! i = Some ri /\ rs !! j = Some rj
           /\ (feasible pi = true -> infeasible pj = true -> ri < rj)
           /\ (infeasible pi = true -> PyFloat.isnan pj = true -> ri < rj)
           /\ (feasible pi = true -> PyFloat.isnan pj = true -> ri < rj).
Proof.
  intros Hrect Hlen Hnb.
  rewrite fast_sort_unfold by done.
  set (m1 := map feasible penalty). set (m2 := map infeasible penalty).
  set (m3 := map PyFloat.isnan penalty).
  assert (length m1 = length ov) as L1 by (unfold m1; by rewrite length_map).
  assert (length m2 = length ov) as L2 by (unfold m2; by rewrite length_map).
  assert (length m3 = length ov) as L3 by (unfold m3; by rewrite length_map).
  assert (forall m : list bool, (count_true m <= length m)%nat) as Hcount
    by apply count_true_le.
  destruct (calculate_full_ranks (length ov) (mask_select m1 ov) width n_below)
    as (v1 & fb & -> & Lv1 & Hfb & B1);
    [by apply Forall_mask_select|done|
     rewrite length_mask_select by done; specialize (Hcount m1); lia|].
  destruct (calculate_full_ranks (length ov)
              (map (fun p => [p]) (mask_select m2 penalty)) 1 n_below)
    as (v2 & ib & -> & Lv2 & Hib & B2);
    [apply Forall_fmap, Forall_true; done|done|
     rewrite length_map, length_mask_select by lia; specialize (Hcount m2); lia|].
  destruct (calculate_full_ranks (length ov) (mask_select m3 ov) width n_below)
    as (v3 & ub & -> & Lv3 & Hub & B3);
    [by apply Forall_mask_select|done|
     rewrite length_mask_select by done; specialize (Hcount m3); lia|].
  rewrite length_mask_select in Lv1, Lv3 by done.
  rewrite length_map, length_mask_select in Lv2 by lia.
  cbn [mbind result_bind mret result_ret fst snd].
  set (a0 := replicate (length ov) 0).
  set (a1 := mask_add m1 a0 v1).
  set (w2 := map (fun r => r + (fb + 1)) v2).
  set (w3 := map (fun r => r + (fb + 1) + (ib + 1)) v3).
  assert (length w2 = count_true m2) as Lw2 by (unfold w2; by rewrite length_map).
  assert (length w3 = count_true m3) as Lw3 by (unfold w3; by rewrite length_map).
  set (a2 := mask_add m2 a1 w2).
  set (a3 := mask_add m3 a2 w3).
  eexists. split; [reflexivity|].
  assert (length a0 = length ov) as La0 by (unfold a0; by rewrite length_replicate).
  assert (length a1 = length ov) as La1 by (unfold a1; by rewrite length_mask_add).
  assert (length a2 = length ov) as La2 by (unfold a2; by rewrite length_mask_add).
  split; [unfold a3; by rewrite length_mask_add|].
  (* the rank of one row, by the group of its penalty *)
  assert (forall i p, penalty !! i = Some p ->
            exists r, a3 !! i = Some r
              /\ (feasible p = true -> 0 <= r <= fb)
              /\ (infeasible p = true -> fb + 1 <= r <= fb + 1 + ib)
              /\ (PyFloat.isnan p = true -> fb + 1 + (ib + 1) <= r)) as Hrow.
  { intros i p Hp.
    pose proof (lookup_lt_Some _ _ _ Hp) as Hi.
    assert (a0 !! i = Some 0) as E0.
    { unfold a0. apply lookup_replicate_2. lia. }
    assert (m1 !! i = Some (feasible p)) as M1
      by (unfold m1; by rewrite list_lookup_fmap, Hp).
    assert (m2 !! i = Some (infeasible p)) as M2
      by (unfold m2; by rewrite list_lookup_fmap, Hp).
    assert (m3 !! i = Some (PyFloat.isnan p)) as M3
      by (unfold m3; by rewrite list_lookup_fmap, Hp).
    pose proof (lookup_mask_add m1 a0 v1 i _ 0 ltac:(lia) Lv1 M1 E0) as S1.
    fold a1 in S1.
    pose proof (penalty_groups p) as G.
    destruct (feasible p) eqn:F, (infeasible p) eqn:I, (PyFloat.isnan p) eqn:N;
      try done.
    - (* feasible *)
      destruct S1 as (x & Hx & S1). apply B1 in Hx.
      pose proof (lookup_mask_add m2 a1 w2 i _ _ ltac:(lia) Lw2 M2 S1) as S2.
      fold a2 in S2. cbv iota in S2.
      pose proof (lookup_mask_add m3 a2 w3 i _ _ ltac:(lia) Lw3 M3 S2) as S3.
      fold a3 in S3. cbv iota in S3.
      exists (0 + x). split; [done|]. repeat split; (done || lia).
    - (* infeasible *)
      pose proof (lookup_mask_add m2 a1 w2 i _ _ ltac:(lia) Lw2 M2 S1) as S2.
      fold a2 in S2. destruct S2 as (x & Hx & S2).
      apply list_elem_of_fmap in Hx as (x' & -> & Hx'). apply B2 in Hx'.
      pose proof (lookup_mask_add m3 a2 w3 i _ _ ltac:(lia) Lw3 M3 S2) as S3.
      fold a3 in S3. cbv iota in S3.
      eexists. split; [done|]. repeat split; (done || lia).
    - (* no penalty information *)
      pose proof (lookup_mask_add m2 a1 w2 i _ _ ltac:(lia) Lw2 M2 S1) as S2.
      fold a2 in S2. cbv iota in S2.
      pose proof (lookup_mask_add m3 a2 w3 i _ _ ltac:(lia) Lw3 M3 S2) as S3.
      fold a3 in S3. destruct S3 as (x & Hx & S3).
      apply list_elem_of_fmap in Hx as (x' & -> & Hx'). apply B3 in Hx'.
      eexists. split; [done|]. repeat split; (done || lia). }
  intros i j pi pj Hpi Hpj.
  destruct (Hrow i pi Hpi) as (ri & Ei & Fi & Ii & Ni).
  destruct (Hrow j pj Hpj) as (rj & Ej & Fj & Ij & Nj).
  exists ri, rj. split; [done|]. split; [done|].
  repeat split; intros H1 H2;
    repeat match goal with
           | H : ?P = true -> _, H' : ?P = true |- _ => specialize (H H')
           end; lia.
Qed.

(** C2 at penalties (-1, 2, NaN) on three rows. *)
Lemma constrained_ranks_by_group_witness :
  exists rs,
    _fast_non_dominated_sort 3 [[PyFloat.f3]; [PyFloat.f2]; [PyFloat.f1]]
      (Some [PyFloat.neg PyFloat.f1; PyFloat.f2; PyFloat.nan]) None = Return rs
    /\ exists r0 r1 r2, rs !! 0%nat = Some r0 /\ rs !! 1%nat = Some r1
         /\ rs !! 2%nat = Some r2 /\ r0 < r1 /\ r1 < r2.
Proof.
  destruct (constrained_ranks_by_group
              [[PyFloat.f3]; [PyFloat.f2]; [PyFloat.f1]] 1
              [PyFloat.neg PyFloat.f1; PyFloat.f2; PyFloat.nan] None)
    as (rs & Hret & _ & H).
  - repeat constructor.
  - reflexivity.
  - by left.
  - exists rs. split; [exact Hret|].
    destruct (H 0%nat 1%nat _ _ eq_refl eq_refl) as (r0 & r1 & E0 & E1 & H01 & _).
    destruct (H 1%nat 2%nat _ _ eq_refl eq_refl) as (r1' & r2 & E1' & E2 & _ & H12 & _).
    exists r0, r1, r2. repeat split; try done.
    + by apply H01.
    + assert (r1 = r1') as -> by congruence. by apply H12.
Defined.

(** C2, as stated, fails when [n_below] stops the rankings early: with
    [n_below = 1] and penalties (-1, 1, 2, NaN) the infeasible row 2 is left
    unranked in its group and ends with rank 0, the rank of the feasible
    row 0. *)
Lemma constrained_ranks_n_below_counterexample :
  let penalty := [PyFloat.neg PyFloat.f1; PyFloat.f1; PyFloat.f2; PyFloat.nan] in
  _fast_non_dominated_sort 4
    [[PyFloat.f0]; [PyFloat.f0]; [PyFloat.f0]; [PyFloat.f0]]
    (Some penalty) (Some 1)
  = Return [0; 1; 0; 2]
  /\ feasible <$> penalty !! 0%nat = Some true
  /\ infeasible <$> penalty !! 2%nat = Some true
  /\ ~ ([0; 1; 0; 2] !!! 0%nat < [0; 1; 0; 2] !!! 2%nat).
Proof. repeat split. simpl. lia. Qed.

(** ** The ND front and rank 0 *)

Section FrontRank.
Import PyFloat PyFloatFacts.
Variable directions : list StudyDirection.

Definition row_of (t : FrozenTrial) : list float :=
  normalized (values t) directions.

Definition shaped (t : FrozenTrial) : Prop :=
  is_complete (state t) = true /\ length (values t) = length directions.

Lemma all_le_as_ge a b :
  all_le a b = forallb (fun p => ge p.1 p.2) (zip b a).
Proof.
  revert b. induction a as [|x a IH]; intros [|y b]; try done.
  rewrite all_le_cons. simpl. by rewrite <- IH.
Qed.

Lemma not_eq_all_le a b i :
  length a = length b ->
  negb (floats_eq_from (fun _ => false) i a b) && all_le a b = dominated_by b a.
Proof.
  revert b i. induction a as [|x a IH]; intros [|y b] i; try done.
  intros [= Hlen]. rewrite dominated_by_cons, all_le_cons.
  cbn [floats_eq_from orb].
  specialize (IH b (S i) Hlen). unfold dominated_by in IH.
  rewrite <- !all_le_as_ge in *.
  change (ge y x) with (le x y). change (gt y x) with (lt x y).
  pose proof (le_is_lt_or_eq x y) as Hle.
  pose proof (lt_not_eq x y) as Hlt.
  destruct (le x y), (lt x y), (eq x y); cbn [negb andb orb] in *; try done.
  - by specialize (Hlt eq_refl).
  - by rewrite andb_true_r.
Qed.

Lemma dominates_shaped t0 t1 :
  shaped t0 -> shaped t1 ->
  _dominates t0 t1 directions = Return (dominated_by (row_of t1) (row_of t0)).
Proof.
  intros [C0 L0] [C1 L1]. unfold _dominates.
  rewrite dominates_aliased_complete by done. f_equal.
  apply not_eq_all_le. unfold row_of. rewrite !normalized_length by done. done.
Qed.

Lemma is_dominated_shaped others t :
  Forall shaped others -> shaped t ->
  is_dominated directions others t
  = Return (existsb (fun o => dominated_by (row_of t) (row_of o)) others).
Proof.
  intros Ho Ht. induction Ho as [|o others Hs Ho IH]; simpl; [done|].
  rewrite dominates_shaped by done. simpl.
  destruct (dominated_by (row_of t) (row_of o)); simpl; [done|apply IH].
Qed.

Definition nondominated (all_trials : list FrozenTrial) (t : FrozenTrial) : bool :=
  negb (existsb (fun o => dominated_by (row_of t) (row_of o)) all_trials).

Lemma nd_loop_shaped all_trials todo acc :
  Forall shaped all_trials -> Forall shaped todo ->
  nd_loop directions all_trials todo acc
  = Return (acc ++ List.filter (nondominated all_trials) todo).
Proof.
  intros Hall Htodo. revert acc.
  induction Htodo as [|t todo Ht Htodo IH]; intros acc; simpl.
  - by rewrite app_nil_r.
  - rewrite is_dominated_shaped by done. simpl. rewrite IH.
    unfold nondominated at 2.
    destruct (existsb _ all_trials); simpl; [done|].
    by rewrite <- app_assoc.
Qed.

Lemma complete_trials_shaped trials :
  Forall shaped trials -> complete_trials trials = trials.
Proof.
  intros H. unfold complete_trials.
  induction H as [|t trials [Hc _] _ IH]; [done|].
  rewrite filter_cons, decide_True by done. by rewrite IH.
Qed.

Lemma nd_front_shaped trials :
  Forall shaped trials ->
  _get_pareto_front_trials_nd trials directions
  = Return (List.filter (nondominated trials) trials).
Proof.
  intros H. unfold _get_pareto_front_trials_nd.
  rewrite complete_trials_shaped by done. by rewrite nd_loop_shaped.
Qed.
End FrontRank.

Section RankZero.
Variable ov : matrix.
Abbreviation n := (length ov).
Abbreviation init := (initial_state ov).

(** After the first pass, rank 0 marks the rows that no row dominates. *)
Lemma rank_zero_iff k i :
  (1 <= k)%nat -> (i < n)%nat ->
  rk (passes ov k init) i = 0 <-> forall j, (j < n)%nat -> dom ov i j = false.
Proof.
  intros Hk Hi.
  replace k with ((k - 1) + 1)%nat by lia. rewrite passes_add.
  pose proof (loop_inv_passes ov 1 _ (loop_inv_initial ov)) as Hinv.
  assert (rk (passes ov 1 init) i = if cnt init i =? 0 then 0 else -1) as E1.
  { change (passes ov 1 init) with (loop_body (domination_map_of ov) init).
    rewrite step_rk by (done || apply initial_sized).
    by rewrite initial_rk. }
  assert (rank (passes ov 1 init) = 0) as R1 by done.
  rewrite <- (count_if_zero (dom ov i) n).
  rewrite initial_cnt in E1 by done.
  destruct (Z.of_nat (count_if (dom ov i) n) =? 0) eqn:E0.
  - apply Z.eqb_eq in E0. rewrite passes_rk_ranked by (done || lia). lia.
  - apply Z.eqb_neq in E0.
    destruct (passes_rk_unranked ov (k - 1) _ i Hinv Hi E1) as [H|H]; lia.
Qed.
End RankZero.

(** C4: for complete trials with one value per direction, the ND front and
    the ranking of the matrix of their normalized vectors (with [n_below]
    defaulted) both return, and a trial is in the front if and only if the
    rank of its row is 0. *)
Theorem nd_front_is_rank_zero (trials : list FrozenTrial)
    (directions : list StudyDirection) :
  Forall (shaped directions) trials ->
  exists front rs r,
    _get_pareto_front_trials_nd trials directions = Return front
    /\ _calculate_nondomination_rank (length trials)
         (map (row_of directions) trials) None = Return (rs, r)
    /\ forall i t, trials !! i = Some t -> (t ∈ front <-> rs !! i = Some 0).
Proof.
  intros Hshaped.
  set (ov := map (row_of directions) trials).
  assert (length ov = length trials) as Hn by (unfold ov; by rewrite length_map).
  assert (rectangular (length directions) ov) as Hrect.
  { unfold ov. apply Forall_fmap. eapply Forall_impl; [exact Hshaped|].
    intros t [_ L]. by apply normalized_length. }
  destruct (calculate_full ov _ Hrect (length trials) None)
    as (k & Hk & Hret & Hs & _ & Hpos); [done|lia|].
  eexists _, _, _. split; [by apply nd_front_shaped|]. split; [exact Hret|].
  intros i t Hi. pose proof (lookup_lt_Some _ _ _ Hi) as Li.
  rewrite (lookup_ranks ov) by (done || lia).
  pose proof (rank_zero_iff ov k i ltac:(lia) ltac:(lia)) as Hrz.
  assert (ov !! i = Some (row_of directions t)) as Ei
    by (unfold ov; by rewrite list_lookup_fmap, Hi).
  assert (forall j, (j < length ov)%nat ->
            exists o, trials !! j = Some o
              /\ dom ov i j = dominated_by (row_of directions t) (row_of directions o))
    as Hdom.
  { intros j Hj. destruct (lookup_lt_is_Some_2 trials j) as [o Ho]; [lia|].
    exists o. split; [done|]. unfold dom.
    by rewrite Ei; unfold ov; rewrite list_lookup_fmap, Ho. }
  split.
  - intros [_ Hnd]%list_elem_of_In%filter_In. f_equal. apply Hrz. intros j Hj.
    destruct (Hdom j Hj) as (o & Ho & ->).
    apply negb_true_iff in Hnd.
    destruct (dominated_by _ (row_of directions o)) eqn:D; [|done].
    rewrite <- Hnd. symmetry. apply existsb_exists. exists o. split; [|done].
    apply list_elem_of_In. by eapply list_elem_of_lookup_2.
  - intros [= E]. apply list_elem_of_In, filter_In. split.
    + apply list_elem_of_In. by eapply list_elem_of_lookup_2.
    + apply negb_true_iff.
      destruct (existsb _ trials) eqn:X; [|done].
      apply existsb_exists in X as (o & [j Ho]%list_elem_of_In%list_elem_of_lookup & D).
      pose proof (lookup_lt_Some _ _ _ Ho) as Lj.
      destruct (Hdom j ltac:(lia)) as (o' & Ho' & Ed).
      assert (o' = o) as -> by congruence.
      rewrite (proj1 Hrz E j) in Ed by lia. congruence.
Qed.

(** C4 on the trials (1,2), (2,1), (1,1), (3,3) under two MINIMIZE
    directions. *)
Lemma nd_front_is_rank_zero_witness :
  let T := fun i a b => mkTrial i COMPLETE [Some a; Some b] in
  let trials := [T 0 PyFloat.f1 PyFloat.f2; T 1 PyFloat.f2 PyFloat.f1;
                 T 2 PyFloat.f1 PyFloat.f1; T 3 PyFloat.f3 PyFloat.f3] in
  exists front rs r,
    _get_pareto_front_trials_nd trials [MINIMIZE; MINIMIZE] = Return front
    /\ _calculate_nondomination_rank 4
         (map (row_of [MINIMIZE; MINIMIZE]) trials) None = Return (rs, r)
    /\ forall i t, trials !! i = Some t -> (t ∈ front <-> rs !! i = Some 0).
Proof.
  intros T trials.
  apply (nd_front_is_rank_zero trials [MINIMIZE; MINIMIZE]).
  repeat constructor.
Defined.

(** ** Sorting *)

Section SortFacts.
Context {K A : Type} (ltb : K -> K -> bool).

Lemma elem_of_sort_insert (x z : K * A) l :
  z ∈ sort_insert ltb x l <-> z = x \/ z ∈ l.
Proof.
  induction l as [|y l IH]; simpl.
  - rewrite list_elem_of_singleton. split; [by left|].
    intros [->|H]; [done|inversion H].
  - destruct (ltb x.1 y.1).
    + by rewrite elem_of_cons.
    + rewrite !elem_of_cons, IH. tauto.
Qed.

Lemma elem_of_sort_from (acc l : list (K * A)) z :
  z ∈ foldl (fun acc x => sort_insert ltb x acc) acc l <-> z ∈ acc \/ z ∈ l.
Proof.
  revert acc. induction l as [|x l IH]; intros acc; simpl.
  - split; [by left|]. intros [H|H]; [done|inversion H].
  - rewrite IH, elem_of_sort_insert, elem_of_cons. tauto.
Qed.

Lemma elem_of_sort_keyed (l : list (K * A)) z :
  z ∈ sort_keyed ltb l <-> z ∈ l.
Proof.
  unfold sort_keyed. rewrite elem_of_sort_from. split; [|by right].
  intros [H|H]; [inversion H|done].
Qed.

(** [before a b]: the sort may leave [a] in front of [b]. *)
Definition before (a b : K * A) : Prop := ltb b.1 a.1 = false.

(** Every item is [before] the items that follow it. *)
Fixpoint ascending (l : list (K * A)) : Prop :=
  match l with
  | [] => True
  | x :: l' => (forall y, y ∈ l' -> before x y) /\ ascending l'
  end.

Variable dom_ok : K * A -> Prop.
Hypothesis ltb_asym : forall a b,
  dom_ok a -> dom_ok b -> ltb a.1 b.1 = true -> ltb b.1 a.1 = false.
Hypothesis before_trans : forall a b c,
  dom_ok a -> dom_ok b -> dom_ok c -> before a b -> before b c -> before a c.

Lemma ascending_sort_insert x l :
  dom_ok x -> Forall dom_ok l -> ascending l -> ascending (sort_insert ltb x l).
Proof.
  intros Hx Hl. induction Hl as [|y l Hy Hl IH]; simpl.
  - intros _. split; [|done]. intros y Hy. inversion Hy.
  - intros [Hyl Hasc]. destruct (ltb x.1 y.1) eqn:E; simpl.
    + split; [|by split]. intros z [->|Hz]%elem_of_cons.
      * by apply ltb_asym.
      * apply (before_trans x y z); auto.
        -- by eapply (proj1 (Forall_forall _ _) Hl).
        -- by apply ltb_asym.
    + split; [|by apply IH].
      intros z [->|Hz]%elem_of_sort_insert; [done|by apply Hyl].
Qed.

Lemma Forall_sort_insert (P : K * A -> Prop) x l :
  P x -> Forall P l -> Forall P (sort_insert ltb x l).
Proof.
  intros Hx Hl. apply Forall_forall. intros z [->|Hz]%elem_of_sort_insert; [done|].
  by eapply (proj1 (Forall_forall _ _) Hl).
Qed.

Lemma ascending_sort_keyed l :
  Forall dom_ok l -> ascending (sort_keyed ltb l).
Proof.
  unfold sort_keyed. intros Hl.
  assert (forall acc, Forall dom_ok acc -> ascending acc ->
            ascending (foldl (fun acc x => sort_insert ltb x acc) acc l)) as H.
  { induction Hl as [|x l Hx Hl IH]; intros acc Hacc Hasc; simpl; [done|].
    apply IH; [by apply Forall_sort_insert|by apply ascending_sort_insert]. }
  by apply H.
Qed.
End SortFacts.

(** ** Ranks of floats among finitely many *)

Section FloatRank.
Import PyFloat PyFloatFacts.
Variable l : list float.
Hypothesis Hnan : Forall (fun a => isnan a = false) l.

(** The number of items of [l] below [a]. *)
Definition frank (a : float) : Z :=
  Z.of_nat (count_true (map (fun c => lt c a) l)).

Lemma not_nan a : a ∈ l -> isnan a = false.
Proof. intros H. by eapply (proj1 (Forall_forall _ _) Hnan). Qed.

Lemma le_frank a b : a ∈ l -> b ∈ l -> le a b = (frank a <=? frank b).
Proof.
  intros Ha Hb. unfold frank. destruct (le a b) eqn:E; symmetry.
  - apply Z.leb_le, inj_le, count_true_map_le.
    intros c _ Hc. by eapply lt_le_trans.
  - apply Z.leb_gt, inj_lt.
    destruct (le_total a b) as [H|H]; [by apply not_nan..|congruence|].
    apply count_true_map_lt with (x := b); [|done|apply lt_irrefl|done].
    intros c _ Hc. eapply lt_le_trans; [done|by apply lt_le].
Qed.

Lemma lt_frank a b : a ∈ l -> b ∈ l -> lt a b = (frank a <? frank b).
Proof.
  intros Ha Hb. rewrite Z.ltb_antisym, <- le_frank by done.
  pose proof (not_nan a Ha). pose proof (not_nan b Hb).
  clear Hnan Ha Hb. revert H H0. float_order.
Qed.

Lemma eq_frank a b : a ∈ l -> b ∈ l -> eq a b = (frank a =? frank b).
Proof.
  intros Ha Hb.
  assert (eq a b = le a b && le b a) as -> by (clear; float_order).
  rewrite !le_frank by done.
  destruct (Z.leb_spec (frank a) (frank b)), (Z.leb_spec (frank b) (frank a)),
    (Z.eqb_spec (frank a) (frank b)); simpl; (done || lia).
Qed.
End FloatRank.

(** ** The 2D front *)

Section Front2D.
Import PyFloat PyFloatFacts.
Variables d0 d1 : StudyDirection.
Abbreviation dirs := [d0; d1].

(** A complete trial with two values, neither of them NaN. *)
Definition plain (t : FrozenTrial) : Prop :=
  is_complete (state t) = true
  /\ exists v0 v1, values t = [v0; v1] /\ v0 <> Some nan /\ v1 <> Some nan.

Definition kx (t : FrozenTrial) : float := default nan (row_of dirs t !! 0%nat).
Definition ky (t : FrozenTrial) : float := default nan (row_of dirs t !! 1%nat).

Lemma normalize_not_nan v d : v <> Some nan -> isnan (_normalize_value v d) = false.
Proof. destruct v as [[]|], d; simpl; done. Qed.

Lemma plain_row t : plain t -> row_of dirs t = [kx t; ky t].
Proof. intros (_ & v0 & v1 & E & _). unfold kx, ky, row_of, normalized. by rewrite E. Qed.

Lemma plain_not_nan t : plain t -> isnan (kx t) = false /\ isnan (ky t) = false.
Proof.
  intros (_ & v0 & v1 & E & H0 & H1). unfold kx, ky, row_of, normalized.
  rewrite E. simpl. split; by apply normalize_not_nan.
Qed.

Lemma plain_shaped t : plain t -> shaped dirs t.
Proof. intros (Hc & v0 & v1 & E & _). split; [done|]. by rewrite E. Qed.

Lemma plain_key t : plain t -> key_2d dirs t = Return (kx t, ky t).
Proof.
  intros (_ & v0 & v1 & E & _). unfold key_2d, kx, ky, row_of, normalized.
  by rewrite E.
Qed.

Variable C : list FrozenTrial.
Hypothesis HC : Forall plain C.

Definition coords : list float := concat (map (row_of dirs) C).

Lemma coords_not_nan : Forall (fun a => isnan a = false) coords.
Proof.
  apply Forall_forall. intros a (row & Hrow & Ha)%elem_of_concat.
  apply list_elem_of_fmap in Hrow as (t & -> & Ht).
  pose proof (proj1 (Forall_forall _ _) HC t Ht) as Hp.
  rewrite plain_row in Ha by done. destruct (plain_not_nan t Hp).
  apply elem_of_cons in Ha as [->|Ha]; [done|].
  apply list_elem_of_singleton in Ha as ->. done.
Qed.

Lemma plain_in t : t ∈ C -> plain t.
Proof. intros Ht. by apply (proj1 (Forall_forall _ _) HC). Qed.

Lemma coords_in t : t ∈ C -> kx t ∈ coords /\ ky t ∈ coords.
Proof.
  intros Ht. pose proof (plain_in t Ht) as Hp. unfold coords.
  split; apply elem_of_concat; exists (row_of dirs t);
    (split; [apply list_elem_of_fmap; by exists t|]);
    rewrite plain_row by done; [left|right; left].
Qed.

(** The coordinates of a trial as integers of the same order. *)
Definition X (t : FrozenTrial) : Z := frank coords (kx t).
Definition Y (t : FrozenTrial) : Z := frank coords (ky t).

(** [a] dominates [b]. *)
Definition D (a b : FrozenTrial) : Prop :=
  X a <= X b /\ Y a <= Y b /\ (X a < X b \/ Y a < Y b).

(** [a] may stand before [b] in the sorted list. *)
Definition tle (a b : FrozenTrial) : Prop :=
  X a < X b \/ (X a = X b /\ Y a <= Y b).

Lemma dominated_by_D a b :
  a ∈ C -> b ∈ C ->
  dominated_by (row_of dirs b) (row_of dirs a) = true <-> D a b.
Proof.
  intros Ha Hb. destruct (coords_in a Ha), (coords_in b Hb).
  rewrite !plain_row by by apply plain_in.
  rewrite dominated_by_cons. simpl. unfold ge, gt, D, X, Y.
  rewrite !(le_frank coords coords_not_nan), !(lt_frank coords coords_not_nan)
    by done.
  rewrite !andb_true_r, orb_false_r, !andb_true_iff, orb_true_iff.
  rewrite !Z.leb_le, !Z.ltb_lt. tauto.
Qed.

Lemma tuple_lt_tle a b :
  a ∈ C -> b ∈ C -> tuple_lt (kx b, ky b) (kx a, ky a) = false <-> tle a b.
Proof.
  intros Ha Hb. destruct (coords_in a Ha), (coords_in b Hb).
  unfold tuple_lt, tle, X, Y. simpl.
  rewrite !(eq_frank coords coords_not_nan), !(lt_frank coords coords_not_nan)
    by done.
  destruct (Z.eqb_spec (frank coords (kx b)) (frank coords (kx a))),
    (Z.eqb_spec (frank coords (ky b)) (frank coords (ky a))),
    (Z.ltb_spec (frank coords (kx b)) (frank coords (kx a))),
    (Z.ltb_spec (frank coords (ky b)) (frank coords (ky a))); simpl;
    split; intros; (done || lia).
Qed.

(** The sweep, as a function of the last trial kept. *)
Fixpoint kept (last : FrozenTrial) (rest : list FrozenTrial) : list FrozenTrial :=
  match rest with
  | [] => []
  | t :: rest' =>
      if dominated_by (row_of dirs t) (row_of dirs last) then kept last rest'
      else t :: kept t rest'
  end.

Lemma sweep_2d_kept last front rest :
  last ∈ C -> Forall (fun t => t ∈ C) rest ->
  sweep_2d dirs last front rest = Return (front ++ kept last rest).
Proof.
  intros Hl Hr. revert last front Hl.
  induction Hr as [|t rest Ht Hr IH]; intros last front Hl; simpl.
  - by rewrite app_nil_r.
  - rewrite dominates_shaped by (apply plain_shaped, plain_in; done). simpl.
    destruct (dominated_by _ _); rewrite IH by done; [done|].
    by rewrite <- app_assoc.
Qed.

Fixpoint asc (l : list FrozenTrial) : Prop :=
  match l with
  | [] => True
  | x :: l' => (forall y, y ∈ l' -> tle x y) /\ asc l'
  end.

Lemma nondominated_D all t :
  t ∈ C -> Forall (fun o => o ∈ C) all ->
  nondominated dirs all t = true <-> forall o, o ∈ all -> ~ D o t.
Proof.
  intros Ht Hall. unfold nondominated. rewrite negb_true_iff. split.
  - intros Hn o Ho Hd.
    assert (existsb (fun o => dominated_by (row_of dirs t) (row_of dirs o)) all
            = true); [|congruence].
    apply existsb_exists. exists o. split; [by apply list_elem_of_In|].
    apply dominated_by_D; [|done..].
    by apply (proj1 (Forall_forall _ _) Hall).
  - intros Hn. destruct (existsb _ all) eqn:E; [|done].
    apply existsb_exists in E as (o & Ho%list_elem_of_In & Hd).
    destruct (Hn o Ho). apply dominated_by_D; [|done..].
    by apply (proj1 (Forall_forall _ _) Hall).
Qed.

(** The sweep keeps the trials that no trial of the sorted list
    dominates. *)
Lemma kept_filter P L rest :
  Forall (fun t => t ∈ C) P -> Forall (fun t => t ∈ C) rest ->
  L ∈ P ->
  (forall p, p ∈ P -> Y L <= Y p) ->
  (forall p, p ∈ P -> ~ D p L) ->
  (forall p r, p ∈ P -> r ∈ rest -> tle p r) ->
  asc rest ->
  kept L rest = List.filter (nondominated dirs (P ++ rest)) rest.
Proof.
  intros HP Hrest. revert P L HP.
  induction Hrest as [|t rest Ht Hrest IH]; intros P L HP HL HY HD Hpr Hasc;
    [done|].
  destruct Hasc as [Htr Hasc].
  assert (L ∈ C) as HLC by by apply (proj1 (Forall_forall _ _) HP).
  assert (tle L t) as HLt by (apply Hpr; [done|left]).
  assert (Forall (fun t => t ∈ C) (P ++ t :: rest)) as Hall.
  { apply Forall_app. split; [done|]. by constructor. }
  assert (Forall (fun t => t ∈ C) (P ++ [t])) as HP'.
  { apply Forall_app. split; [done|]. by constructor. }
  assert (forall p r, p ∈ P ++ [t] -> r ∈ rest -> tle p r) as Hpr'.
  { intros p r [Hp|Hp%list_elem_of_singleton]%elem_of_app Hr.
    - apply Hpr; [done|by right].
    - subst p. by apply Htr. }
  assert ((P ++ [t]) ++ rest = P ++ t :: rest) as Eapp by by rewrite <- app_assoc.
  simpl. destruct (dominated_by (row_of dirs t) (row_of dirs L)) eqn:E.
  - apply dominated_by_D in E; [|done..].
    assert (nondominated dirs (P ++ t :: rest) t = false) as ->.
    { apply not_true_is_false. intros Hn.
      apply (proj1 (nondominated_D _ t Ht Hall) Hn L); [|done].
      apply elem_of_app. by left. }
    rewrite <- Eapp. apply IH; try done.
    + apply elem_of_app. by left.
    + intros p [Hp|Hp%list_elem_of_singleton]%elem_of_app; [by apply HY|].
      subst p. unfold D in E. lia.
    + intros p [Hp|Hp%list_elem_of_singleton]%elem_of_app; [by apply HD|].
      subst p. unfold D, tle in *. lia.
  - assert (~ D L t) as HnD.
    { intros Hd. apply dominated_by_D in Hd; [congruence|done..]. }
    assert (forall p, p ∈ P -> ~ D p t) as HDt.
    { intros p Hp Hd. pose proof (HY p Hp). pose proof (HD p Hp).
      unfold D, tle in *. lia. }
    assert (nondominated dirs (P ++ t :: rest) t = true) as ->.
    { apply nondominated_D; [done..|].
      intros o [Ho|[->|Ho]%elem_of_cons]%elem_of_app.
      - by apply HDt.
      - unfold D. lia.
      - specialize (Htr o Ho). unfold D, tle in *. lia. }
    f_equal. rewrite <- Eapp. apply IH; try done.
    + apply elem_of_app. right. left.
    + intros p [Hp|Hp%list_elem_of_singleton]%elem_of_app.
      * specialize (HY p Hp). unfold D, tle in *. lia.
      * subst p. lia.
    + intros p [Hp|Hp%list_elem_of_singleton]%elem_of_app; [by apply HDt|].
      subst p. unfold D. lia.
Qed.
End Front2D.

Section Front2DResult.
Import PyFloat PyFloatFacts.
Variables d0 d1 : StudyDirection.
Variable C : list FrozenTrial.
Hypothesis HC : Forall plain C.

Abbreviation dirs := [d0; d1].
Abbreviation key := (fun t => (kx d0 d1 t, ky d0 d1 t)).

Definition keyed : list ((float * float) * FrozenTrial) :=
  map (fun t => (key t, t)) C.

Definition sorted_trials : list FrozenTrial := (sort_keyed tuple_lt keyed).*2.

Lemma mapM_Return {A B} (f : A -> result B) (g : A -> B) l :
  Forall (fun x => f x = Return (g x)) l -> mapM f l = Return (map g l).
Proof.
  intros H. induction H as [|x l Hx Hl IH]; [done|].
  simpl. rewrite Hx. simpl. by rewrite IH.
Qed.

Lemma keyed_Return :
  mapM (fun t => k ← key_2d dirs t; Return (k, t)) C = Return keyed.
Proof.
  apply mapM_Return. eapply Forall_impl; [exact HC|].
  intros t Ht. simpl. by rewrite plain_key.
Qed.

Definition key_ok (p : (float * float) * FrozenTrial) : Prop :=
  p.2 ∈ C /\ p.1 = key p.2.

Lemma keyed_ok : Forall key_ok keyed.
Proof.
  apply Forall_forall. intros p (t & -> & Ht)%list_elem_of_fmap. by split.
Qed.

Lemma sorted_ok : Forall key_ok (sort_keyed tuple_lt keyed).
Proof.
  apply Forall_forall. intros p Hp%elem_of_sort_keyed.
  by apply (proj1 (Forall_forall _ _) keyed_ok).
Qed.

Lemma elem_of_sorted_trials t : t ∈ sorted_trials <-> t ∈ C.
Proof.
  unfold sorted_trials. rewrite list_elem_of_fmap. split.
  - intros (p & -> & Hp). by apply (proj1 (Forall_forall _ _) sorted_ok).
  - intros Ht. exists (key t, t). split; [done|].
    apply elem_of_sort_keyed, list_elem_of_fmap. by exists t.
Qed.

Lemma sorted_trials_in : Forall (fun t => t ∈ C) sorted_trials.
Proof. apply Forall_forall. intros t. by rewrite elem_of_sorted_trials. Qed.

Lemma ascending_asc kl :
  Forall key_ok kl -> ascending tuple_lt kl -> asc d0 d1 C kl.*2.
Proof.
  intros H. induction H as [|p kl [Hp Ep] Hkl IH]; simpl; [done|].
  intros [Hb Hasc]. split; [|by apply IH].
  intros y (q & -> & Hq)%list_elem_of_fmap.
  destruct (proj1 (Forall_forall _ _) Hkl q Hq) as [Hq' Eq'].
  specialize (Hb q Hq). unfold before in Hb. rewrite Ep, Eq' in Hb.
  by apply (tuple_lt_tle d0 d1 C HC).
Qed.

Lemma sorted_trials_asc : asc d0 d1 C sorted_trials.
Proof.
  apply ascending_asc; [apply sorted_ok|].
  apply (ascending_sort_keyed tuple_lt key_ok); [| |apply keyed_ok].
  - intros a b [Ha Ea] [Hb Eb] Hlt. rewrite Ea, Eb in *.
    apply (tuple_lt_tle d0 d1 C HC); [done..|].
    assert (~ tle d0 d1 C b.2 a.2) as Hn.
    { intros Ht. apply (tuple_lt_tle d0 d1 C HC) in Ht; [congruence|done..]. }
    unfold tle in *. lia.
  - intros a b c [Ha Ea] [Hb Eb] [Hc Ec]. unfold before.
    rewrite Ea, Eb, Ec. rewrite !(tuple_lt_tle d0 d1 C HC) by done.
    unfold tle. lia.
Qed.

(** The trials that the 2D sweep keeps, before the sort by number. *)
Lemma sweep_result first rest :
  sorted_trials = first :: rest ->
  sweep_2d dirs first [first] rest
  = Return (List.filter (nondominated dirs C) sorted_trials).
Proof.
  intros E. pose proof sorted_trials_in as Hin. pose proof sorted_trials_asc as Hasc.
  rewrite E in Hin, Hasc. apply Forall_cons in Hin as [Hf Hrest].
  destruct Hasc as [Hfr Hasc].
  rewrite (sweep_2d_kept d0 d1 C HC) by done. f_equal.
  rewrite (kept_filter d0 d1 C HC [first] first rest); try done.
  - assert (forall t, t ∈ C ->
              nondominated dirs ([first] ++ rest) t = nondominated dirs C t) as Hsame.
    { intros t Ht. apply eq_true_iff_eq.
      rewrite !(nondominated_D d0 d1 C HC) by
        (done || (by constructor) || (apply Forall_forall; done)).
      change ([first] ++ rest) with (first :: rest). rewrite <- E.
      split; intros H o Ho; apply H; by apply elem_of_sorted_trials. }
    rewrite E. simpl.
    assert (nondominated dirs C first = true) as ->.
    { apply (nondominated_D d0 d1 C HC); [done|by apply Forall_forall|].
      intros o Ho%elem_of_sorted_trials. rewrite E in Ho.
      apply elem_of_cons in Ho as [->|Ho].
      - unfold D. lia.
      - specialize (Hfr o Ho). unfold D, tle in *. lia. }
    simpl. f_equal. apply filter_ext_in.
    intros t Ht%list_elem_of_In. apply Hsame.
    by apply (proj1 (Forall_forall _ _) Hrest).
  - by constructor.
  - left.
  - intros p ->%list_elem_of_singleton. lia.
  - intros p ->%list_elem_of_singleton. unfold D. lia.
  - intros p r ->%list_elem_of_singleton Hr. by apply Hfr.
Qed.
End Front2DResult.

(** C3, as amended: when every complete trial has exactly two values,
    neither of them NaN, the 2D front and the ND front of the trials under
    two directions both return, and they hold the same trials, hence the same
    identifiers; only the order may differ. *)
Theorem front_2d_same_as_nd (trials : list FrozenTrial)
    (d0 d1 : StudyDirection) :
  Forall (fun t => is_complete (state t) = true ->
            exists v0 v1, values t = [v0; v1]
              /\ v0 <> Some PyFloat.nan /\ v1 <> Some PyFloat.nan) trials ->
  exists front_2d front_nd,
    _get_pareto_front_trials_2d trials [d0; d1] = Return front_2d
    /\ _get_pareto_front_trials_nd trials [d0; d1] = Return front_nd
    /\ (forall t, t ∈ front_2d <-> t ∈ front_nd)
    /\ (forall z, z ∈ map number front_2d <-> z ∈ map number front_nd).
Proof.
  intros Htrials.
  set (C := complete_trials trials).
  assert (Forall plain C) as HC.
  { apply Forall_forall. intros t [Hc Ht]%list_elem_of_filter.
    split; [done|]. by apply (proj1 (Forall_forall _ _) Htrials). }
  assert (Forall (shaped [d0; d1]) C) as Hshaped.
  { eapply Forall_impl; [exact HC|]. apply plain_shaped. }
  assert (exists front_2d,
            _get_pareto_front_trials_2d trials [d0; d1] = Return front_2d
            /\ forall t, t ∈ front_2d
                  <-> t ∈ List.filter (nondominated [d0; d1] C) C) as (f2 & E2 & H2).
  { unfold _get_pareto_front_trials_2d. fold C.
    destruct (length C =? 0)%nat eqn:En.
    - apply Nat.eqb_eq in En. destruct C; [|done]. by exists [].
    - rewrite (keyed_Return d0 d1 C HC). simpl.
      fold (sorted_trials d0 d1 C).
      destruct (sorted_trials d0 d1 C) as [|first rest] eqn:ES.
      + apply Nat.eqb_neq in En. destruct C as [|t C']; [done|].
        assert (t ∈ sorted_trials d0 d1 (t :: C')) as Hin
          by (apply (elem_of_sorted_trials d0 d1); left).
        rewrite ES in Hin. inversion Hin.
      + rewrite (sweep_result d0 d1 C HC first rest ES). simpl.
        eexists. split; [done|]. intros t.
        rewrite list_elem_of_fmap. split.
        * intros (p & -> & Hp%elem_of_sort_keyed).
          apply list_elem_of_fmap in Hp as (t & -> & Ht). simpl.
          apply list_elem_of_In, filter_In in Ht as [Ht%list_elem_of_In Hn].
          apply list_elem_of_In, filter_In. split; [|done].
          apply list_elem_of_In.
          by apply (elem_of_sorted_trials d0 d1 C) in Ht.
        * intros [Ht%list_elem_of_In Hn]%list_elem_of_In%filter_In.
          exists (number t, t). split; [done|].
          apply elem_of_sort_keyed, list_elem_of_fmap. exists t. split; [done|].
          apply list_elem_of_In, filter_In. split; [|done].
          apply list_elem_of_In.
          by apply (elem_of_sorted_trials d0 d1 C). }
  exists f2, (List.filter (nondominated [d0; d1] C) C).
  split; [done|]. split.
  { unfold _get_pareto_front_trials_nd. fold C. by rewrite nd_loop_shaped. }
  split; [done|].
  intros z. rewrite !list_elem_of_fmap. split; intros (t & -> & Ht); exists t;
    (split; [done|]); by apply H2.
Qed.

(** C3 on the trials (1,2), (2,1), (1,1), (3,3) under two MINIMIZE
    directions. *)
Lemma front_2d_same_as_nd_witness :
  let T := fun i a b => mkTrial i COMPLETE [Some a; Some b] in
  let trials := [T 0 PyFloat.f1 PyFloat.f2; T 1 PyFloat.f2 PyFloat.f1;
                 T 2 PyFloat.f1 PyFloat.f1; T 3 PyFloat.f3 PyFloat.f3] in
  exists front_2d front_nd,
    _get_pareto_front_trials_2d trials [MINIMIZE; MINIMIZE] = Return front_2d
    /\ _get_pareto_front_trials_nd trials [MINIMIZE; MINIMIZE] = Return front_nd
    /\ (forall t, t ∈ front_2d <-> t ∈ front_nd)
    /\ (forall z, z ∈ map number front_2d <-> z ∈ map number front_nd).
Proof.
  intros T trials.
  apply (front_2d_same_as_nd trials MINIMIZE MINIMIZE).
  repeat constructor; intros _; eexists _, _;
    (split; [reflexivity|split; discriminate]).
Defined.

(** C3, as stated, fails on values with a NaN. For the trials (0,0), (NaN,5),
    (1,1), in this order, no key is below the key before it, so the sort
    leaves them in place; the sweep compares (1,1) with the trial kept last,
    (NaN,5), which dominates nothing, and keeps it, while the ND front drops
    it because (0,0) dominates it. *)
Lemma front_2d_nd_nan_counterexample :
  let t0 := mkTrial 0 COMPLETE [Some PyFloat.f0; Some PyFloat.f0] in
  let t1 := mkTrial 1 COMPLETE [Some PyFloat.nan; Some PyFloat.f5] in
  let t2 := mkTrial 2 COMPLETE [Some PyFloat.f1; Some PyFloat.f1] in
  _get_pareto_front_trials_2d [t0; t1; t2] [MINIMIZE; MINIMIZE]
  = Return [t0; t1; t2]
  /\ _get_pareto_front_trials_nd [t0; t1; t2] [MINIMIZE; MINIMIZE]
     = Return [t0; t1]
  /\ 2 ∈ map number [t0; t1; t2] /\ 2 ∉ map number [t0; t1].
Proof.
  intros t0 t1 t2. split; [reflexivity|]. split; [reflexivity|]. split.
  - simpl. do 2 right. left.
  - simpl. intros H. repeat (apply elem_of_cons in H as [H|H]; [discriminate|]).
    inversion H.
Qed.

(** The same under a shape error: for one complete trial with three values
    the 2D front makes no comparison and returns the trial, while the ND
    front compares it with itself and raises. *)
Lemma front_2d_nd_shape_example :
  let t := mkTrial 0 COMPLETE [Some PyFloat.f0; Some PyFloat.f0; Some PyFloat.f0] in
  _get_pareto_front_trials_2d [t] [MINIMIZE; MINIMIZE] = Return [t]
  /\ _get_pareto_front_trials_nd [t] [MINIMIZE; MINIMIZE] = Raise ValueError.
Proof. split; reflexivity. Qed.

(** ** Examples *)

(** The sample floats are binary64 values. *)
Lemma sample_floats_binary64 :
  forallb PyFloat.is_binary64
    [PyFloat.f0; PyFloat.f1; PyFloat.f2; PyFloat.f3; PyFloat.f5;
     PyFloat.inf; PyFloat.nan] = true.
Proof. reflexivity. Qed.

(** The rows (1,2), (2,1), (1,1), (3,3): (1,1) dominates the other three and
    (3,3) is dominated by all, so the ranks are 1, 1, 0, 2. *)
Lemma ranks_of_four_rows :
  _calculate_nondomination_rank 4
    [[PyFloat.f1; PyFloat.f2]; [PyFloat.f2; PyFloat.f1];
     [PyFloat.f1; PyFloat.f1]; [PyFloat.f3; PyFloat.f3]] None
  = Return ([1; 1; 0; 2], 2).
Proof. reflexivity. Qed.

(** With [n_below] above the number of rows the loop goes on: whatever the
    fuel, the call has not returned. *)
Lemma n_below_above_rows_runs_on (fuel : nat) :
  _calculate_nondomination_rank fuel [[PyFloat.f1]] (Some 2) = OutOfFuel.
Proof.
  unfold _calculate_nondomination_rank. simpl n_below_or.
  assert (forall f st, ranked_idx_num st <= 1 ->
            ranked_idx_num (loop_body (domination_map_of [[PyFloat.f1]]) st)
            <= 1 ->
            (forall st', ranked_idx_num st' <= 1 -> dominated_count st' = [-1] ->
               ranked_idx_num
                 (loop_body (domination_map_of [[PyFloat.f1]]) st') <= 1
               /\ dominated_count
                    (loop_body (domination_map_of [[PyFloat.f1]]) st') = [-1]) ->
            dominated_count (loop_body (domination_map_of [[PyFloat.f1]]) st)
            = [-1] ->
            while_loop f (domination_map_of [[PyFloat.f1]]) 2 st = OutOfFuel)
    as Hloop.
  { induction f as [|f IH]; intros st H1 H2 Hstep Hc; simpl.
    - by rewrite (proj2 (Z.ltb_lt _ _)) by lia.
    - rewrite (proj2 (Z.ltb_lt _ _)) by lia.
      destruct (Hstep _ H2 Hc) as [H3 Hc']. by apply IH. }
  rewrite Hloop; [done|simpl; lia|simpl; lia| |done].
  intros st' H Hc. unfold loop_body. rewrite Hc. simpl. split; [lia|done].
Qed.

(** * Further properties *)

(** ** Normalization and the order of values *)

Section NormalizeOrder.
Import PyFloat PyFloatFacts.

Lemma le_neg x y : le (neg x) (neg y) = le y x.
Proof. unfold neg, SFopp. float_order. Qed.

Lemma lt_neg x y : lt (neg x) (neg y) = lt y x.
Proof. unfold neg, SFopp. float_order. Qed.

Lemma eq_neg x y : eq (neg x) (neg y) = eq x y.
Proof. unfold neg, SFopp. float_order. Qed.

Lemma neg_neg x : neg (neg x) = x.
Proof. destruct x as [[]|[]| |[] ? ?]; reflexivity. Qed.

(** The other direction. *)
Definition flip (d : StudyDirection) : StudyDirection :=
  match d with MINIMIZE => MAXIMIZE | MAXIMIZE => MINIMIZE end.

Lemma normalize_flip v d : _normalize_value v (flip d) = neg (_normalize_value v d).
Proof. destruct d; simpl; [done|]. by rewrite neg_neg. Qed.

Lemma normalized_flip vs directions :
  normalized vs (map flip directions) = map neg (normalized vs directions).
Proof.
  unfold normalized. revert directions.
  induction vs as [|v vs IH]; intros [|d directions]; simpl; try done.
  by rewrite normalize_flip, IH.
Qed.

Lemma floats_eq_from_neg same i l0 l1 :
  floats_eq_from same i (map neg l0) (map neg l1) = floats_eq_from same i l0 l1.
Proof.
  revert i l1. induction l0 as [|x l0 IH]; intros i [|y l1]; simpl; try done.
  by rewrite eq_neg, IH.
Qed.

Lemma all_le_neg l0 l1 : all_le (map neg l0) (map neg l1) = all_le l1 l0.
Proof.
  revert l1. induction l0 as [|x l0 IH]; intros [|y l1]; try done.
  simpl map. rewrite !all_le_cons. by rewrite le_neg, IH.
Qed.
End NormalizeOrder.

(** X1: normalization puts every direction in minimize-equivalent order: two
    values compare under MINIMIZE as they are and under MAXIMIZE the other
    way round, for [<=], [<] and [==] alike, and a NaN stays a NaN. *)
Theorem normalize_orders_by_direction (a b : PyFloat.float) (d : StudyDirection) :
  let na := _normalize_value (Some a) d in
  let nb := _normalize_value (Some b) d in
  PyFloat.le na nb = match d with MINIMIZE => PyFloat.le a b | MAXIMIZE => PyFloat.le b a end
  /\ PyFloat.lt na nb = match d with MINIMIZE => PyFloat.lt a b | MAXIMIZE => PyFloat.lt b a end
  /\ PyFloat.eq na nb = PyFloat.eq a b
  /\ PyFloat.isnan na = PyFloat.isnan a.
Proof.
  intros na nb. subst na nb. destruct d; simpl.
  - repeat split.
  - rewrite le_neg, lt_neg, eq_neg. repeat split. apply PyFloatFacts.neg_not_nan.
Qed.

(** ** More on the dominance relation *)

Section DominanceMore.
Import PyFloat PyFloatFacts.

Lemma forallb_zip_lookup {A B} (f : A * B -> bool) (a : list A) (b : list B) :
  forallb f (zip a b) = true
  <-> forall i x y, a !! i = Some x -> b !! i = Some y -> f (x, y) = true.
Proof.
  revert b. induction a as [|x a IH]; intros [|y b]; simpl.
  - split; [|done]. intros _ i ? ? H. by destruct i.
  - split; [|done]. intros _ i ? ? H. by destruct i.
  - split; [|done]. intros _ i ? ? _ H. by destruct i.
  - rewrite andb_true_iff, IH. split.
    + intros [H0 H] [|i] x' y'; simpl; [by intros [= ->] [= ->]|apply H].
    + intros H. split; [by apply (H 0%nat)|]. intros i. apply (H (S i)).
Qed.

Lemma existsb_zip_lookup {A B} (f : A * B -> bool) (a : list A) (b : list B) :
  existsb f (zip a b) = true
  <-> exists i x y, a !! i = Some x /\ b !! i = Some y /\ f (x, y) = true.
Proof.
  revert b. induction a as [|x a IH]; intros [|y b]; simpl.
  - split; [done|]. by intros ([|i] & ? & ? & ? & ? & ?).
  - split; [done|]. by intros ([|i] & ? & ? & ? & ? & ?).
  - split; [done|]. by intros ([|i] & ? & ? & ? & ? & ?).
  - rewrite orb_true_iff, IH. split.
    + intros [H|(i & x' & y' & Ha & Hb & H)].
      * by exists 0%nat, x, y.
      * by exists (S i), x', y'.
    + intros ([|i] & x' & y' & Ha & Hb & H); simpl in *.
      * left. congruence.
      * right. by exists i, x', y'.
Qed.

(** [_dominates] on any two trials, by cases. *)
Lemma dominates_aliased_cases same t0 t1 directions :
  _dominates_aliased same t0 t1 directions
  = if negb (is_complete (state t0)) then Return false
    else if negb (is_complete (state t1)) then Return true
    else if negb (length (values t0) =? length (values t1))%nat
            || negb (length (values t0) =? length directions)%nat
         then Raise ValueError
         else Return (negb (floats_eq same (normalized (values t0) directions)
                                           (normalized (values t1) directions))
                      && all_le (normalized (values t0) directions)
                                (normalized (values t1) directions)).
Proof.
  unfold _dominates_aliased.
  destruct (is_complete (state t0)), (is_complete (state t1)); simpl; try done.
  destruct (_ =? _)%nat; simpl; [|done].
  destruct (_ =? _)%nat; simpl; [|done].
  by destruct (floats_eq _ _ _).
Qed.
End DominanceMore.

(** X2: [_dominates] raises only a ValueError, and exactly when both trials
    are complete and the value counts differ from each other or from the
    number of directions. A trial that is not complete is never measured: as
    the first argument it dominates nothing, as the second it is dominated by
    every complete trial, whatever the shapes. *)
Theorem dominates_raises_iff (same : nat -> bool) (a b : FrozenTrial)
    (directions : list StudyDirection) :
  (forall e, _dominates_aliased same a b directions = Raise e
     <-> e = ValueError
         /\ is_complete (state a) = true /\ is_complete (state b) = true
         /\ (length (values a) <> length (values b)
             \/ length (values a) <> length directions))
  /\ (is_complete (state a) = false ->
      _dominates_aliased same a b directions = Return false)
  /\ (is_complete (state a) = true -> is_complete (state b) = false ->
      _dominates_aliased same a b directions = Return true).
Proof.
  rewrite dominates_aliased_cases.
  destruct (is_complete (state a)) eqn:Ca, (is_complete (state b)) eqn:Cb; simpl.
  - split; [|split; done]. intros e.
    destruct (Nat.eqb_spec (length (values a)) (length (values b))) as [E1|E1];
      destruct (Nat.eqb_spec (length (values a)) (length directions)) as [E2|E2];
      simpl; split; try (intros [= <-]; repeat split; auto; fail);
      try (intros (-> & _); done); try done.
    intros (_ & _ & _ & [H|H]); done.
  - split; [|split; done]. intros e. split; [done|]. by intros (_ & _ & ? & _).
  - split; [|split; done]. intros e. split; [done|]. by intros (_ & ? & _).
  - split; [|split; done]. intros e. split; [done|]. by intros (_ & ? & _).
Qed.

(** X2 on a complete trial with one value against one with two. *)
Lemma dominates_raises_iff_witness :
  _dominates (mkTrial 0 COMPLETE [Some PyFloat.f1])
             (mkTrial 1 COMPLETE [Some PyFloat.f1; Some PyFloat.f2])
             [MINIMIZE; MINIMIZE] = Raise ValueError
  /\ _dominates (mkTrial 0 (NOT_COMPLETE 0) [])
                (mkTrial 1 COMPLETE [Some PyFloat.f1; Some PyFloat.f2])
                [MINIMIZE; MINIMIZE] = Return false.
Proof.
  split.
  - apply (dominates_raises_iff (fun _ => false)). repeat split. left. simpl. lia.
  - apply (dominates_raises_iff (fun _ => false)). reflexivity.
Defined.

(** X3: on complete trials with one value per direction [_dominates] is
    Pareto dominance of the normalized vectors: it returns true exactly when
    every coordinate of the first is [<=] that of the second and one is [<],
    which is the entry of the domination matrix of the ranking; items that
    are one object in both lists change nothing. *)
Theorem dominates_is_pareto (same : nat -> bool) (a b : FrozenTrial)
    (directions : list StudyDirection) :
  shaped directions a -> shaped directions b ->
  (forall j x y, same j = true ->
     row_of directions a !! j = Some x -> row_of directions b !! j = Some y ->
     x = y) ->
  _dominates_aliased same a b directions
  = Return (dominated_by (row_of directions b) (row_of directions a))
  /\ (_dominates_aliased same a b directions = Return true
      <-> (forall i x y, row_of directions a !! i = Some x ->
             row_of directions b !! i = Some y -> PyFloat.le x y = true)
          /\ (exists i x y, row_of directions a !! i = Some x
                /\ row_of directions b !! i = Some y /\ PyFloat.lt x y = true)).
Proof.
  intros Ha Hb Hsame.
  assert (_dominates_aliased same a b directions
          = Return (dominated_by (row_of directions b) (row_of directions a))) as E.
  { rewrite dominates_aliased_irrelevant by exact Hsame. by apply dominates_shaped. }
  split; [done|]. rewrite E. unfold dominated_by.
  split.
  - intros [= H]. apply andb_true_iff in H as [H1 H2]. split.
    + intros i x y Hx Hy.
      by apply (proj1 (forallb_zip_lookup _ _ _) H1 i y x).
    + apply existsb_zip_lookup in H2 as (i & y & x & Hy & Hx & H).
      by exists i, x, y.
  - intros [H1 H2]. f_equal. apply andb_true_iff. split.
    + apply forallb_zip_lookup. intros i y x Hy Hx. by apply (H1 i x y).
    + destruct H2 as (i & x & y & Hx & Hy & H).
      apply existsb_zip_lookup. by exists i, y, x.
Qed.

(** X3 on (1,1) against (1,2) under two MINIMIZE directions. *)
Lemma dominates_is_pareto_witness :
  _dominates (mkTrial 0 COMPLETE [Some PyFloat.f1; Some PyFloat.f1])
             (mkTrial 1 COMPLETE [Some PyFloat.f1; Some PyFloat.f2])
             [MINIMIZE; MINIMIZE]
  = Return (dominated_by [PyFloat.f1; PyFloat.f2] [PyFloat.f1; PyFloat.f1]).
Proof.
  destruct (dominates_is_pareto (fun _ => false)
              (mkTrial 0 COMPLETE [Some PyFloat.f1; Some PyFloat.f1])
              (mkTrial 1 COMPLETE [Some PyFloat.f1; Some PyFloat.f2])
              [MINIMIZE; MINIMIZE]) as [H _].
  - split; reflexivity.
  - split; reflexivity.
  - discriminate.
  - exact H.
Defined.

(** X4: dominance is transitive on all trials: if [a] dominates [b] and [b]
    dominates [c], then [a] dominates [c]; the third call does not raise. *)
Theorem dominates_transitive (a b c : FrozenTrial)
    (directions : list StudyDirection) :
  _dominates a b directions = Return true ->
  _dominates b c directions = Return true ->
  _dominates a c directions = Return true.
Proof.
  unfold _dominates. rewrite !dominates_aliased_cases.
  destruct (is_complete (state a)) eqn:Ca; simpl; [|done].
  destruct (is_complete (state b)) eqn:Cb; simpl; [|done].
  destruct (Nat.eqb_spec (length (values a)) (length (values b))) as [Lab|];
    simpl; [|done].
  destruct (Nat.eqb_spec (length (values a)) (length directions)) as [La|];
    simpl; [|done].
  intros [= Hab].
  destruct (is_complete (state c)) eqn:Cc; simpl; [|done].
  destruct (Nat.eqb_spec (length (values b)) (length (values c))) as [Lbc|];
    simpl; [|done].
  destruct (Nat.eqb_spec (length (values b)) (length directions)) as [Lb|];
    simpl; [|done].
  intros [= Hbc].
  rewrite (proj2 (Nat.eqb_eq _ _)) by congruence. simpl. f_equal.
  unfold floats_eq in *.
  rewrite not_eq_all_le in * by (rewrite !normalized_length; congruence).
  eapply dominated_by_trans; [| |exact Hbc|exact Hab];
    rewrite !normalized_length; congruence.
Qed.

(** X4 on (1,1), (1,2), (3,3). *)
Lemma dominates_transitive_witness :
  _dominates (mkTrial 0 COMPLETE [Some PyFloat.f1; Some PyFloat.f1])
             (mkTrial 2 COMPLETE [Some PyFloat.f3; Some PyFloat.f3])
             [MINIMIZE; MINIMIZE] = Return true.
Proof.
  apply (dominates_transitive _
           (mkTrial 1 COMPLETE [Some PyFloat.f1; Some PyFloat.f2])); reflexivity.
Defined.

(** X5: turning every direction round turns dominance round: for two
    complete trials, [a] against [b] under the flipped directions gives what
    [b] against [a] gives under the directions themselves, a raise
    included. *)
Theorem dominates_flip (a b : FrozenTrial) (directions : list StudyDirection) :
  is_complete (state a) = true -> is_complete (state b) = true ->
  _dominates a b (map flip directions) = _dominates b a directions.
Proof.
  intros Ca Cb. unfold _dominates. rewrite !dominates_aliased_cases.
  rewrite Ca, Cb, length_map. simpl.
  rewrite (Nat.eqb_sym (length (values b)) (length (values a))).
  destruct (Nat.eqb_spec (length (values a)) (length (values b))) as [Lab|];
    simpl; [|done].
  rewrite Lab.
  destruct (length (values b) =? length directions)%nat; simpl; [|done].
  rewrite !normalized_flip. unfold floats_eq.
  by rewrite floats_eq_from_neg, all_le_neg, floats_eq_from_sym.
Qed.

(** X5 on (1,1) and (1,2): under MAXIMIZE the second dominates the first. *)
Lemma dominates_flip_witness :
  _dominates (mkTrial 1 COMPLETE [Some PyFloat.f1; Some PyFloat.f2])
             (mkTrial 0 COMPLETE [Some PyFloat.f1; Some PyFloat.f1])
             [MAXIMIZE; MAXIMIZE] = Return true.
Proof.
  rewrite (dominates_flip _ _ [MINIMIZE; MINIMIZE]); reflexivity.
Defined.

(** ** What the fronts hold *)

(** The identifiers along a list of trials are related by [R], each to all
    that follow. *)
Fixpoint ordered (R : Z -> Z -> Prop) (l : list FrozenTrial) : Prop :=
  match l with
  | [] => True
  | x :: l' => (forall y, y ∈ l' -> R (number x) (number y)) /\ ordered R l'
  end.

Section FrontMembers.
Variable directions : list StudyDirection.

Lemma nd_loop_sublist all_trials todo acc front :
  nd_loop directions all_trials todo acc = Return front ->
  exists l, front = acc ++ l /\ sublist l todo.
Proof.
  revert acc. induction todo as [|t todo IH]; intros acc; simpl.
  - intros [= <-]. exists []. by rewrite app_nil_r.
  - destruct (is_dominated directions all_trials t) as [[]| |]; simpl; try done.
    + intros (l & -> & Hl)%IH. exists l. split; [done|]. by apply sublist_cons.
    + intros (l & -> & Hl)%IH. exists (t :: l).
      split; [by rewrite <- app_assoc|]. by apply sublist_skip.
Qed.

Lemma sweep_2d_sublist last front rest f :
  sweep_2d directions last front rest = Return f ->
  exists l, f = front ++ l /\ sublist l rest.
Proof.
  revert last front. induction rest as [|t rest IH]; intros last front; simpl.
  - intros [= <-]. exists []. by rewrite app_nil_r.
  - destruct (_dominates last t directions) as [[]| |]; simpl; try done.
    + intros (l & -> & Hl)%IH. exists l. split; [done|]. by apply sublist_cons.
    + intros (l & -> & Hl)%IH. exists (t :: l).
      split; [by rewrite <- app_assoc|]. by apply sublist_skip.
Qed.

Lemma mapM_keyed_snd {K} (key : FrozenTrial -> result K) l keyed :
  mapM (fun t => k ← key t; Return (k, t)) l = Return keyed -> keyed.*2 = l.
Proof.
  revert keyed. induction l as [|t l IH]; intros keyed; simpl.
  - by intros [= <-].
  - destruct (key t) as [k| |]; simpl; try done.
    destruct (mapM _ l) as [kl| |]; simpl; try done.
    intros [= <-]. simpl. f_equal. by apply IH.
Qed.

Lemma sublist_elem {A} (l1 l2 : list A) x : sublist l1 l2 -> x ∈ l1 -> x ∈ l2.
Proof. intros H. by apply (sublist_subseteq _ _ H). Qed.

Lemma elem_of_complete_trials trials t :
  t ∈ complete_trials trials <-> t ∈ trials /\ is_complete (state t) = true.
Proof. unfold complete_trials. rewrite list_elem_of_filter. tauto. Qed.

Lemma ordered_sort_by_number (l : list FrozenTrial) :
  ordered Z.le (sort_keyed Z.ltb (map (fun t => (number t, t)) l)).*2.
Proof.
  assert (forall kl : list (Z * FrozenTrial),
            Forall (fun p => p.1 = number p.2) kl ->
            ascending Z.ltb kl -> ordered Z.le kl.*2) as Hasc.
  { intros kl H. induction H as [|p kl Hp Hkl IH]; simpl; [done|].
    intros [Hb Hrest]. split; [|by apply IH].
    intros y (q & -> & Hq)%list_elem_of_fmap.
    specialize (Hb q Hq). unfold before in Hb. apply Z.ltb_ge in Hb.
    rewrite (proj1 (Forall_forall _ _) Hkl q Hq) in Hb. by rewrite Hp in Hb. }
  apply Hasc.
  - apply Forall_forall. intros p Hp%elem_of_sort_keyed.
    by apply list_elem_of_fmap in Hp as (t & -> & _).
  - apply (ascending_sort_keyed Z.ltb (fun _ => True)).
    + intros a b _ _ H. apply Z.ltb_lt in H. apply Z.ltb_ge. lia.
    + intros a b c _ _ _. unfold before. rewrite !Z.ltb_ge. lia.
    + by apply Forall_true.
Qed.
End FrontMembers.

(** X6: a front never holds a trial that is not complete or not of the
    input, whatever the shapes and values: whenever the ND front returns, it
    is a sublist of the input (the input order is kept) of complete trials;
    whenever the 2D front returns, its trials are complete trials of the
    input, in ascending order of identifier; and with no complete trial both
    return the empty list, for any directions. *)
Theorem fronts_hold_complete_trials (trials : list FrozenTrial)
    (directions : list StudyDirection) :
  (forall front, _get_pareto_front_trials_nd trials directions = Return front ->
     sublist front trials
     /\ Forall (fun t => is_complete (state t) = true) front)
  /\ (forall front, _get_pareto_front_trials_2d trials directions = Return front ->
        (forall t, t ∈ front -> t ∈ trials /\ is_complete (state t) = true)
        /\ ordered Z.le front)
  /\ (complete_trials trials = [] ->
      _get_pareto_front_trials_nd trials directions = Return []
      /\ _get_pareto_front_trials_2d trials directions = Return []).
Proof.
  split; [|split].
  - intros front (l & -> & Hl)%nd_loop_sublist. simpl. split.
    + etrans; [exact Hl|]. apply sublist_filter.
    + apply Forall_forall. intros t Ht.
      apply (sublist_elem _ _ _ Hl) in Ht.
      by apply elem_of_complete_trials in Ht as [_ ?].
  - unfold _get_pareto_front_trials_2d.
    set (C := complete_trials trials).
    destruct (length C =? 0)%nat.
    { intros front [= <-]. split; [|done]. intros t Ht. inversion Ht. }
    destruct (mapM _ C) as [keyed| |] eqn:Ek; simpl; try done.
    apply mapM_keyed_snd in Ek.
    destruct ((sort_keyed tuple_lt keyed).*2) as [|first rest] eqn:ES.
    { intros front [= <-]. split; [|done]. intros t Ht. inversion Ht. }
    destruct (sweep_2d directions first [first] rest) as [pf| |] eqn:Esw;
      simpl; try done.
    intros front [= <-]. split; [|apply ordered_sort_by_number].
    intros t (p & -> & Hp%elem_of_sort_keyed)%list_elem_of_fmap.
    apply list_elem_of_fmap in Hp as (t & -> & Ht). simpl.
    apply elem_of_complete_trials. fold C. rewrite <- Ek.
    apply sweep_2d_sublist in Esw as (l & -> & Hl).
    assert (t ∈ first :: rest) as Hin.
    { apply elem_of_app in Ht as [Ht|Ht].
      - apply list_elem_of_singleton in Ht as ->. left.
      - right. by apply (sublist_elem _ _ _ Hl). }
    rewrite <- ES in Hin.
    apply list_elem_of_fmap in Hin as (q & -> & Hq%elem_of_sort_keyed).
    apply list_elem_of_fmap. by exists q.
  - intros E. unfold _get_pareto_front_trials_nd, _get_pareto_front_trials_2d.
    by rewrite E.
Qed.

(** X6 on a complete trial, one that is not, and a complete trial. *)
Lemma fronts_hold_complete_trials_witness :
  let t0 := mkTrial 0 COMPLETE [Some PyFloat.f1; Some PyFloat.f2] in
  let t1 := mkTrial 1 (NOT_COMPLETE 0) [] in
  let t2 := mkTrial 2 COMPLETE [Some PyFloat.f2; Some PyFloat.f1] in
  sublist [t0; t2] [t0; t1; t2] /\ ordered Z.le [t0; t2].
Proof.
  intros t0 t1 t2.
  destruct (fronts_hold_complete_trials [t0; t1; t2] [MINIMIZE; MINIMIZE])
    as (Hnd & H2d & _).
  split.
  - apply (Hnd [t0; t2]). reflexivity.
  - apply (H2d [t0; t2]). reflexivity.
Defined.

(** ** The ND front covers the trials *)

Section Cover.
Variable directions : list StudyDirection.
Variable C : list FrozenTrial.
Hypothesis HC : Forall (shaped directions) C.

Abbreviation row := (row_of directions).

(** The number of trials of [C] that dominate [t]. *)
Definition dominating (t : FrozenTrial) : nat :=
  count_true (map (fun o => dominated_by (row t) (row o)) C).

Lemma shaped_in t : t ∈ C -> shaped directions t.
Proof. intros Ht. by apply (proj1 (Forall_forall _ _) HC). Qed.

Lemma row_of_length t : t ∈ C -> length (row t) = length directions.
Proof. intros [_ L]%shaped_in. by apply normalized_length. Qed.

Lemma dominating_lt t o :
  t ∈ C -> o ∈ C -> dominated_by (row t) (row o) = true ->
  (dominating o < dominating t)%nat.
Proof.
  intros Ht Ho Hd. unfold dominating.
  apply count_true_map_lt with (x := o); [|done|apply dominated_by_irrefl|done].
  intros y Hy Hoy.
  apply (dominated_by_trans (row t) (row o) (row y)); [| |done..];
    rewrite !row_of_length; done.
Qed.

Lemma nondominated_false t :
  nondominated directions C t = false ->
  exists o, o ∈ C /\ dominated_by (row t) (row o) = true.
Proof.
  unfold nondominated. rewrite negb_false_iff.
  intros (o & Ho%list_elem_of_In & Hd)%existsb_exists. by exists o.
Qed.

(** Every trial is in the front or below a trial of the front. *)
Lemma covered t :
  t ∈ C ->
  nondominated directions C t = true
  \/ exists f, f ∈ C /\ nondominated directions C f = true
       /\ dominated_by (row t) (row f) = true.
Proof.
  remember (dominating t) as k eqn:Hk. revert t Hk.
  induction (lt_wf k) as [k _ IH]. intros t -> Ht.
  destruct (nondominated directions C t) eqn:E; [by left|]. right.
  apply nondominated_false in E as (o & Ho & Hd).
  destruct (IH (dominating o) (dominating_lt t o Ht Ho Hd) o eq_refl Ho)
    as [Hn|(f & Hf & Hn & Hfo)].
  - by exists o.
  - exists f. split; [done|]. split; [done|].
    apply (dominated_by_trans (row t) (row o) (row f)); [| |done..];
      rewrite !row_of_length; done.
Qed.
End Cover.

(** X7: when every complete trial has one value per direction, the ND front
    returns; no trial of the front dominates another trial of the front, and
    every complete trial of the input is in the front or is dominated by a
    trial of the front. So the front is empty only if no trial is
    complete. *)
Theorem nd_front_covers (trials : list FrozenTrial)
    (directions : list StudyDirection) :
  Forall (fun t => is_complete (state t) = true ->
            length (values t) = length directions) trials ->
  exists front,
    _get_pareto_front_trials_nd trials directions = Return front
    /\ (forall f g, f ∈ front -> g ∈ front ->
          _dominates f g directions = Return false)
    /\ (forall t, t ∈ trials -> is_complete (state t) = true ->
          t ∈ front
          \/ exists f, f ∈ front /\ _dominates f t directions = Return true)
    /\ (front = [] -> complete_trials trials = []).
Proof.
  intros Htrials. set (C := complete_trials trials).
  assert (Forall (shaped directions) C) as HC.
  { apply Forall_forall. intros t [Ht Hc]%elem_of_complete_trials.
    split; [done|]. by apply (proj1 (Forall_forall _ _) Htrials). }
  set (front := List.filter (nondominated directions C) C).
  assert (forall t, t ∈ front <-> t ∈ C /\ nondominated directions C t = true)
    as Hfront.
  { intros t. unfold front. rewrite list_elem_of_In, filter_In, <- list_elem_of_In.
    tauto. }
  assert (forall t, t ∈ C ->
            t ∈ front
            \/ exists f, f ∈ front /\ _dominates f t directions = Return true)
    as Hcover.
  { intros t Ht. destruct (covered directions C HC t Ht) as [Hn|(f & Hf & Hn & Hd)].
    - left. by apply Hfront.
    - right. exists f. split; [by apply Hfront|].
      rewrite dominates_shaped by (by apply (shaped_in directions C HC)).
      by rewrite Hd. }
  exists front. split; [|split; [|split]].
  - unfold _get_pareto_front_trials_nd. fold C. by rewrite nd_loop_shaped.
  - intros f g [Hf _]%Hfront [Hg Hn]%Hfront.
    rewrite dominates_shaped by (by apply (shaped_in directions C HC)).
    f_equal. unfold nondominated in Hn. apply negb_true_iff in Hn.
    destruct (dominated_by _ _) eqn:E; [|done].
    rewrite <- Hn. symmetry. apply existsb_exists. exists f.
    split; [by apply list_elem_of_In|done].
  - intros t Ht Hc. apply Hcover. by apply elem_of_complete_trials.
  - intros E. destruct C as [|t C'] eqn:EC; [done|].
    destruct (Hcover t) as [H|(f & H & _)]; [left|..]; rewrite E in H;
      inversion H.
Qed.

(** X7 on the trials (1,2), (2,1), (1,1), (3,3). *)
Lemma nd_front_covers_witness :
  let T := fun i a b => mkTrial i COMPLETE [Some a; Some b] in
  let trials := [T 0 PyFloat.f1 PyFloat.f2; T 1 PyFloat.f2 PyFloat.f1;
                 T 2 PyFloat.f1 PyFloat.f1; T 3 PyFloat.f3 PyFloat.f3] in
  exists front,
    _get_pareto_front_trials_nd trials [MINIMIZE; MINIMIZE] = Return front
    /\ forall t, t ∈ trials -> is_complete (state t) = true ->
         t ∈ front
         \/ exists f, f ∈ front
              /\ _dominates f t [MINIMIZE; MINIMIZE] = Return true.
Proof.
  intros T trials.
  destruct (nd_front_covers trials [MINIMIZE; MINIMIZE])
    as (front & Hret & _ & Hcover & _).
  - repeat constructor.
  - exists front. split; [exact Hret|exact Hcover].
Defined.

(** ** Errors of the 2D front *)

Section Errors2D.
Variable directions : list StudyDirection.

Lemma getitem_cases {A} (l : list A) i :
  getitem l i = match l !! i with Some x => Return x | None => Raise IndexError end.
Proof. reflexivity. Qed.

Lemma key_2d_raises t :
  ((length (values t) < 2)%nat \/ (length directions < 2)%nat ->
   key_2d directions t = Raise IndexError)
  /\ ((2 <= length (values t))%nat -> (2 <= length directions)%nat ->
      exists k, key_2d directions t = Return k).
Proof.
  unfold key_2d, getitem.
  destruct (values t) as [|v0 [|v1 vs]], directions as [|d0 [|d1 ds]]; simpl;
    split; intros; try lia; try done; by eexists.
Qed.

Lemma mapM_keyed_raises l e :
  mapM (fun t => k ← key_2d directions t; Return (k, t)) l = Raise e
  <-> e = IndexError
      /\ exists t, t ∈ l
           /\ ((length (values t) < 2)%nat \/ (length directions < 2)%nat).
Proof.
  induction l as [|t l IH]; simpl.
  - split; [done|]. intros (_ & t & Ht & _). inversion Ht.
  - destruct (key_2d_raises t) as [Hbad Hgood].
    destruct (decide ((length (values t) < 2)%nat \/ (length directions < 2)%nat))
      as [Hd|Hd].
    + rewrite (Hbad Hd). simpl. split.
      * intros [= <-]. split; [done|]. exists t. split; [left|done].
      * by intros [-> _].
    + destruct Hgood as [k ->]; [lia..|]. simpl.
      destruct (mapM _ l) as [kl| |] eqn:E; simpl.
      * split; [done|]. intros (-> & t' & [->|Ht']%elem_of_cons & H); [done|].
        assert (Return kl = Raise IndexError); [|done].
        apply IH. split; [done|]. by exists t'.
      * rewrite IH. split.
        -- intros (-> & t' & Ht' & H). split; [done|]. exists t'. split; [by right|done].
        -- intros (-> & t' & [->|Ht']%elem_of_cons & H); [done|].
           split; [done|]. by exists t'.
      * split; [done|]. intros (-> & t' & [->|Ht']%elem_of_cons & H); [done|].
        assert (@OutOfFuel (list (PyFloat.float * PyFloat.float * FrozenTrial))
                = Raise IndexError); [|done].
        apply IH. split; [done|]. by exists t'.
Qed.

Lemma dominates_raises_value_error a b e :
  _dominates a b directions = Raise e -> e = ValueError.
Proof.
  unfold _dominates. rewrite dominates_aliased_cases.
  destruct (negb (is_complete (state a))); [done|].
  destruct (negb (is_complete (state b))); [done|].
  destruct (_ || _); [|done]. by intros [= <-].
Qed.

Lemma sweep_2d_raises last front rest e :
  sweep_2d directions last front rest = Raise e -> e = ValueError.
Proof.
  revert last front. induction rest as [|t rest IH]; intros last front; simpl;
    [done|].
  destruct (_dominates last t directions) as [[]| |] eqn:E; simpl; try done.
  - apply IH.
  - apply IH.
  - intros [= <-]. by apply dominates_raises_value_error in E.
Qed.
End Errors2D.

(** X8: the 2D front raises an IndexError exactly when some complete trial
    has fewer than two values, or there is a complete trial and fewer than
    two directions; the sort keys are computed before any comparison is
    made, and the comparisons raise nothing but a ValueError. *)
Theorem front_2d_index_error (trials : list FrozenTrial)
    (directions : list StudyDirection) :
  _get_pareto_front_trials_2d trials directions = Raise IndexError
  <-> (exists t, t ∈ trials /\ is_complete (state t) = true
         /\ (length (values t) < 2)%nat)
      \/ ((exists t, t ∈ trials /\ is_complete (state t) = true)
          /\ (length directions < 2)%nat).
Proof.
  unfold _get_pareto_front_trials_2d. set (C := complete_trials trials).
  assert ((exists t, t ∈ C
             /\ ((length (values t) < 2)%nat \/ (length directions < 2)%nat))
          <-> (exists t, t ∈ trials /\ is_complete (state t) = true
                 /\ (length (values t) < 2)%nat)
              \/ ((exists t, t ∈ trials /\ is_complete (state t) = true)
                  /\ (length directions < 2)%nat)) as <-.
  { split.
    - intros (t & [Ht Hc]%elem_of_complete_trials & [H|H]).
      + left. by exists t.
      + right. split; [by exists t|done].
    - intros [(t & Ht & Hc & H)|[(t & Ht & Hc) H]]; exists t;
        (split; [by apply elem_of_complete_trials|]); tauto. }
  destruct (length C =? 0)%nat eqn:En.
  { apply Nat.eqb_eq in En. destruct C; [|done]. split; [done|].
    intros (t & Ht & _). inversion Ht. }
  destruct (mapM _ C) as [keyed| |] eqn:Ek; simpl.
  - assert (~ exists t, t ∈ C
              /\ ((length (values t) < 2)%nat \/ (length directions < 2)%nat))
      as Hno.
    { intros H. assert (Return keyed = Raise IndexError); [|done].
      rewrite <- Ek. apply mapM_keyed_raises. by split. }
    split; [|done].
    destruct ((sort_keyed tuple_lt keyed).*2) as [|first rest]; [done|].
    destruct (sweep_2d directions first [first] rest) eqn:Esw; simpl; try done.
    intros [= ->]. by apply sweep_2d_raises in Esw.
  - apply mapM_keyed_raises in Ek as [-> H]. done.
  - split; [done|]. intros H.
    assert (@OutOfFuel (list (PyFloat.float * PyFloat.float * FrozenTrial))
            = Raise IndexError); [|done].
    rewrite <- Ek. apply mapM_keyed_raises. by split.
Qed.

(** X8 on a complete trial with a single value. *)
Lemma front_2d_index_error_witness :
  _get_pareto_front_trials_2d [mkTrial 0 COMPLETE [Some PyFloat.f1]]
    [MINIMIZE; MINIMIZE] = Raise IndexError.
Proof.
  apply front_2d_index_error. left.
  exists (mkTrial 0 COMPLETE [Some PyFloat.f1]).
  split; [left|]. split; [reflexivity|simpl; lia].
Defined.

(** ** The 2D front is the ND front in the order of the identifiers *)

Section SortPermutation.
Context {K A : Type} (ltb : K -> K -> bool).

Lemma sort_insert_Permutation (x : K * A) l : sort_insert ltb x l ≡ₚ x :: l.
Proof.
  induction l as [|y l IH]; simpl; [done|].
  destruct (ltb x.1 y.1); [done|]. rewrite IH. apply Permutation_swap.
Qed.

Lemma sort_keyed_Permutation (l : list (K * A)) : sort_keyed ltb l ≡ₚ l.
Proof.
  unfold sort_keyed.
  assert (forall acc, foldl (fun acc x => sort_insert ltb x acc) acc l ≡ₚ acc ++ l)
    as H.
  { induction l as [|x l IH]; intros acc; simpl; [by rewrite app_nil_r|].
    rewrite IH, sort_insert_Permutation. simpl. apply Permutation_middle. }
  by rewrite H.
Qed.
End SortPermutation.

Section OrderedLists.

Lemma filter_Permutation_bool {A} (f : A -> bool) l1 l2 :
  l1 ≡ₚ l2 -> List.filter f l1 ≡ₚ List.filter f l2.
Proof.
  induction 1 as [|x l1 l2 _ IH|x y l|l1 l2 l3 _ IH1 _ IH2]; simpl.
  - done.
  - destruct (f x); by rewrite IH.
  - destruct (f x), (f y); try done. apply Permutation_swap.
  - by rewrite IH1.
Qed.

Lemma filter_sublist_bool {A} (f : A -> bool) l : sublist (List.filter f l) l.
Proof.
  induction l as [|x l IH]; simpl; [done|].
  destruct (f x); [by apply sublist_skip|by apply sublist_cons].
Qed.

Lemma ordered_sublist R l1 l2 : sublist l1 l2 -> ordered R l2 -> ordered R l1.
Proof.
  induction 1 as [|x l1 l2 Hs IH|x l1 l2 Hs IH]; simpl; [done|..].
  - intros [Hx Hl]. split; [|by apply IH].
    intros y Hy. apply Hx. by apply (sublist_elem _ _ _ Hs).
  - intros [_ Hl]. by apply IH.
Qed.

(** A list in ascending order of identifier that is a rearrangement of a
    list in strictly ascending order is that list. *)
Lemma ordered_unique l1 l2 :
  l1 ≡ₚ l2 -> ordered Z.le l1 -> ordered Z.lt l2 -> l1 = l2.
Proof.
  revert l1. induction l2 as [|x l2 IH]; intros l1 Hp H1 H2.
  - by apply Permutation_nil_r in Hp.
  - destruct l1 as [|y l1]; [by apply Permutation_nil_cons in Hp|].
    destruct H1 as [Hy H1], H2 as [Hx H2].
    assert (y = x) as ->.
    { assert (y ∈ x :: l2) as Hin by (rewrite <- Hp; left).
      apply elem_of_cons in Hin as [->|Hin]; [done|].
      assert (x ∈ y :: l1) as Hin' by (rewrite Hp; left).
      apply elem_of_cons in Hin' as [->|Hin']; [done|].
      specialize (Hx y Hin). specialize (Hy x Hin'). lia. }
    f_equal. apply IH; [by apply Permutation_cons_inv in Hp|done..].
Qed.
End OrderedLists.

Section Front2DSorted.
Variables d0 d1 : StudyDirection.
Variable C : list FrozenTrial.
Hypothesis HC : Forall plain C.

Lemma sorted_trials_Permutation : sorted_trials d0 d1 C ≡ₚ C.
Proof.
  unfold sorted_trials. rewrite sort_keyed_Permutation. unfold keyed.
  rewrite <- list_fmap_compose. simpl.
  clear. induction C as [|t l IH]; simpl; [done|]. by rewrite IH.
Qed.

(** What the 2D front returns on the complete trials [C]. *)
Lemma front_2d_sweep trials :
  complete_trials trials = C ->
  _get_pareto_front_trials_2d trials [d0; d1]
  = Return (sort_keyed Z.ltb
              (map (fun t => (number t, t))
                 (List.filter (nondominated [d0; d1] C) (sorted_trials d0 d1 C)))).*2.
Proof.
  intros EC. unfold _get_pareto_front_trials_2d. rewrite EC.
  destruct (length C =? 0)%nat eqn:En.
  - apply Nat.eqb_eq in En. destruct C; [|done]. reflexivity.
  - rewrite (keyed_Return d0 d1 C HC). simpl.
    fold (sorted_trials d0 d1 C).
    destruct (sorted_trials d0 d1 C) as [|first rest] eqn:ES.
    + reflexivity.
    + rewrite (sweep_result d0 d1 C HC first rest ES). by rewrite ES.
Qed.
End Front2DSorted.

(** X9: when every complete trial has exactly two values, neither of them
    NaN, the 2D front is the ND front put in ascending order of identifier:
    the same trials with the same multiplicities. For an input whose
    identifiers are strictly ascending the two fronts are the same list. *)
Theorem front_2d_is_sorted_nd_front (trials : list FrozenTrial)
    (d0 d1 : StudyDirection) :
  Forall (fun t => is_complete (state t) = true ->
            exists v0 v1, values t = [v0; v1]
              /\ v0 <> Some PyFloat.nan /\ v1 <> Some PyFloat.nan) trials ->
  exists front_2d front_nd,
    _get_pareto_front_trials_2d trials [d0; d1] = Return front_2d
    /\ _get_pareto_front_trials_nd trials [d0; d1] = Return front_nd
    /\ front_2d ≡ₚ front_nd
    /\ ordered Z.le front_2d
    /\ (ordered Z.lt trials -> front_2d = front_nd).
Proof.
  intros Htrials.
  set (C := complete_trials trials).
  assert (Forall plain C) as HC.
  { apply Forall_forall. intros t [Hc Ht]%list_elem_of_filter.
    split; [done|]. by apply (proj1 (Forall_forall _ _) Htrials). }
  assert (Forall (shaped [d0; d1]) C) as Hshaped.
  { eapply Forall_impl; [exact HC|]. apply plain_shaped. }
  set (fn := List.filter (nondominated [d0; d1] C) C).
  set (f2 := (sort_keyed Z.ltb
                (map (fun t => (number t, t))
                   (List.filter (nondominated [d0; d1] C)
                      (sorted_trials d0 d1 C)))).*2).
  assert (f2 ≡ₚ fn) as Hperm.
  { unfold f2, fn. rewrite sort_keyed_Permutation, <- list_fmap_compose.
    rewrite (filter_Permutation_bool _ _ _ (sorted_trials_Permutation d0 d1 C)).
    generalize (List.filter (nondominated [d0; d1] C) C). clear.
    induction l as [|t l IH]; simpl; [done|]. by rewrite IH. }
  assert (ordered Z.le f2) as Hord by apply ordered_sort_by_number.
  exists f2, fn. split; [by apply front_2d_sweep|]. split.
  { unfold _get_pareto_front_trials_nd. fold C. by rewrite nd_loop_shaped. }
  split; [done|]. split; [done|].
  intros Hasc. apply ordered_unique; [done..|].
  apply (ordered_sublist _ _ trials); [|done].
  etrans; [apply filter_sublist_bool|]. apply sublist_filter.
Qed.

(** X9 on the trials (1,2), (2,1), (1,1), (3,3), numbered 0 to 3. *)
Lemma front_2d_is_sorted_nd_front_witness :
  let T := fun i a b => mkTrial i COMPLETE [Some a; Some b] in
  let trials := [T 0 PyFloat.f1 PyFloat.f2; T 1 PyFloat.f2 PyFloat.f1;
                 T 2 PyFloat.f1 PyFloat.f1; T 3 PyFloat.f3 PyFloat.f3] in
  exists front,
    _get_pareto_front_trials_2d trials [MINIMIZE; MINIMIZE] = Return front
    /\ _get_pareto_front_trials_nd trials [MINIMIZE; MINIMIZE] = Return front.
Proof.
  intros T trials.
  destruct (front_2d_is_sorted_nd_front trials MINIMIZE MINIMIZE)
    as (f2 & fn & E2 & En & _ & _ & Heq).
  - repeat constructor; intros _; eexists _, _;
      (split; [reflexivity|split; discriminate]).
  - exists f2. split; [exact E2|]. rewrite Heq; [exact En|].
    simpl. repeat split; intros y Hy;
      repeat (apply elem_of_cons in Hy as [->|Hy]; [simpl; lia|]);
      inversion Hy.
Defined.

(** ** A threshold above the number of rows *)

(** X10: with [n_below] above the number of rows the ranking never returns:
    the ranked count cannot pass the number of rows, so the loop condition
    holds for ever; whatever the fuel, the call is still running. This is so
    for an empty matrix and any positive [n_below]. *)
Theorem calculate_never_returns (ov : matrix) (n_below : Z) (fuel : nat) :
  Z.of_nat (length ov) < n_below ->
  _calculate_nondomination_rank fuel ov (Some n_below) = OutOfFuel.
Proof.
  intros H. apply calculate_runs_on. unfold n_below_or.
  destruct (n_below =? 0) eqn:E; [apply Z.eqb_eq in E; lia|done].
Qed.

(** X10 on the empty matrix with [n_below = 1]. *)
Lemma calculate_never_returns_witness :
  _calculate_nondomination_rank 1000 [] (Some 1) = OutOfFuel.
Proof. apply calculate_never_returns. simpl. lia. Defined.

(** X11: under constraints [n_below] goes unchanged to the ranking of each
    of the three groups, so the call never returns when [n_below] is above
    the size of one of them; for one, whenever [n_below] is positive and no
    penalty is NaN. *)
Theorem fast_sort_never_returns (ov : matrix) (penalty : list PyFloat.float)
    (n_below : Z) (fuel : nat) :
  length penalty = length ov ->
  Z.of_nat (count_true (map feasible penalty)) < n_below
  \/ Z.of_nat (count_true (map infeasible penalty)) < n_below
  \/ Z.of_nat (count_true (map PyFloat.isnan penalty)) < n_below ->
  _fast_non_dominated_sort fuel ov (Some penalty) (Some n_below) = OutOfFuel.
Proof.
  intros Hlen Hsmall. rewrite fast_sort_unfold by done.
  assert (length (map feasible penalty) = length ov) as L1 by by rewrite length_map.
  assert (length (map infeasible penalty) = length penalty) as L2
    by by rewrite length_map.
  assert (length (map PyFloat.isnan penalty) = length ov) as L3
    by by rewrite length_map.
  assert (forall m : matrix, Z.of_nat (length m) < n_below ->
            _calculate_nondomination_rank fuel m (Some n_below) = OutOfFuel) as Hrun.
  { intros m Hm. apply calculate_runs_on. unfold n_below_or.
    destruct (n_below =? 0) eqn:E; [apply Z.eqb_eq in E; lia|done]. }
  destruct (calculate_Return_or_runs_on
              (mask_select (map feasible penalty) ov) fuel (Some n_below))
    as [(rs1 & r1 & E1)|E1]; rewrite E1; [|done].
  destruct (calculate_Return_or_runs_on
              (map (fun p => [p]) (mask_select (map infeasible penalty) penalty))
              fuel (Some n_below))
    as [(rs2 & r2 & E2)|E2]; rewrite E2; [|done].
  destruct (calculate_Return_or_runs_on
              (mask_select (map PyFloat.isnan penalty) ov) fuel (Some n_below))
    as [(rs3 & r3 & E3)|E3]; rewrite E3; [|done].
  exfalso. destruct Hsmall as [H|[H|H]].
  - rewrite Hrun in E1; [done|]. by rewrite length_mask_select.
  - rewrite Hrun in E2; [done|]. by rewrite length_map, length_mask_select.
  - rewrite Hrun in E3; [done|]. by rewrite length_mask_select.
Qed.

(** X11 on two rows with penalties -1 and 2, none NaN, and [n_below = 1]. *)
Lemma fast_sort_never_returns_witness :
  _fast_non_dominated_sort 1000 [[PyFloat.f1]; [PyFloat.f2]]
    (Some [PyFloat.neg PyFloat.f1; PyFloat.f2]) (Some 1) = OutOfFuel.
Proof.
  apply fast_sort_never_returns; [reflexivity|].
  right. right. simpl. lia.
Defined.

(** ** Penalties that are all feasible *)

Section AllFeasible.

Lemma mask_select_all {A} (a : list A) :
  mask_select (replicate (length a) true) a = a.
Proof. induction a as [|x a IH]; simpl; by rewrite ?IH. Qed.

Lemma mask_select_none {A} (a : list A) n :
  mask_select (replicate n false) a = [].
Proof. revert a. induction n as [|n IH]; intros [|x a]; simpl; by rewrite ?IH. Qed.

Lemma mask_add_none a n vals : mask_add (replicate n false) a vals = a.
Proof. revert a. induction n as [|n IH]; intros [|x a]; simpl; by rewrite ?IH. Qed.

Lemma mask_add_all vals :
  mask_add (replicate (length vals) true) (replicate (length vals) 0) vals = vals.
Proof. induction vals as [|v vals IH]; simpl; by rewrite ?IH. Qed.

Lemma map_const_replicate {A B} (f : A -> B) (b : B) l :
  Forall (fun x => f x = b) l -> map f l = replicate (length l) b.
Proof. induction 1 as [|x l Hx _ IH]; simpl; by rewrite ?Hx, ?IH. Qed.

Lemma calculate_empty fuel n_below :
  n_below = None \/ n_below = Some 0 ->
  _calculate_nondomination_rank fuel [] n_below = Return ([], -1).
Proof. intros [-> | ->]; by destruct fuel. Qed.
End AllFeasible.

(** X12: with [n_below] defaulted (None or 0), a penalty vector whose
    entries are all feasible (not NaN and [<= 0]) changes nothing: the call
    gives what the call without penalties gives, for every fuel. *)
Theorem fast_sort_all_feasible (fuel : nat) (ov : matrix)
    (penalty : list PyFloat.float) (n_below : option Z) :
  length penalty = length ov ->
  Forall (fun p => feasible p = true) penalty ->
  n_below = None \/ n_below = Some 0 ->
  _fast_non_dominated_sort fuel ov (Some penalty) n_below
  = _fast_non_dominated_sort fuel ov None n_below.
Proof.
  intros Hlen Hfeas Hnb. rewrite fast_sort_unfold by done.
  rewrite (map_const_replicate feasible true) by done.
  rewrite (map_const_replicate infeasible false).
  2:{ eapply Forall_impl; [exact Hfeas|]. intros p Hp.
      pose proof (penalty_groups p) as G. rewrite Hp in G.
      by destruct (infeasible p), (PyFloat.isnan p). }
  rewrite (map_const_replicate PyFloat.isnan false).
  2:{ eapply Forall_impl; [exact Hfeas|]. intros p Hp.
      pose proof (penalty_groups p) as G. rewrite Hp in G.
      by destruct (infeasible p), (PyFloat.isnan p). }
  rewrite Hlen, mask_select_all, !mask_select_none. simpl map.
  rewrite !calculate_empty by done.
  unfold _fast_non_dominated_sort.
  destruct (_calculate_nondomination_rank fuel ov n_below) as [[rs r]| |] eqn:E;
    simpl; try done.
  rewrite !mask_add_none. f_equal.
  apply calculate_Return in E as (k & _ & -> & _).
  pose proof (inv_sized _ _ (loop_inv_passes ov k _ (loop_inv_initial ov)))
    as [Hs _].
  rewrite <- Hs. apply mask_add_all.
Qed.

(** X12 on the rows (1,2), (2,1), (1,1) with penalties 0, -1, -1. *)
Lemma fast_sort_all_feasible_witness :
  let ov := [[PyFloat.f1; PyFloat.f2]; [PyFloat.f2; PyFloat.f1];
             [PyFloat.f1; PyFloat.f1]] in
  _fast_non_dominated_sort 3 ov
    (Some [PyFloat.f0; PyFloat.neg PyFloat.f1; PyFloat.neg PyFloat.f1]) None
  = _fast_non_dominated_sort 3 ov None None.
Proof.
  intros ov. apply fast_sort_all_feasible.
  - reflexivity.
  - repeat constructor.
  - by left.
Defined.

(** ** Ranks are layers of the domination order *)

Record layer_inv (ov : matrix) (st : loop_state) : Prop := {
  (* the rows that dominate a ranked row have smaller ranks *)
  lay_below : forall i j, (i < length ov)%nat -> (j < length ov)%nat ->
    rk st i <> -1 -> dom ov i j = true -> 0 <= rk st j < rk st i;
  (* a row of rank r >= 1 is dominated by a row of rank r - 1 *)
  lay_pred : forall i, (i < length ov)%nat -> 1 <= rk st i ->
    exists j, (j < length ov)%nat /\ dom ov i j = true /\ rk st j = rk st i - 1;
  (* a row set free by the last pass is dominated by a row of the last front *)
  lay_fresh : forall i, (i < length ov)%nat -> rk st i = -1 -> cnt st i = 0 ->
    0 <= rank st ->
    exists j, (j < length ov)%nat /\ dom ov i j = true /\ rk st j = rank st
}.

Section Layers.
Variable ov : matrix.
Abbreviation n := (length ov).
Abbreviation step := (loop_body (domination_map_of ov)).
Abbreviation init := (initial_state ov).

Lemma layer_inv_initial : layer_inv ov init.
Proof.
  split.
  - intros i j _ _ H. by rewrite initial_rk in H.
  - intros i _ H. rewrite initial_rk in H. lia.
  - intros i _ _ _ H. simpl in H. lia.
Qed.

Lemma ranked_stays st i :
  loop_inv ov st -> (i < n)%nat -> rk st i <> -1 -> rk (step st) i = rk st i.
Proof.
  intros Hinv Hi Hne. rewrite step_rk by (done || apply Hinv).
  by destruct (inv_ranked _ _ Hinv i Hi Hne) as [-> _].
Qed.

Lemma layer_inv_step st :
  loop_inv ov st -> layer_inv ov st -> layer_inv ov (step st).
Proof.
  intros Hinv Hlay. pose proof (inv_sized _ _ Hinv) as Hs.
  pose proof (inv_rank _ _ Hinv) as Hr.
  split.
  - intros i j Hi Hj Hne Hd. rewrite (step_rk ov st i) in Hne |- * by done.
    destruct (cnt st i =? 0) eqn:Fi.
    + apply Z.eqb_eq in Fi.
      assert (rk st j <> -1) as Hj'.
      { intros Hu. by rewrite (front_not_dominated ov st i j) in Hd. }
      rewrite (ranked_stays st j) by done.
      destruct (inv_ranked _ _ Hinv j Hj Hj'). lia.
    + pose proof (lay_below _ _ Hlay i j Hi Hj Hne Hd) as Hb.
      rewrite (ranked_stays st j) by (done || lia). done.
  - intros i Hi H1. rewrite (step_rk ov st i) in H1 |- * by done.
    destruct (cnt st i =? 0) eqn:Fi.
    + apply Z.eqb_eq in Fi.
      destruct (lay_fresh _ _ Hlay i Hi) as (j & Hj & Hd & Ej);
        [by apply (front_unranked ov)|done|lia|].
      exists j. split; [done|]. split; [done|].
      rewrite (ranked_stays st j) by (done || lia). lia.
    + destruct (lay_pred _ _ Hlay i Hi H1) as (j & Hj & Hd & Ej).
      exists j. split; [done|]. split; [done|].
      rewrite (ranked_stays st j) by (done || lia). done.
  - intros i Hi Hu Hc _. rewrite step_rk in Hu by done.
    rewrite step_cnt in Hc by done.
    destruct (cnt st i =? 0) eqn:Fi.
    { pose proof (inv_rank _ _ Hinv). lia. }
    apply Z.eqb_neq in Fi.
    assert (0 < count_if (fun j => (cnt st j =? 0)%Z && dom ov i j) n)%nat
      as Hpos by lia.
    apply count_if_pos in Hpos as (j & Hj & [Fj Hd]%andb_true_iff).
    exists j. split; [done|]. split; [done|].
    rewrite (step_rk ov st j), Fj by done. by rewrite step_rank.
Qed.

Lemma layer_inv_passes k : layer_inv ov (passes ov k init).
Proof.
  induction k as [|k IH]; [apply layer_inv_initial|].
  apply layer_inv_step; [|done]. apply loop_inv_passes, loop_inv_initial.
Qed.

Lemma passes_sized k : sized n (passes ov k init).
Proof. apply (inv_sized _ _ (loop_inv_passes ov k _ (loop_inv_initial ov))). Qed.

Lemma lookup_ranks_rk k i x :
  ranks (passes ov k init) !! i = Some x ->
  (i < n)%nat /\ rk (passes ov k init) i = x.
Proof.
  intros H. pose proof (lookup_lt_Some _ _ _ H) as Hi.
  destruct (passes_sized k) as [Hs _]. rewrite Hs in Hi.
  split; [done|]. unfold rk. by rewrite H.
Qed.
End Layers.

(** X13: a ranked row ranks above every row that dominates it. In any result
    of the ranking, for any [n_below], if row [i] has a rank (not -1) and row
    [j] dominates it, then row [j] has a rank too, and a smaller one. For
    [n_below] at most the number of rows the call returns such a result. *)
Theorem ranks_respect_domination (ov : matrix) (n_below : option Z) :
  (forall fuel rs r i j ri,
     _calculate_nondomination_rank fuel ov n_below = Return (rs, r) ->
     rs !! i = Some ri -> ri <> -1 -> dom ov i j = true ->
     exists rj, rs !! j = Some rj /\ 0 <= rj < ri)
  /\ (forall width, rectangular width ov ->
        n_below_or n_below (length ov) <= Z.of_nat (length ov) ->
        exists rs r,
          _calculate_nondomination_rank (length ov) ov n_below = Return (rs, r)).
Proof.
  split.
  - intros fuel rs r i j ri (k & _ & -> & _)%calculate_Return Hi Hne Hd.
    apply lookup_ranks_rk in Hi as [Hi <-].
    pose proof (dom_lt ov i j Hd) as [_ Hj].
    exists (rk (passes ov k (initial_state ov)) j). split.
    + apply (lookup_ranks ov); [apply passes_sized|done].
    + by apply (lay_below _ _ (layer_inv_passes ov k)).
  - intros width Hrect Hnb.
    destruct (calculate_returns ov width Hrect (length ov) n_below Hnb)
      as (k & _ & Hret & _); [done|].
    by eexists _, _.
Qed.

(** X13 on the rows (1,2), (2,1), (1,1), (3,3): row 2 dominates row 3. *)
Lemma ranks_respect_domination_witness :
  let ov := [[PyFloat.f1; PyFloat.f2]; [PyFloat.f2; PyFloat.f1];
             [PyFloat.f1; PyFloat.f1]; [PyFloat.f3; PyFloat.f3]] in
  exists rj, [1; 1; 0; 2] !! 2%nat = Some rj /\ 0 <= rj < 2.
Proof.
  intros ov.
  destruct (ranks_respect_domination ov None) as [H _].
  apply (H 4%nat [1; 1; 0; 2] 2 3%nat 2%nat 2); try reflexivity. lia.
Defined.

(** X14: ranks leave no gap: in any result of the ranking, a row of rank
    [r >= 1] is dominated by some row of rank [r - 1]. With X13 this makes a
    rank the length of the longest chain of dominating rows above the row. *)
Theorem rank_has_predecessor (ov : matrix) (n_below : option Z) :
  (forall fuel rs r i ri,
     _calculate_nondomination_rank fuel ov n_below = Return (rs, r) ->
     rs !! i = Some ri -> 1 <= ri ->
     exists j, dom ov i j = true /\ rs !! j = Some (ri - 1))
  /\ (forall width, rectangular width ov ->
        n_below_or n_below (length ov) <= Z.of_nat (length ov) ->
        exists rs r,
          _calculate_nondomination_rank (length ov) ov n_below = Return (rs, r)).
Proof.
  split.
  - intros fuel rs r i ri (k & _ & -> & _)%calculate_Return Hi H1.
    apply lookup_ranks_rk in Hi as [Hi <-].
    destruct (lay_pred _ _ (layer_inv_passes ov k) i Hi H1) as (j & Hj & Hd & Ej).
    exists j. split; [done|]. rewrite <- Ej.
    apply (lookup_ranks ov); [apply passes_sized|done].
  - intros width Hrect Hnb.
    destruct (calculate_returns ov width Hrect (length ov) n_below Hnb)
      as (k & _ & Hret & _); [done|].
    by eexists _, _.
Qed.

(** X14 on the rows (1,2), (2,1), (1,1), (3,3): row 3 has rank 2. *)
Lemma rank_has_predecessor_witness :
  let ov := [[PyFloat.f1; PyFloat.f2]; [PyFloat.f2; PyFloat.f1];
             [PyFloat.f1; PyFloat.f1]; [PyFloat.f3; PyFloat.f3]] in
  exists j, dom ov 3 j = true /\ [1; 1; 0; 2] !! j = Some (2 - 1).
Proof.
  intros ov.
  destruct (rank_has_predecessor ov None) as [H _].
  apply (H 4%nat [1; 1; 0; 2] 2 3%nat 2); try reflexivity. lia.
Defined.

(** ** The rank index returned and the threshold *)

Section Threshold.
Variable ov : matrix.
Abbreviation n := (length ov).
Abbreviation step := (loop_body (domination_map_of ov)).
Abbreviation init := (initial_state ov).

Lemma count_true_map_ranks (f : Z -> bool) st :
  sized n st ->
  count_true (map f (ranks st)) = count_if (fun i => f (rk st i)) n.
Proof.
  intros Hs. rewrite count_true_as_count_if, length_map.
  destruct Hs as [Hr Hc]. rewrite Hr. apply count_if_ext. intros i Hi.
  rewrite list_lookup_fmap, (lookup_ranks ov) by (done || by split). done.
Qed.

Lemma ranked_count st :
  loop_inv ov st ->
  ranked_idx_num st
  = Z.of_nat (count_true (map (fun x => negb (x =? -1)) (ranks st))).
Proof.
  intros Hinv. rewrite (inv_num _ _ Hinv), count_true_map_ranks by apply Hinv.
  done.
Qed.

(** The rows ranked before the last pass are those whose rank is below the
    rank that the last pass gave. *)
Lemma ranked_before_last st :
  loop_inv ov st ->
  ranked_idx_num st
  = Z.of_nat (count_true
                (map (fun x => negb (x =? -1) && (x <? rank (step st)))
                     (ranks (step st)))).
Proof.
  intros Hinv. pose proof (inv_rank _ _ Hinv) as Hr.
  rewrite (inv_num _ _ Hinv).
  rewrite count_true_map_ranks by (apply step_sized, Hinv). f_equal.
  apply count_if_ext. intros i Hi.
  rewrite step_rk, step_rank by (done || apply Hinv). unfold unranked.
  destruct (rk st i =? -1) eqn:U.
  - apply Z.eqb_eq in U. rewrite U.
    destruct (cnt st i =? 0); simpl; [|done].
    rewrite (proj2 (Z.ltb_ge _ _)) by lia. by rewrite andb_false_r.
  - apply Z.eqb_neq in U.
    destruct (inv_ranked _ _ Hinv i Hi U) as [-> Hb]. simpl.
    rewrite (proj2 (Z.eqb_neq _ _) U). simpl. symmetry. apply Z.ltb_lt. lia.
Qed.
End Threshold.

(** X15: what the ranking returns with its ranks. In any result [(rs, r)] on
    a matrix of rows of one width: [rs] has one entry per row, each -1 or
    between 0 and [r]; [r] is -1 or the rank of some row, so it is the
    highest rank given; at least [n_below] rows have a rank ([n_below] read
    as the number of rows when None or 0), and fewer than [n_below] have a
    rank below [r]: the last front was needed to reach the threshold. *)
Theorem rank_index_and_threshold (ov : matrix) (width : nat)
    (n_below : option Z) (fuel : nat) (rs : list Z) (r : Z) :
  rectangular width ov ->
  _calculate_nondomination_rank fuel ov n_below = Return (rs, r) ->
  length rs = length ov
  /\ (forall x, x ∈ rs -> x = -1 \/ 0 <= x <= r)
  /\ -1 <= r
  /\ (0 <= r -> exists i, rs !! i = Some r)
  /\ n_below_or n_below (length ov)
     <= Z.of_nat (count_true (map (fun x => negb (x =? -1)) rs))
  /\ (0 <= r ->
      Z.of_nat (count_true (map (fun x => negb (x =? -1) && (x <? r)) rs))
      < n_below_or n_below (length ov)).
Proof.
  intros Hrect (k & _ & -> & -> & Hstop & Hgo)%calculate_Return.
  set (init := initial_state ov) in *.
  pose proof (loop_inv_passes ov k _ (loop_inv_initial ov)) as Hinv.
  fold init in Hinv.
  assert (rank (passes ov k init) = Z.of_nat k - 1) as Er
    by (rewrite passes_rank; simpl; lia).
  split; [apply Hinv|]. split; [|split; [lia|split; [|split]]].
  - intros x [i Hx]%list_elem_of_lookup.
    apply lookup_ranks_rk in Hx as [Hi <-].
    destruct (decide (rk (passes ov k init) i = -1)) as [|Hne]; [by left|].
    right. by destruct (inv_ranked _ _ Hinv i Hi Hne).
  - intros H0. destruct k as [|k]; [lia|].
    set (st := passes ov k init).
    pose proof (loop_inv_passes ov k _ (loop_inv_initial ov)) as Hst.
    fold init in Hst. fold st in Hst.
    change (passes ov (S k) init) with (loop_body (domination_map_of ov) st) in *.
    pose proof (ranked_le_rows ov _ Hinv) as Hle.
    specialize (Hgo k ltac:(lia)). fold st in Hgo.
    destruct (unranked_exists ov st Hst) as (i & Hi & Hu); [lia|].
    destruct (front_nonempty ov width Hrect st i Hst Hi Hu) as (j & Hj & Fj).
    exists j. rewrite (lookup_ranks ov) by (done || apply Hinv). f_equal.
    rewrite step_rk, Fj by (done || apply Hst). reflexivity.
  - by rewrite <- (ranked_count ov).
  - intros H0. destruct k as [|k]; [lia|].
    specialize (Hgo k ltac:(lia)).
    change (passes ov (S k) init)
      with (loop_body (domination_map_of ov) (passes ov k init)).
    rewrite <- (ranked_before_last ov); [done|].
    apply loop_inv_passes, loop_inv_initial.
Qed.

(** X15 on the rows (1,2), (2,1), (1,1), (3,3) with [n_below = 2]: two passes
    rank three rows. *)
Lemma rank_index_and_threshold_witness :
  length [1; 1; 0; -1] = 4%nat
  /\ (0 <= 1 -> exists i, [1; 1; 0; -1] !! i = Some 1).
Proof.
  destruct (rank_index_and_threshold
              [[PyFloat.f1; PyFloat.f2]; [PyFloat.f2; PyFloat.f1];
               [PyFloat.f1; PyFloat.f1]; [PyFloat.f3; PyFloat.f3]]
              2 (Some 2) 4 [1; 1; 0; -1] 1) as (H1 & _ & _ & H2 & _).
  - repeat constructor.
  - reflexivity.
  - split; [exact H1|exact H2].
Defined.

(** ** The front, whichever algorithm computes it *)

Section ByTrials.
Variable directions : list StudyDirection.
Variable C : list FrozenTrial.
Hypothesis HC : Forall (shaped directions) C.

Lemma nondominated_iff t :
  t ∈ C ->
  nondominated directions C t = true
  <-> forall o, o ∈ C -> _dominates o t directions = Return false.
Proof.
  intros Ht. unfold nondominated. rewrite negb_true_iff.
  assert (forall o, o ∈ C -> shaped directions o) as Hs
    by (intros o Ho; by apply (proj1 (Forall_forall _ _) HC)).
  split.
  - intros Hn o Ho. rewrite dominates_shaped by auto. f_equal.
    destruct (dominated_by _ _) eqn:E; [|done].
    rewrite <- Hn. symmetry. apply existsb_exists. exists o.
    split; [by apply list_elem_of_In|done].
  - intros Hn. destruct (existsb _ C) eqn:E; [|done].
    apply existsb_exists in E as (o & Ho%list_elem_of_In & Hd).
    specialize (Hn o Ho). rewrite dominates_shaped in Hn by auto. congruence.
Qed.

Lemma elem_of_nondominated t :
  t ∈ List.filter (nondominated directions C) C
  <-> t ∈ C /\ forall o, o ∈ C -> _dominates o t directions = Return false.
Proof.
  rewrite list_elem_of_In, filter_In, <- list_elem_of_In. split.
  - intros [Ht Hn]. split; [done|]. by apply nondominated_iff.
  - intros [Ht Hn]. split; [done|]. by apply nondominated_iff.
Qed.
End ByTrials.

(** X16: [_get_pareto_front_trials_by_trials] returns the Pareto front by
    either algorithm. When every complete trial has one value per direction
    and, where there are two directions, no NaN among its values, the call
    returns, and a trial is in the result exactly if it is a complete trial
    of the input that no complete trial of the input dominates. *)
Theorem pareto_front_is_nondominated_set (trials : list FrozenTrial)
    (directions : list StudyDirection) :
  Forall (fun t => is_complete (state t) = true ->
            length (values t) = length directions
            /\ (length directions = 2%nat ->
                Forall (fun v => v <> Some PyFloat.nan) (values t))) trials ->
  exists front,
    _get_pareto_front_trials_by_trials trials directions = Return front
    /\ forall t, t ∈ front
         <-> t ∈ trials /\ is_complete (state t) = true
             /\ forall o, o ∈ trials -> is_complete (state o) = true ->
                  _dominates o t directions = Return false.
Proof.
  intros Htrials. set (C := complete_trials trials).
  assert (Forall (shaped directions) C) as HC.
  { apply Forall_forall. intros t [Ht Hc]%elem_of_complete_trials.
    split; [done|]. by apply (proj1 (Forall_forall _ _) Htrials). }
  assert (forall t, t ∈ List.filter (nondominated directions C) C
            <-> t ∈ trials /\ is_complete (state t) = true
                /\ forall o, o ∈ trials -> is_complete (state o) = true ->
                     _dominates o t directions = Return false) as Hset.
  { intros t. rewrite (elem_of_nondominated directions C HC).
    unfold C. rewrite elem_of_complete_trials. split.
    - intros [[Ht Hc] Hn]. repeat split; [done..|]. intros o Ho Hco.
      apply Hn. by apply elem_of_complete_trials.
    - intros (Ht & Hc & Hn). split; [done|].
      intros o [Ho Hco]%elem_of_complete_trials. by apply Hn. }
  unfold _get_pareto_front_trials_by_trials.
  destruct (length directions =? 2)%nat eqn:E2.
  - apply Nat.eqb_eq in E2.
    destruct directions as [|d0 [|d1 [|]]]; try done.
    assert (Forall plain C) as Hplain.
    { apply Forall_forall. intros t [Ht Hc]%elem_of_complete_trials.
      split; [done|].
      destruct (proj1 (Forall_forall _ _) Htrials t Ht Hc) as [Hl Hv].
      specialize (Hv eq_refl).
      destruct (values t) as [|v0 [|v1 [|]]]; try done.
      exists v0, v1. split; [done|].
      apply Forall_cons in Hv as [H0 Hv]. apply Forall_cons in Hv as [H1 _].
      done. }
    rewrite (front_2d_sweep d0 d1 C Hplain) by done.
    eexists. split; [done|]. intros t. rewrite <- Hset.
    rewrite list_elem_of_fmap. split.
    + intros (p & -> & Hp%elem_of_sort_keyed).
      apply list_elem_of_fmap in Hp as (t & -> & Ht). simpl.
      apply list_elem_of_In, filter_In in Ht as [Ht%list_elem_of_In Hn].
      apply list_elem_of_In, filter_In. split; [|done].
      apply list_elem_of_In. by apply (elem_of_sorted_trials d0 d1 C).
    + intros [Ht%list_elem_of_In Hn]%list_elem_of_In%filter_In.
      exists (number t, t). split; [done|].
      apply elem_of_sort_keyed, list_elem_of_fmap. exists t. split; [done|].
      apply list_elem_of_In, filter_In. split; [|done].
      apply list_elem_of_In. by apply (elem_of_sorted_trials d0 d1 C).
  - unfold _get_pareto_front_trials_nd. fold C. rewrite nd_loop_shaped by done.
    eexists. split; [done|]. exact Hset.
Qed.

(** X16 on three trials with three values each. *)
Lemma pareto_front_is_nondominated_set_witness :
  let T := fun i a b c => mkTrial i COMPLETE [Some a; Some b; Some c] in
  let trials := [T 0 PyFloat.f1 PyFloat.f2 PyFloat.f1;
                 T 1 PyFloat.f2 PyFloat.f2 PyFloat.f1;
                 T 2 PyFloat.f2 PyFloat.f1 PyFloat.nan] in
  exists front,
    _get_pareto_front_trials_by_trials trials [MINIMIZE; MINIMIZE; MAXIMIZE]
    = Return front
    /\ forall t, t ∈ front
         <-> t ∈ trials /\ is_complete (state t) = true
             /\ forall o, o ∈ trials -> is_complete (state o) = true ->
                  _dominates o t [MINIMIZE; MINIMIZE; MAXIMIZE] = Return false.
Proof.
  intros T trials.
  apply (pareto_front_is_nondominated_set trials [MINIMIZE; MINIMIZE; MAXIMIZE]).
  repeat constructor; discriminate.
Defined.

(** ** Infeasible rows are ranked by their penalty *)

Section MaskIndex.

(** The place in [a[mask]] of the item at index [i] of [a]. *)
Definition mask_pos (mask : list bool) (i : nat) : nat := count_true (take i mask).

Lemma lookup_mask_select {A} (mask : list bool) (a : list A) i x :
  mask !! i = Some true -> a !! i = Some x ->
  mask_select mask a !! mask_pos mask i = Some x.
Proof.
  unfold mask_pos. revert a i.
  induction mask as [|b mask IH]; intros [|y a] [|i]; simpl; try done.
  - by intros [= ->] [= ->].
  - intros Hm Ha. destruct b; simpl; by apply IH.
Qed.

Lemma lookup_mask_add_true (mask : list bool) (a vals : list Z) i y :
  length vals = count_true mask ->
  mask !! i = Some true -> a !! i = Some y ->
  exists v, vals !! mask_pos mask i = Some v
    /\ mask_add mask a vals !! i = Some (y + v).
Proof.
  unfold mask_pos. revert a vals i.
  induction mask as [|b mask IH]; intros [|x a] vals [|i]; simpl; try done.
  - intros Hv [= ->] [= ->]. destruct vals as [|v vals]; [done|]. by exists v.
  - intros Hv Hm Ha. destruct b; simpl.
    + destruct vals as [|v vals]; [done|]. simpl in *.
      apply IH; [lia|done..].
    + by apply IH.
Qed.
End MaskIndex.

Section PenaltyRows.
Import PyFloat PyFloatFacts.

Lemma dominated_by_single p q : dominated_by [p] [q] = lt q p.
Proof.
  unfold dominated_by. cbn [zip zip_with forallb existsb fst snd].
  rewrite andb_true_r, orb_false_r. revert p q. float_order.
Qed.

Lemma infeasible_eq p q :
  infeasible p = true -> eq p q = true -> p = q.
Proof.
  unfold infeasible, gt, f0. revert p q. float_order.
  all: try (apply Pos.compare_eq in H1; congruence).
Qed.

Lemma lt_or_eq_or_gt p q :
  isnan p = false -> isnan q = false ->
  lt p q = true \/ eq p q = true \/ lt q p = true.
Proof. revert p q. float_order. Qed.

Lemma lt_asym p q : lt p q = true -> lt q p = false.
Proof. revert p q. float_order. Qed.
End PenaltyRows.

(** X17: under constraints and with [n_below] defaulted, the infeasible rows
    are ranked by their penalty alone: of two rows with positive penalties
    the one with the smaller penalty has the smaller rank, and two rows have
    the same rank exactly if their penalties are equal, whatever the
    objective values. *)
Theorem infeasible_ranked_by_penalty (ov : matrix) (width : nat)
    (penalty : list PyFloat.float) (n_below : option Z) :
  rectangular width ov ->
  length penalty = length ov ->
  n_below = None \/ n_below = Some 0 ->
  exists rs,
    _fast_non_dominated_sort (length ov) ov (Some penalty) n_below = Return rs
    /\ forall i j pi pj,
         penalty !! i = Some pi -> penalty !! j = Some pj ->
         infeasible pi = true -> infeasible pj = true ->
         exists ri rj, rs !! i = Some ri /\ rs !! j = Some rj
           /\ (ri < rj <-> PyFloat.lt pi pj = true)
           /\ (ri = rj <-> PyFloat.eq pi pj = true).
Proof.
  intros Hrect Hlen Hnb.
  rewrite fast_sort_unfold by done.
  set (m1 := map feasible penalty). set (m2 := map infeasible penalty).
  set (m3 := map PyFloat.isnan penalty).
  assert (length m1 = length ov) as L1 by (unfold m1; by rewrite length_map).
  assert (length m2 = length ov) as L2 by (unfold m2; by rewrite length_map).
  assert (length m3 = length ov) as L3 by (unfold m3; by rewrite length_map).
  assert (forall m : list bool, (count_true m <= length m)%nat) as Hcount
    by apply count_true_le.
  assert (n_below_or n_below 0 = 0 /\ forall m : matrix,
            n_below_or n_below (length m) = Z.of_nat (length m)) as [_ Hfull].
  { by destruct Hnb as [-> | ->]. }
  set (M := map (fun p => [p]) (mask_select m2 penalty)).
  assert (length M = count_true m2) as LM.
  { unfold M. rewrite length_map, length_mask_select; [done|lia]. }
  destruct (calculate_full (mask_select m1 ov) width
              (Forall_mask_select _ _ _ Hrect) (length ov) n_below)
    as (k1 & _ & -> & [Lv1 _] & _);
    [apply Hfull|rewrite length_mask_select by done; specialize (Hcount m1); lia|].
  assert (rectangular 1 M) as HrectM.
  { unfold M. apply Forall_fmap, Forall_true. done. }
  destruct (calculate_full M 1 HrectM (length ov) n_below)
    as (k2 & _ & -> & Hs2 & Hr2 & _);
    [apply Hfull|rewrite LM; specialize (Hcount m2); lia|].
  destruct (calculate_full (mask_select m3 ov) width
              (Forall_mask_select _ _ _ Hrect) (length ov) n_below)
    as (k3 & _ & -> & [Lv3 _] & _);
    [apply Hfull|rewrite length_mask_select by done; specialize (Hcount m3); lia|].
  rewrite length_mask_select in Lv1, Lv3 by done.
  cbn [mbind result_bind mret result_ret fst snd].
  set (st2 := passes M k2 (initial_state M)) in *.
  set (v1 := ranks (passes (mask_select m1 ov) k1 _)) in *.
  set (v3 := ranks (passes (mask_select m3 ov) k3 _)) in *.
  set (fb := Z.of_nat k1 - 1). set (ib := Z.of_nat k2 - 1).
  set (w2 := map (fun r => r + (fb + 1)) (ranks st2)).
  set (w3 := map (fun r => r + (fb + 1) + (ib + 1)) v3).
  destruct Hs2 as [Ls2 _].
  assert (length w2 = count_true m2) as Lw2
    by (unfold w2; by rewrite length_map, Ls2).
  assert (length w3 = count_true m3) as Lw3 by (unfold w3; by rewrite length_map).
  set (a0 := replicate (length ov) 0).
  set (a1 := mask_add m1 a0 v1).
  set (a2 := mask_add m2 a1 w2).
  set (a3 := mask_add m3 a2 w3).
  assert (length a0 = length ov) as La0 by (unfold a0; by rewrite length_replicate).
  assert (length a1 = length ov) as La1 by (unfold a1; by rewrite length_mask_add).
  assert (length a2 = length ov) as La2 by (unfold a2; by rewrite length_mask_add).
  eexists. split; [reflexivity|].
  pose proof (loop_inv_passes M k2 _ (loop_inv_initial M)) as Hinv2.
  fold st2 in Hinv2.
  (* the rank of an infeasible row, from its place in the penalty matrix *)
  assert (forall i p, penalty !! i = Some p -> infeasible p = true ->
            (mask_pos m2 i < length M)%nat
            /\ M !! mask_pos m2 i = Some [p]
            /\ a3 !! i = Some (0 + (rk st2 (mask_pos m2 i) + (fb + 1)))) as Hrow.
  { intros i p Hp Hinf.
    pose proof (lookup_lt_Some _ _ _ Hp) as Hi.
    pose proof (penalty_groups p) as G. rewrite Hinf in G.
    destruct (feasible p) eqn:F, (PyFloat.isnan p) eqn:N; try done.
    assert (a0 !! i = Some 0) as E0 by (unfold a0; apply lookup_replicate_2; lia).
    assert (m1 !! i = Some false) as M1
      by (unfold m1; by rewrite list_lookup_fmap, Hp; simpl; rewrite F).
    assert (m2 !! i = Some true) as M2
      by (unfold m2; by rewrite list_lookup_fmap, Hp; simpl; rewrite Hinf).
    assert (m3 !! i = Some false) as M3
      by (unfold m3; by rewrite list_lookup_fmap, Hp; simpl; rewrite N).
    pose proof (lookup_mask_add m1 a0 v1 i _ 0 ltac:(lia) Lv1 M1 E0) as S1.
    fold a1 in S1. cbv iota in S1.
    destruct (lookup_mask_add_true m2 a1 w2 i 0 Lw2 M2 S1) as (v & Hv & S2).
    fold a2 in S2.
    pose proof (lookup_mask_add m3 a2 w3 i _ _ ltac:(lia) Lw3 M3 S2) as S3.
    fold a3 in S3. cbv iota in S3.
    assert (M !! mask_pos m2 i = Some [p]) as HM.
    { unfold M. rewrite list_lookup_fmap.
      by rewrite (lookup_mask_select m2 penalty i p). }
    pose proof (lookup_lt_Some _ _ _ HM) as Hpos.
    split; [done|]. split; [done|].
    rewrite S3. do 2 f_equal.
    unfold w2 in Hv. rewrite list_lookup_fmap in Hv.
    unfold rk. destruct (ranks st2 !! mask_pos m2 i); simpl in *; congruence. }
  (* smaller penalty, smaller rank; equal penalty, equal rank *)
  assert (forall i j pi pj, penalty !! i = Some pi -> penalty !! j = Some pj ->
            infeasible pi = true -> infeasible pj = true ->
            (PyFloat.lt pi pj = true ->
             rk st2 (mask_pos m2 i) < rk st2 (mask_pos m2 j))
            /\ (PyFloat.eq pi pj = true ->
                rk st2 (mask_pos m2 i) = rk st2 (mask_pos m2 j))) as Hcmp.
  { intros i j pi pj Hpi Hpj Ii Ij.
    destruct (Hrow i pi Hpi Ii) as (Hi & HMi & _).
    destruct (Hrow j pj Hpj Ij) as (Hj & HMj & _).
    split.
    - intros Hlt.
      assert (rk st2 (mask_pos m2 j) <> -1) as Hranked.
      { specialize (Hr2 (mask_pos m2 j) Hj). fold st2 in Hr2. lia. }
      apply (lay_below _ _ (layer_inv_passes M k2)); [done..|].
      unfold dom. rewrite HMi, HMj. by rewrite dominated_by_single.
    - intros Heq. apply infeasible_eq in Heq as <-; [|done].
      by apply (same_row_passes M _ _ [pi]). }
  intros i j pi pj Hpi Hpj Ii Ij.
  destruct (Hrow i pi Hpi Ii) as (_ & _ & Ei).
  destruct (Hrow j pj Hpj Ij) as (_ & _ & Ej).
  eexists _, _. split; [exact Ei|]. split; [exact Ej|].
  destruct (Hcmp i j pi pj Hpi Hpj Ii Ij) as [Hlt Heq].
  destruct (Hcmp j i pj pi Hpj Hpi Ij Ii) as [Hgt _].
  assert (PyFloat.isnan pi = false /\ PyFloat.isnan pj = false) as [Ni Nj].
  { unfold infeasible in Ii, Ij.
    apply andb_true_iff in Ii as [Ii _]. apply andb_true_iff in Ij as [Ij _].
    by rewrite negb_true_iff in Ii, Ij. }
  destruct (lt_or_eq_or_gt pi pj Ni Nj) as [H|[H|H]].
  - specialize (Hlt H). rewrite H, (PyFloatFacts.lt_not_eq _ _ H).
    split; split; try done; lia.
  - specialize (Heq H). rewrite H.
    assert (PyFloat.lt pi pj = false) as ->.
    { destruct (PyFloat.lt pi pj) eqn:E; [|done].
      apply PyFloatFacts.lt_not_eq in E. congruence. }
    split; split; try done; lia.
  - specialize (Hgt H). rewrite (lt_asym _ _ H).
    assert (PyFloat.eq pi pj = false) as ->.
    { rewrite PyFloatFacts.eq_sym. by apply PyFloatFacts.lt_not_eq. }
    split; split; try done; lia.
Qed.

(** X17 on three rows with penalties 2, 1, 2 and very different
    objectives. *)
Lemma infeasible_ranked_by_penalty_witness :
  exists rs,
    _fast_non_dominated_sort 3 [[PyFloat.f1]; [PyFloat.f5]; [PyFloat.f3]]
      (Some [PyFloat.f2; PyFloat.f1; PyFloat.f2]) None = Return rs
    /\ exists r0 r1 r2, rs !! 0%nat = Some r0 /\ rs !! 1%nat = Some r1
         /\ rs !! 2%nat = Some r2 /\ r1 < r0 /\ r0 = r2.
Proof.
  destruct (infeasible_ranked_by_penalty
              [[PyFloat.f1]; [PyFloat.f5]; [PyFloat.f3]] 1
              [PyFloat.f2; PyFloat.f1; PyFloat.f2] None)
    as (rs & Hret & H).
  - repeat constructor.
  - reflexivity.
  - by left.
  - exists rs. split; [exact Hret|].
    destruct (H 1%nat 0%nat _ _ eq_refl eq_refl eq_refl eq_refl)
      as (r1 & r0 & E1 & E0 & Hlt & _).
    destruct (H 0%nat 2%nat _ _ eq_refl eq_refl eq_refl eq_refl)
      as (r0' & r2 & E0' & E2 & _ & Heq).
    assert (r0' = r0) as -> by congruence.
    exists r0, r1, r2. repeat split; try done.
    + by apply Hlt.
    + by apply Heq.
Defined.
